(** * 3dssmb: an FTP-like shell over an SMB share

    A shallow embedding of [3dssmb.py] and the properties of its helpers
    ([format_size], [print_filelist], [complete_config]) and of the
    [ClientCmd] shell ([_connect], [_path_for], [_change_dir], [do_cd],
    [do_get]).

    Conventions.
    - Python [str] is [string]: a character is a code point below 256
      (ASCII and Latin-1), and strings compare by code point.
      [str.lower] is the case mapping of Unicode on these characters.
      A character outside ASCII is written [chr n]: a string literal
      would hold the bytes of its UTF-8 encoding, which is another
      string.
    - Python [int] is [Z].  The only floats of the program are of the
      form [float(n) / 1024.0 ** k]; they are kept exactly, as a mantissa
      and a scale.
    - An exception is a value of [exn]; a call that may raise returns a
      [result].
    - The SMB, NetBIOS and file-system libraries are not part of the
      program: every call into them takes the answer of the outside world
      as an argument and records the call in a trace of [event]s. *)

From stdpp Require Import gmap strings list fin_maps.
From Stdlib Require Import Ascii String ZArith Lia DecimalString Permutation Sorted.

Open Scope Z_scope.

(** ** Exceptions and results *)

Inductive exn : Type :=
  | EOFError
  | ValueError
  | TypeError
  | OverflowError
  | OSError
  | AttributeError
  | NameError
  | OperationFailure (message : string)
  | LibraryError (name : string).

Inductive result (A : Type) : Type :=
  | Ok (a : A)
  | Raise (e : exn).

Arguments Ok {A} a.
Arguments Raise {A} e.

(** ** Strings *)

Module Str.

Definition sep : ascii := "\"%char.
Definition altsep : ascii := "/"%char.
Definition colon : ascii := ":"%char.

(** [c in "\\/"] *)
Definition is_sep (c : ascii) : bool :=
  Ascii.eqb c sep || Ascii.eqb c altsep.

(** [s * n] for a one-character string *)
Fixpoint repeat_char (c : ascii) (n : nat) : string :=
  match n with
  | O => EmptyString
  | S n' => String c (repeat_char c n')
  end.

(** ["{:>{w}}".format(s, w=w)]: right-align in a field of [w]. *)
Definition rjust (w : nat) (s : string) : string :=
  repeat_char " " (w - String.length s) +:+ s.

(** [c.lower()]: the letters A-Z and the capital letters of Latin-1,
    U+00C0 to U+00DE without the multiplication sign U+00D7, move up by
    32; every other code point below 256 is its own lower case. *)
Definition lower_char (c : ascii) : ascii :=
  let n := nat_of_ascii c in
  if (65 <=? n)%nat && (n <=? 90)%nat
     || (192 <=? n)%nat && (n <=? 222)%nat && negb (n =? 215)%nat
  then ascii_of_nat (n + 32) else c.

(** [c.upper()] on ASCII.  The program reaches [upper] in one place, the
    test [normp[:8].upper() == "\\?\UNC\"] of [ntpath.splitdrive]: no
    character outside ASCII has an upper case made of the characters of
    that constant, so the test is decided by the letters a-z. *)
Definition upper_char (c : ascii) : ascii :=
  let n := nat_of_ascii c in
  if (97 <=? n)%nat && (n <=? 122)%nat then ascii_of_nat (n - 32) else c.

Fixpoint map_chars (f : ascii -> ascii) (s : string) : string :=
  match s with
  | EmptyString => EmptyString
  | String c s' => String (f c) (map_chars f s')
  end.

(** [s.lower()], [s.upper()] *)
Definition lower : string -> string := map_chars lower_char.
Definition upper : string -> string := map_chars upper_char.

(** [s.replace("/", "\\")] *)
Definition replace_altsep : string -> string :=
  map_chars (fun c => if Ascii.eqb c altsep then sep else c).

(** [s[:n]] and [s[n:]] *)
Fixpoint take (n : nat) (s : string) : string :=
  match n, s with
  | S n', String c s' => String c (take n' s')
  | _, _ => EmptyString
  end.

Fixpoint drop (n : nat) (s : string) : string :=
  match n, s with
  | S n', String _ s' => drop n' s'
  | _, _ => s
  end.

(** [s.find("\\", start)], [None] for -1 *)
Fixpoint find_sep (s : string) (start : nat) : option nat :=
  match s with
  | EmptyString => None
  | String c s' =>
      match start with
      | O => if Ascii.eqb c sep then Some O
             else option_map S (find_sep s' O)
      | S start' => option_map S (find_sep s' start')
      end
  end.

(** [s.lstrip("\\")] *)
Fixpoint lstrip_sep (s : string) : string :=
  match s with
  | String c s' => if Ascii.eqb c sep then lstrip_sep s' else s
  | EmptyString => EmptyString
  end.

(** [s.split(sep)]: never an empty list, one empty component for the
    empty string. *)
Fixpoint split_sep (s : string) : list string :=
  match s with
  | EmptyString => [EmptyString]
  | String c s' =>
      if Ascii.eqb c sep then EmptyString :: split_sep s'
      else match split_sep s' with
           | w :: ws => String c w :: ws
           | [] => [String c EmptyString]
           end
  end.

(** ["\\".join(comps)] *)
Fixpoint join_sep (comps : list string) : string :=
  match comps with
  | [] => EmptyString
  | [w] => w
  | w :: ws => w +:+ String sep (join_sep ws)
  end.

(** [s[-1]] when [s] is not empty *)
Fixpoint last_char (s : string) : option ascii :=
  match s with
  | EmptyString => None
  | String c EmptyString => Some c
  | String _ s' => last_char s'
  end.

Definition first_char (s : string) : option ascii :=
  match s with
  | EmptyString => None
  | String c _ => Some c
  end.

(** [bool(s)] *)
Definition nonempty (s : string) : bool :=
  match s with EmptyString => false | _ => true end.

(** Python compares strings by code point, lexicographically. *)
Fixpoint ltb (s t : string) : bool :=
  match s, t with
  | EmptyString, EmptyString => false
  | EmptyString, String _ _ => true
  | String _ _, EmptyString => false
  | String a s', String b t' =>
      if (nat_of_ascii a <? nat_of_ascii b)%nat then true
      else if (nat_of_ascii b <? nat_of_ascii a)%nat then false
      else ltb s' t'
  end.

End Str.

(** ** [format_size] *)

(** [float(n)]: the integer value of the double nearest to [n] (ties to
    even, 53 bits of mantissa); [None] when Python raises
    [OverflowError: int too large to convert to float]. *)

Definition round_half_even (a b : Z) : Z :=
  let q := a / b in
  let r := a mod b in
  if 2 * r <? b then q
  else if b <? 2 * r then q + 1
  else if Z.even q then q else q + 1.

Definition float_of_int (n : Z) : option Z :=
  let a := Z.abs n in
  let e := Z.max 0 (Z.log2 a - 52) in
  let v := round_half_even a (2 ^ e) * 2 ^ e in
  if v <? 2 ^ 1024 then Some (Z.sgn n * v) else None.

(** The values [num] takes in [format_size]: the [int] argument, then
    the doubles [float(n) / 1024.0 ** k], which are exact ([PyFloat m k]
    is [m / 1024 ^ k]). *)

Inductive pynum : Type :=
  | PyInt (n : Z)
  | PyFloat (m : Z) (k : nat).

(** [abs(num) < 1024.0]; Python compares an [int] with a [float]
    exactly. *)
Definition abs_lt_1024 (x : pynum) : bool :=
  match x with
  | PyInt n => Z.abs n <? 1024
  | PyFloat m k => Z.abs m <? 1024 * 1024 ^ Z.of_nat k
  end.

(** [num /= 1024.0] *)
Definition div_1024 (x : pynum) : result pynum :=
  match x with
  | PyInt n =>
      match float_of_int n with
      | Some m => Ok (PyFloat m 1)
      | None => Raise OverflowError
      end
  | PyFloat m k => Ok (PyFloat m (S k))
  end.

Definition decimal (n : Z) : string :=
  NilZero.string_of_uint (N.to_uint (Z.to_N n)).

(** The decimal rendering of [m / d] with one digit after the point,
    correctly rounded (ties to even), as ["%.1f"] gives it. *)
Definition one_decimal (m d : Z) : string :=
  let t := round_half_even (10 * Z.abs m) d in
  (if m <? 0 then "-" else EmptyString) +:+ decimal (t / 10) +:+ "." +:+ decimal (t mod 10).

(** ["%3.1f" % num]: an [int] is converted with [float(num)] first. *)
Definition fmt_3_1f (x : pynum) : result string :=
  match x with
  | PyInt n =>
      match float_of_int n with
      | Some m => Ok (Str.rjust 3 (one_decimal m 1))
      | None => Raise OverflowError
      end
  | PyFloat m k => Ok (Str.rjust 3 (one_decimal m (1024 ^ Z.of_nat k)))
  end.

Definition units : list string :=
  [EmptyString; "Ki"; "Mi"; "Gi"; "Ti"; "Pi"; "Ei"; "Zi"].

(** The [for unit in ...] loop; falling off its end returns [None]. *)
Fixpoint format_size_loop (us : list string) (num : pynum) (suffix : string)
  : result (option string) :=
  match us with
  | [] => Ok None
  | unit :: us' =>
      if abs_lt_1024 num then
        match fmt_3_1f num with
        | Ok s => Ok (Some (s +:+ unit +:+ suffix))
        | Raise e => Raise e
        end
      else
        match div_1024 num with
        | Ok num' => format_size_loop us' num' suffix
        | Raise e => Raise e
        end
  end.

Definition format_size (num : Z) : result (option string) :=
  format_size_loop units (PyInt num) "B".


(** ** [print_filelist] *)

(** An element of [filelist]: the tuple [(filename, isdir, size)].  The
    third component is what [format_size] returned, so it can be
    [None]. *)
Record fentry : Type := {
  fname : string;
  fisdir : bool;
  fsize : option string;
}.

(** [key=lambda f: (not f[1], f[0].lower())] *)
Definition sort_key (f : fentry) : bool * string :=
  (negb (fisdir f), Str.lower (fname f)).

(** [a < b] on these tuples: the first components that differ decide,
    and [False < True]. *)
Definition key_ltb (a b : bool * string) : bool :=
  if Bool.eqb (fst a) (fst b) then Str.ltb (snd a) (snd b)
  else negb (fst a) && fst b.

(** [list.sort] is a stable sort: entries of equal key keep their
    order.  Insertion from the right gives that arrangement. *)
Fixpoint sort_insert (x : fentry) (l : list fentry) : list fentry :=
  match l with
  | [] => [x]
  | y :: l' =>
      if key_ltb (sort_key y) (sort_key x) then y :: sort_insert x l'
      else x :: y :: l'
  end.

Definition sort_filelist (l : list fentry) : list fentry :=
  foldr sort_insert [] l.

(** [max(len(f[2]) for f in filelist)]: [ValueError] on an empty
    sequence, [TypeError] from [len(None)]. *)
Fixpoint max_from (acc : nat) (l : list fentry) : result nat :=
  match l with
  | [] => Ok acc
  | f :: l' =>
      match fsize f with
      | None => Raise TypeError
      | Some s => max_from (Nat.max acc (String.length s)) l'
      end
  end.

Definition max_sizelen (l : list fentry) : result nat :=
  match l with
  | [] => Raise ValueError
  | f :: l' =>
      match fsize f with
      | None => Raise TypeError
      | Some s => max_from (String.length s) l'
      end
  end.

(** [filename in (".", "..")] *)
Definition is_pseudo (filename : string) : bool :=
  String.eqb filename "." || String.eqb filename "..".

(** ["{:>{w}} {}".format(size, filename, w=max_sizelen)] *)
Definition format_row (w : nat) (size filename : string) : string :=
  Str.rjust w size +:+ " " +:+ filename.

(** The [for filename, isdir, size in filelist] loop; the lines it
    prints, in order. *)
Fixpoint print_rows (w : nat) (l : list fentry) : result (list string) :=
  match l with
  | [] => Ok []
  | f :: l' =>
      if is_pseudo (fname f) then print_rows w l'
      else
        match fsize f with
        | None => Raise TypeError
        | Some size =>
            match print_rows w l' with
            | Ok rows => Ok (format_row w size (fname f) :: rows)
            | Raise e => Raise e
            end
        end
  end.

(** [print_filelist(filelist)]: the printed lines, or the exception.
    Nothing is printed before [max] has gone through the whole list. *)
Definition print_filelist (filelist : list fentry) : result (list string) :=
  let filelist := sort_filelist filelist in
  match max_sizelen filelist with
  | Raise e => Raise e
  | Ok w => print_rows w filelist
  end.

(** What [listPath] yields for one entry: the fields of [SharedFile]
    that the program reads. *)
Record SharedFile : Type := {
  filename : string;
  isDirectory : bool;
  file_size : Z;
}.

(** The [for sf in resp] loop of [do_ls]. *)
Fixpoint build_filelist (resp : list SharedFile) : result (list fentry) :=
  match resp with
  | [] => Ok []
  | sf :: resp' =>
      let item :=
        if isDirectory sf
        then Ok {| fname := filename sf; fisdir := true; fsize := Some "-" |}
        else match format_size (file_size sf) with
             | Ok s => Ok {| fname := filename sf; fisdir := false; fsize := s |}
             | Raise e => Raise e
             end in
      match item with
      | Raise e => Raise e
      | Ok f =>
          match build_filelist resp' with
          | Ok l => Ok (f :: l)
          | Raise e => Raise e
          end
      end
  end.

(** The order of the listing *)


(** The order the specification asks for, in its words: directories
    before files and, within each group, ascending by name, the case of
    the letters being ignored. *)

(** [chr(n)], to write a character that is not ASCII. *)
Definition chr (n : nat) : string := String (ascii_of_nat n) EmptyString.






(** The entries that are printed, in the order of printing. *)
Definition shown (filelist : list fentry) : list fentry :=
  List.filter (fun f => negb (is_pseudo (fname f))) (sort_filelist filelist).

Definition row_of (w : nat) (f : fentry) : string :=
  format_row w (default EmptyString (fsize f)) (fname f).

(** ** [ntpath]

    [splitdrive], [join], [normpath] and [basename] as in CPython 3.11
    ([Lib/ntpath.py], the pure Python [normpath]), on [str]. *)

Module ntpath.
Import Str.

Definition unc_prefix : string := "\\?\UNC\".

Definition splitdrive (p : string) : string * string :=
  if (2 <=? String.length p)%nat then
    let normp := replace_altsep p in
    if String.eqb (take 2 normp) "\\" then
      let start :=
        if String.eqb (upper (take 8 normp)) unc_prefix then 8%nat else 2%nat in
      match find_sep normp start with
      | None => (p, EmptyString)
      | Some index =>
          match find_sep normp (index + 1) with
          | None => (p, EmptyString)
          | Some index2 => (take index2 p, drop index2 p)
          end
      end
    else if String.eqb (take 1 (drop 1 normp)) ":" then (take 2 p, drop 2 p)
    else (EmptyString, p)
  else (EmptyString, p).

(** [s and s[0] in seps] *)
Definition starts_with_sep (s : string) : bool :=
  match s with
  | String c _ => is_sep c
  | EmptyString => false
  end.

(** [s and s[-1] not in seps] *)
Definition ends_without_sep (s : string) : bool :=
  match last_char s with
  | Some c => negb (is_sep c)
  | None => false
  end.

(** [s[-1:] != ":"] *)
Definition last_not_colon (s : string) : bool :=
  match last_char s with
  | Some c => negb (Ascii.eqb c colon)
  | None => true
  end.

(** [join(path, p)], the loop run for the single [p]. *)
Definition join (path p : string) : string :=
  let '(result_drive, result_path) := splitdrive path in
  let '(p_drive, p_path) := splitdrive p in
  let '(result_drive, result_path) :=
    if starts_with_sep p_path then
      ((if nonempty p_drive || negb (nonempty result_drive)
        then p_drive else result_drive),
       p_path)
    else if nonempty p_drive && negb (String.eqb p_drive result_drive)
            && negb (String.eqb (lower p_drive) (lower result_drive)) then
      (p_drive, p_path)
    else
      let result_drive :=
        if nonempty p_drive && negb (String.eqb p_drive result_drive)
        then p_drive else result_drive in
      let result_path :=
        if ends_without_sep result_path
        then result_path +:+ String sep EmptyString else result_path in
      (result_drive, result_path +:+ p_path) in
  if nonempty result_path && negb (starts_with_sep result_path)
     && nonempty result_drive && last_not_colon result_drive
  then result_drive +:+ String sep result_path
  else result_drive +:+ result_path.

(** The [while i < len(comps)] loop of [normpath].  The list [comps]
    and the index [i] are kept as [comps[:i]] reversed ([done]) and
    [comps[i:]] ([todo]); [root] is [prefix.endswith(sep)]. *)
Fixpoint normpath_loop (root : bool) (done todo : list string) : list string :=
  match todo with
  | [] => rev done
  | c :: todo' =>
      if negb (nonempty c) || String.eqb c "." then
        normpath_loop root done todo'              (* del comps[i] *)
      else if String.eqb c ".." then
        match done with
        | d :: done' =>
            if negb (String.eqb d "..")
            then normpath_loop root done' todo'    (* del comps[i-1:i+1]; i -= 1 *)
            else normpath_loop root (c :: done) todo'   (* i += 1 *)
        | [] =>
            if root then normpath_loop root [] todo'    (* del comps[i] *)
            else normpath_loop root [c] todo'           (* i += 1 *)
        end
      else normpath_loop root (c :: done) todo'         (* i += 1 *)
  end.

(** [path.startswith(sep)] *)
Definition startswith_sep (s : string) : bool :=
  match s with
  | String c _ => Ascii.eqb c sep
  | EmptyString => false
  end.

Definition normpath (path : string) : string :=
  let path := replace_altsep path in
  let '(prefix, path) := splitdrive path in
  let '(prefix, path) :=
    if startswith_sep path
    then (prefix +:+ String sep EmptyString, lstrip_sep path)
    else (prefix, path) in
  let comps :=
    normpath_loop (match last_char prefix with
                   | Some c => Ascii.eqb c sep
                   | None => false
                   end) [] (split_sep path) in
  let comps :=
    if negb (nonempty prefix) && match comps with [] => true | _ => false end
    then ["."] else comps in
  prefix +:+ join_sep comps.

Fixpoint has_sep (s : string) : bool :=
  match s with
  | EmptyString => false
  | String c s' => is_sep c || has_sep s'
  end.

(** [p[i:]] for the [i] that the [while] loop of [split] stops at:
    what follows the last separator. *)
Fixpoint after_last_sep (s : string) : string :=
  match s with
  | EmptyString => EmptyString
  | String c s' =>
      if has_sep s' then after_last_sep s'
      else if is_sep c then s' else s
  end.

(** [basename(p)], that is [split(p)[1]] *)
Definition basename (p : string) : string :=
  after_last_sep (snd (splitdrive p)).

End ntpath.

(** ** The outside world *)

(** An [SMBConnection] object: made, with an open transport connection,
    or closed. *)
Inductive conn_status : Type := Fresh | Live | Closed.

(** The calls the program makes into its libraries, as they happen. *)
Inductive event : Type :=
  | EvPrint (line : string)
  | EvInput (prompt : string)
  | EvGetpass
  | EvQueryName (name : option string) (timeout : Z)
  | EvNetBIOSClose
  | EvSMBConnection (c : nat) (username password : option string)
      (my_name : string) (remote_name : option string)
  | EvConnect (c : nat) (ip : option string) (port : option Z) (timeout : Z)
  | EvClose (c : nat)
  | EvListPath (c : nat) (service : option string) (path : string)
  | EvCreateDirectory (c : nat) (service : option string) (path : string)
  | EvDeleteFiles (c : nat) (service : option string) (path : string)
  | EvRename (c : nat) (service : option string) (old new : string)
  | EvRetrieveFile (c : nat) (service : option string) (path dest : string)
  | EvStoreFile (c : nat) (service : option string) (path src : string)
  | EvInfo (c : nat)
  | EvOpen (path mode : string)
  | EvCloseFile (path : string)
  | EvListdir (path : string)
  | EvChdir (path : string).

(** The [config] dictionary of [__main__]: its six keys are always
    present, each value may be [None]. *)
Module Config.
Record t : Type := {
  servername : option string;
  username : option string;
  password : option string;
  serverip : option string;
  serverport : option Z;
  service : option string;
}.
End Config.

(** The attributes of the [ClientCmd] object ([conn], [service],
    [cur_dir]; the last two do not exist before the first successful
    [_connect]) and the world around it: the lines the user will type,
    the [SMBConnection] objects made so far, the local files, the
    working directory of the process, and the calls made so far. *)
Record state : Type := {
  conn : option nat;
  service : option string;
  cur_dir : option string;
  typed : list string;
  conns : list conn_status;
  files : gmap string (list Byte.byte);
  cwd : string;
  trace : list event;
}.

Definition set_conn (c : option nat) (st : state) : state :=
  {| conn := c; service := service st; cur_dir := cur_dir st;
     typed := typed st; conns := conns st; files := files st;
     cwd := cwd st; trace := trace st |}.

Definition set_service (s : option string) (st : state) : state :=
  {| conn := conn st; service := s; cur_dir := cur_dir st;
     typed := typed st; conns := conns st; files := files st;
     cwd := cwd st; trace := trace st |}.

Definition set_cur_dir (d : option string) (st : state) : state :=
  {| conn := conn st; service := service st; cur_dir := d;
     typed := typed st; conns := conns st; files := files st;
     cwd := cwd st; trace := trace st |}.

Definition set_typed (l : list string) (st : state) : state :=
  {| conn := conn st; service := service st; cur_dir := cur_dir st;
     typed := l; conns := conns st; files := files st;
     cwd := cwd st; trace := trace st |}.

Definition set_conns (l : list conn_status) (st : state) : state :=
  {| conn := conn st; service := service st; cur_dir := cur_dir st;
     typed := typed st; conns := l; files := files st;
     cwd := cwd st; trace := trace st |}.

Definition set_files (m : gmap string (list Byte.byte)) (st : state) : state :=
  {| conn := conn st; service := service st; cur_dir := cur_dir st;
     typed := typed st; conns := conns st; files := m;
     cwd := cwd st; trace := trace st |}.

Definition set_cwd (d : string) (st : state) : state :=
  {| conn := conn st; service := service st; cur_dir := cur_dir st;
     typed := typed st; conns := conns st; files := files st;
     cwd := d; trace := trace st |}.

Definition add_event (ev : event) (st : state) : state :=
  {| conn := conn st; service := service st; cur_dir := cur_dir st;
     typed := typed st; conns := conns st; files := files st;
     cwd := cwd st; trace := trace st ++ [ev] |}.

(** ** A state and exception monad *)

Definition M (A : Type) : Type := state -> result A * state.

Definition ret {A : Type} (a : A) : M A := fun st => (Ok a, st).

Definition bind {A B : Type} (m : M A) (k : A -> M B) : M B :=
  fun st =>
    match m st with
    | (Ok a, st') => k a st'
    | (Raise e, st') => (Raise e, st')
    end.

Definition raise {A : Type} (e : exn) : M A := fun st => (Raise e, st).

Definition lift {A : Type} (r : result A) : M A := fun st => (r, st).

Definition gets {A : Type} (f : state -> A) : M A := fun st => (Ok (f st), st).

Definition modify (f : state -> state) : M unit := fun st => (Ok tt, f st).

Definition emit (ev : event) : M unit := modify (add_event ev).

Notation "x <- m ;; k" := (bind m (fun x => k))
  (at level 100, m at next level, right associativity).
Notation "m ;;; k" := (bind m (fun _ => k))
  (at level 100, right associativity).

(** [try: body except OperationFailure as e: handler(e)] *)
Definition try_except_OperationFailure {A : Type}
    (body : M A) (handler : string -> M A) : M A :=
  fun st =>
    match body st with
    | (Raise (OperationFailure message), st') => handler message st'
    | r => r
    end.

(** [print(...)]: one line. *)
Definition print (line : string) : M unit := emit (EvPrint line).

Fixpoint print_lines (lines : list string) : M unit :=
  match lines with
  | [] => ret tt
  | l :: ls => print l ;;; print_lines ls
  end.

(** [input(prompt)]: the next line typed, [EOFError] when there is
    none. *)
Definition input (prompt : string) : M string :=
  emit (EvInput prompt) ;;;
  l <- gets typed ;;
  match l with
  | [] => raise EOFError
  | line :: rest => modify (set_typed rest) ;;; ret line
  end.

(** [getpass.getpass()] *)
Definition getpass : M string :=
  emit EvGetpass ;;;
  l <- gets typed ;;
  match l with
  | [] => raise EOFError
  | line :: rest => modify (set_typed rest) ;;; ret line
  end.

(** [str(x)] for a value that may be [None] *)
Definition str_of (x : option string) : string :=
  match x with Some s => s | None => "None" end.

(** [self.conn.<method>(...)]: [AttributeError] when [self.conn] is
    [None], otherwise the call is made and the world answers. *)
Definition conn_call {A : Type} (ev : nat -> option string -> event)
    (answer : result A) : M A :=
  c <- gets conn ;;
  match c with
  | None => raise AttributeError
  | Some c =>
      s <- gets service ;;
      emit (ev c s) ;;; lift answer
  end.

(** [self.cur_dir] *)
Definition read_cur_dir : M string :=
  d <- gets cur_dir ;;
  match d with
  | None => raise AttributeError
  | Some d => ret d
  end.

(** ** [complete_config] *)

Definition DEFAULT_TIMEOUT : Z := 5.
Definition DEFAULT_PORT : Z := 139.
Definition DEFAULT_SERVICE : string := "microSD".
Definition DEFAULT_CLIENTNAME : string := "3DSCLIENT".

(** [query] is what [NetBIOS.queryName] answers when it is asked: a list
    of addresses, or [None] after a timeout. *)
Definition complete_config (query : option (list string)) (config : Config.t)
  : M Config.t :=
  servername <-
    match Config.servername config with
    | None => s <- input "3DS Name: " ;; ret (Some s)
    | Some s => ret (Some s)
    end ;;
  username <-
    match Config.username config with
    | None => s <- input "Username: " ;; ret (Some s)
    | Some s => ret (Some s)
    end ;;
  password <-
    match Config.password config with
    | None => s <- getpass ;; ret (Some s)
    | Some s => ret (Some s)
    end ;;
  serverip <-
    match Config.serverip config with
    | None =>
        emit (EvQueryName servername DEFAULT_TIMEOUT) ;;;
        emit EvNetBIOSClose ;;;
        match query with
        | Some [ip] => ret (Some ip)
        | None | Some [] | Some (_ :: _ :: _) =>
            print "[Error] Name resolution failed. Please enter the 3DS IP manually." ;;;
            s <- input "IP: " ;; ret (Some s)
        end
    | Some s => ret (Some s)
    end ;;
  let serverport :=
    match Config.serverport config with
    | None => Some DEFAULT_PORT
    | Some p => Some p
    end in
  let service :=
    match Config.service config with
    | None => Some DEFAULT_SERVICE
    | Some s => Some s
    end in
  ret {| Config.servername := servername; Config.username := username;
         Config.password := password; Config.serverip := serverip;
         Config.serverport := serverport; Config.service := service |}.

(** ** [ClientCmd] *)

(** What [SMBConnection.connect] does when called: it returns (whether
    or not the server accepted the credentials; the program does not
    look at the value), or it raises, with the socket open or not. *)
Inductive connect_answer : Type :=
  | Connected (authenticated : bool)
  | ConnectFailed (e : exn) (socket_open : bool).

(** [self.conn.close()] *)
Definition close_conn (c : nat) : M unit :=
  emit (EvClose c) ;;;
  modify (fun st => set_conns (<[c := Closed]> (conns st)) st).

(** [SMBConnection(...)]: a new object. *)
Definition new_SMBConnection (username password : option string)
    (my_name : string) (remote_name : option string) : M nat :=
  l <- gets conns ;;
  let c := List.length l in
  modify (set_conns (l ++ [Fresh])) ;;;
  emit (EvSMBConnection c username password my_name remote_name) ;;;
  ret c.

(** [self.conn.connect(ip, port, timeout=DEFAULT_TIMEOUT)] *)
Definition connect (answer : connect_answer) (ip : option string)
    (port : option Z) : M unit :=
  c <- gets conn ;;
  match c with
  | None => raise AttributeError
  | Some c =>
      emit (EvConnect c ip port DEFAULT_TIMEOUT) ;;;
      match answer with
      | Connected _ =>
          modify (fun st => set_conns (<[c := Live]> (conns st)) st)
      | ConnectFailed e socket_open =>
          (if socket_open
           then modify (fun st => set_conns (<[c := Live]> (conns st)) st)
           else ret tt) ;;;
          raise e
      end
  end.

Definition _connect (query : option (list string)) (answer : connect_answer)
    (config : Config.t) : M unit :=
  old <- gets conn ;;
  match old with
  | Some c => close_conn c
  | None => ret tt
  end ;;;
  config <- complete_config query config ;;
  c <- new_SMBConnection (Config.username config) (Config.password config)
         DEFAULT_CLIENTNAME (Config.servername config) ;;
  modify (set_conn (Some c)) ;;;
  connect answer (Config.serverip config) (Config.serverport config) ;;;
  modify (set_service (Config.service config)) ;;;
  modify (set_cur_dir (Some "\")) ;;;
  print ("Connected to " +:+ str_of (Config.serverip config)).

(** [ClientCmd.__init__]: [self.conn = None], then [_connect]. *)
Definition __init__ (query : option (list string)) (answer : connect_answer)
    (config : Config.t) : M unit :=
  modify (set_conn None) ;;;
  _connect query answer config.

(** The object does not exist before [__init__]; the world does. *)
Definition initial_state (typed : list string)
    (files : gmap string (list Byte.byte)) (cwd : string) : state :=
  {| conn := None; service := None; cur_dir := None; typed := typed;
     conns := []; files := files; cwd := cwd; trace := [] |}.

Definition _path_for (path : string) : M string :=
  d <- read_cur_dir ;;
  ret (ntpath.normpath (ntpath.join d path)).

(** [e.status.name] for the [OperationFailure] that was caught.  The
    class [smb.smb_structs.OperationFailure] sets the attributes
    [message] and [smb_messages] and nothing else: reading [e.status]
    raises [AttributeError]. *)
Definition status_name (message : string) : M string :=
  raise AttributeError.

(** [answer] is what [listPath] does when called.  The arguments of
    [print] are evaluated before it is called. *)
Definition _change_dir (answer : result (list SharedFile)) (path : string)
  : M unit :=
  try_except_OperationFailure
    (conn_call (fun c s => EvListPath c s path) answer ;;;
     modify (set_cur_dir (Some path)))
    (fun e =>
       name <- status_name e ;;
       print ("[Error] Failed to change directory: " +:+ name)).

(** The parts of [os] and [os.path] the program calls; they belong to
    the platform it runs on. *)
Record localhost : Type := {
  os_path_join : string -> string -> string;
  os_path_expanduser : string -> string;
  os_path_basename : string -> string;
}.

(** What [retrieveFile] does when called: the bytes it writes to the
    file object, then how it ends. *)
Record retrieve_answer : Type := {
  written : list Byte.byte;
  outcome : result unit;
}.

(** The six values [do_info] prints, as [print] shows them. *)
Record conn_info : Type := {
  capabilities : string;
  security_mode : string;
  max_raw_size : string;
  max_buffer_size : string;
  max_mpx_count : string;
  use_plaintext_authentication : string;
}.

(** [for arg in args: body], with the position of [arg] to pick the
    answer of the world to the call made for it. *)
Fixpoint for_each (body : nat -> string -> M unit) (i : nat)
    (args : list string) : M unit :=
  match args with
  | [] => ret tt
  | arg :: args' => body i arg ;;; for_each body (S i) args'
  end.

(** [with open(path, mode) as localfile: body]: the file is closed on
    every way out of [body]; [open(dest, "wb")] creates the file or
    empties it. *)
Definition with_open (answer : result unit) (path mode : string)
    {A : Type} (body : M A) : M A :=
  emit (EvOpen path mode) ;;;
  lift answer ;;;
  (if String.eqb mode "wb"
   then modify (fun st => set_files (<[path := []]> (files st)) st)
   else ret tt) ;;;
  fun st =>
    let '(r, st') := body st in (r, add_event (EvCloseFile path) st').

(** [self.conn.retrieveFile(self.service, src, localfile)], the file
    object being the one opened on [dest]. *)
Definition retrieveFile (answer : retrieve_answer) (src dest : string) : M unit :=
  c <- gets conn ;;
  match c with
  | None => raise AttributeError
  | Some c =>
      s <- gets service ;;
      emit (EvRetrieveFile c s src dest) ;;;
      modify (fun st =>
        set_files (alter (fun old => old ++ written answer) dest (files st)) st) ;;;
      lift (outcome answer)
  end.

Section Handlers.

Variable host : localhost.

Definition _lpath_for (path : string) : M string :=
  d <- gets cwd ;;
  ret (os_path_join host d (os_path_expanduser host path)).

(** The handlers take [args], the value of [shlex.split(arg_str)]
    (a [ValueError] of [shlex.split] ends the handler before it does
    anything), and return whether the command loop stops. *)

Definition do_ls (answer : result (list SharedFile)) (args : list string)
  : M bool :=
  match args with
  | _ :: _ :: _ => print "Too many arguments" ;;; ret false
  | _ =>
      path <- match args with
              | [] => read_cur_dir
              | a :: _ => _path_for a
              end ;;
      resp <- conn_call (fun c s => EvListPath c s path) answer ;;
      filelist <- lift (build_filelist resp) ;;
      rows <- lift (print_filelist filelist) ;;
      print_lines rows ;;; ret false
  end.

(** [answer]: the names [os.listdir] gives, with what [os.path.isdir]
    and [os.path.getsize] say of each. *)
Definition do_lls (answer : result (list SharedFile)) (args : list string)
  : M bool :=
  match args with
  | _ :: _ :: _ => print "Too many arguments" ;;; ret false
  | _ =>
      path <- match args with
              | [] => gets cwd
              | a :: _ => _lpath_for a
              end ;;
      emit (EvListdir path) ;;;
      resp <- lift answer ;;
      filelist <- lift (build_filelist resp) ;;
      rows <- lift (print_filelist filelist) ;;
      print_lines rows ;;; ret false
  end.

Definition do_mkdir (answers : nat -> result unit) (args : list string)
  : M bool :=
  match args with
  | [] => print "Error: Directory name is missing" ;;; ret false
  | _ =>
      for_each (fun i arg =>
        path <- _path_for arg ;;
        conn_call (fun c s => EvCreateDirectory c s path) (answers i)) O args ;;;
      ret false
  end.

Definition do_cd (answer : result (list SharedFile)) (args : list string)
  : M bool :=
  match args with
  | [] => _change_dir answer "\" ;;; ret false
  | [a] => path <- _path_for a ;; _change_dir answer path ;;; ret false
  | _ => print "[Error] Too many arguments" ;;; ret false
  end.

(** [answer]: [os.chdir] fails, or the working directory becomes
    what the platform then reports. *)
Definition do_lcd (answer : result string) (args : list string) : M bool :=
  match args with
  | _ :: _ :: _ => print "[Error] Too many arguments" ;;; ret false
  | _ =>
      path <- match args with
              | [] => _lpath_for "~"
              | a :: _ => _lpath_for a
              end ;;
      emit (EvChdir path) ;;;
      d <- lift answer ;;
      modify (set_cwd d) ;;; ret false
  end.

(** [with open(dest, "wb") as localfile:
       self.conn.retrieveFile(self.service, src, localfile)] *)
Definition download (open_answer : result unit) (answer : retrieve_answer)
    (src dest : string) : M unit :=
  with_open open_answer dest "wb" (retrieveFile answer src dest).

Definition do_get (open_answer : result unit) (answer : retrieve_answer)
    (args : list string) : M bool :=
  match args with
  | [] => print "[Error] File name is missing" ;;; ret false
  | [a] =>
      src <- _path_for a ;;
      dest <- _lpath_for (ntpath.basename src) ;;
      download open_answer answer src dest ;;; ret false
  | [a; b] =>
      src <- _path_for a ;;
      dest <- _lpath_for b ;;
      download open_answer answer src dest ;;; ret false
  | _ => print "[Error] Too many arguments" ;;; ret false
  end.

Definition do_mget (answers : nat -> result unit * retrieve_answer)
    (args : list string) : M bool :=
  match args with
  | [] => print "[Error] File name is missing" ;;; ret false
  | _ =>
      for_each (fun i arg =>
        let filename := ntpath.basename arg in
        print ("Downloading " +:+ filename) ;;;
        src <- _path_for arg ;;
        dest <- _lpath_for filename ;;
        download (fst (answers i)) (snd (answers i)) src dest) O args ;;;
      ret false
  end.

(** [with open(src, "rb") as localfile:
       self.conn.storeFile(self.service, dest, localfile)] *)
Definition upload (open_answer store_answer : result unit)
    (src dest : string) : M unit :=
  with_open open_answer src "rb"
    (conn_call (fun c s => EvStoreFile c s dest src) store_answer).

Definition do_put (open_answer store_answer : result unit)
    (args : list string) : M bool :=
  match args with
  | [] => print "[Error] File name is missing" ;;; ret false
  | [a] =>
      src <- _lpath_for a ;;
      dest <- _path_for (os_path_basename host src) ;;
      upload open_answer store_answer src dest ;;; ret false
  | [a; b] =>
      src <- _lpath_for a ;;
      dest <- _path_for b ;;
      upload open_answer store_answer src dest ;;; ret false
  | _ => print "[Error] Too many arguments" ;;; ret false
  end.

Definition do_mput (answers : nat -> result unit * result unit)
    (args : list string) : M bool :=
  match args with
  | [] => print "[Error] File name is missing" ;;; ret false
  | _ =>
      for_each (fun i arg =>
        let filename := os_path_basename host arg in
        print ("Uploading " +:+ filename) ;;;
        src <- _lpath_for arg ;;
        dest <- _path_for filename ;;
        upload (fst (answers i)) (snd (answers i)) src dest) O args ;;;
      ret false
  end.

Definition do_rm (answers : nat -> result unit) (args : list string)
  : M bool :=
  match args with
  | [] => print "[Error] File name is missing" ;;; ret false
  | _ =>
      for_each (fun i arg =>
        path <- _path_for arg ;;
        conn_call (fun c s => EvDeleteFiles c s path) (answers i)) O args ;;;
      ret false
  end.

(** [do_rmdir(self, arg)] reads [arg_str], a name that does not
    exist in it. *)
Definition do_rmdir : M bool := raise NameError.

Definition do_mv (answers : nat -> result unit) (args : list string)
  : M bool :=
  match args with
  | [] => print "[Error] File name is missing" ;;; ret false
  | [_] => print "[Error] New name is missing" ;;; ret false
  | [a; b] =>
      src <- _path_for a ;;
      dest <- _path_for b ;;
      conn_call (fun c s => EvRename c s src dest) (answers O) ;;;
      ret false
  | _ =>
      dest_dir <- _path_for (List.last args EmptyString) ;;
      for_each (fun i arg =>
        let filename := ntpath.basename arg in
        print ("Moving " +:+ filename) ;;;
        src <- _path_for arg ;;
        let dest := ntpath.join dest_dir filename in
        conn_call (fun c s => EvRename c s src dest) (answers i))
        O (List.removelast args) ;;;
      ret false
  end.

Definition do_pwd : M bool :=
  d <- read_cur_dir ;;
  print ("Remote: " +:+ d) ;;;
  l <- gets cwd ;;
  print ("Local: " +:+ l) ;;;
  ret false.

Definition do_info (info : conn_info) : M bool :=
  conn_call (fun c _ => EvInfo c) (Ok tt) ;;;
  print ("Capabilities: " +:+ capabilities info) ;;;
  print ("Security mode: " +:+ security_mode info) ;;;
  print ("Max raw size: " +:+ max_raw_size info) ;;;
  print ("Max buffer size: " +:+ max_buffer_size info) ;;;
  print ("Max mpx count: " +:+ max_mpx_count info) ;;;
  print ("Use plaintext auth: " +:+ use_plaintext_authentication info) ;;;
  ret false.

Definition do_quit : M bool := ret true.

(** [do_help] writes the text [cmd.Cmd] finds for the command. *)
Definition do_help (text : list string) : M bool :=
  print_lines text ;;; ret false.

(** One line of the command loop: the handler chosen by the first
    word, the arguments, and what the world answers to the calls the
    handler makes.  [dir], [ldir], [del], [delete], [rename], [q],
    [exit] and [EOF] are the same handlers under other names. *)
Inductive command : Type :=
  | Ls (answer : result (list SharedFile)) (args : list string)
  | Lls (answer : result (list SharedFile)) (args : list string)
  | Mkdir (answers : nat -> result unit) (args : list string)
  | Cd (answer : result (list SharedFile)) (args : list string)
  | Lcd (answer : result string) (args : list string)
  | Get (open_answer : result unit) (answer : retrieve_answer)
      (args : list string)
  | Mget (answers : nat -> result unit * retrieve_answer)
      (args : list string)
  | Put (open_answer store_answer : result unit) (args : list string)
  | Mput (answers : nat -> result unit * result unit) (args : list string)
  | Rm (answers : nat -> result unit) (args : list string)
  | Rmdir
  | Mv (answers : nat -> result unit) (args : list string)
  | Pwd
  | Info (info : conn_info)
  | Quit
  | Help (text : list string).

Definition onecmd (cmd : command) : M bool :=
  match cmd with
  | Ls answer args => do_ls answer args
  | Lls answer args => do_lls answer args
  | Mkdir answers args => do_mkdir answers args
  | Cd answer args => do_cd answer args
  | Lcd answer args => do_lcd answer args
  | Get open_answer answer args => do_get open_answer answer args
  | Mget answers args => do_mget answers args
  | Put open_answer store_answer args => do_put open_answer store_answer args
  | Mput answers args => do_mput answers args
  | Rm answers args => do_rm answers args
  | Rmdir => do_rmdir
  | Mv answers args => do_mv answers args
  | Pwd => do_pwd
  | Info info => do_info info
  | Quit => do_quit
  | Help text => do_help text
  end.

(** The states of a running shell whose commands all pass [allowed]:
    the state [__init__] leaves when it does not raise, and those the
    handlers leave when they return (an exception out of a handler
    ends the program). *)
Inductive reachable_by (allowed : command -> Prop) : state -> Prop :=
  | reach_init typed files cwd query answer config st :
      __init__ query answer config (initial_state typed files cwd)
        = (Ok tt, st) ->
      reachable_by allowed st
  | reach_cmd st cmd stop st' :
      reachable_by allowed st ->
      allowed cmd ->
      onecmd cmd st = (Ok stop, st') ->
      reachable_by allowed st'.

Definition reachable : state -> Prop := reachable_by (fun _ => True).

End Handlers.

(** A POSIX platform, with the home directory of the user: the
    [posixpath] versions of [join], [expanduser] and [basename]. *)
Module posix.

Definition starts_with_slash (s : string) : bool :=
  match s with
  | String c _ => Ascii.eqb c "/"
  | EmptyString => false
  end.

Definition ends_with_slash (s : string) : bool :=
  match Str.last_char s with
  | Some c => Ascii.eqb c "/"
  | None => false
  end.

Definition join (a b : string) : string :=
  if starts_with_slash b then b
  else if negb (Str.nonempty a) || ends_with_slash a then a +:+ b
  else a +:+ "/" +:+ b.

Fixpoint has_slash (s : string) : bool :=
  match s with
  | EmptyString => false
  | String c s' => Ascii.eqb c "/" || has_slash s'
  end.

Fixpoint basename (s : string) : string :=
  match s with
  | EmptyString => EmptyString
  | String c s' =>
      if has_slash s' then basename s'
      else if Ascii.eqb c "/" then s' else s
  end.

(** [s.rstrip("/")] *)
Fixpoint rstrip_slash (s : string) : string :=
  match s with
  | EmptyString => EmptyString
  | String c s' =>
      match rstrip_slash s' with
      | EmptyString =>
          if Ascii.eqb c "/" then EmptyString else String c EmptyString
      | t => String c t
      end
  end.

(** [(s[:i], s[i:])] for [i] the place of the first ["/"] of [s], its
    length when it has none. *)
Fixpoint split_at_slash (s : string) : string * string :=
  match s with
  | EmptyString => (EmptyString, EmptyString)
  | String c s' =>
      if Ascii.eqb c "/" then (EmptyString, s)
      else let '(a, b) := split_at_slash s' in (String c a, b)
  end.

(** [expanduser(path)], [HOME] being set to [home]; [pwnam name] is the
    home directory [pwd.getpwnam(name)] knows, if it knows [name]. *)
Definition expanduser (home : string) (pwnam : string -> option string)
    (path : string) : string :=
  match path with
  | String "~" after =>
      let '(name, rest) := split_at_slash after in
      match (if Str.nonempty name then pwnam name else Some home) with
      | None => path
      | Some userhome =>
          let r := rstrip_slash userhome +:+ rest in
          if Str.nonempty r then r else "/"
      end
  | _ => path
  end.

Definition host_with_users (home : string) (pwnam : string -> option string)
  : localhost :=
  {| os_path_join := join;
     os_path_expanduser := expanduser home pwnam;
     os_path_basename := basename |}.

(** The platform when no account is looked up: [pwd] knows no name. *)
Definition host (home : string) : localhost :=
  host_with_users home (fun _ => None).

End posix.

(** ** Shapes of remote paths *)

(** Every character of [s] passes [p]. *)
Fixpoint all_chars (p : ascii -> bool) (s : string) : bool :=
  match s with
  | EmptyString => true
  | String c s' => p c && all_chars p s'
  end.

Definition not_sep (c : ascii) : bool := negb (Ascii.eqb c Str.sep).
Definition not_altsep (c : ascii) : bool := negb (Ascii.eqb c Str.altsep).
Definition not_colon (c : ascii) : bool := negb (Ascii.eqb c Str.colon).

(** A component that normalisation keeps: not empty, not ["."], not
    [".."]. *)
Definition plain_comp (c : string) : bool :=
  Str.nonempty c && negb (String.eqb c ".") && negb (String.eqb c "..").

(** A normalized absolute remote path: a backslash, then components
    separated by single backslashes, none of them empty, ["."] or
    [".."], no forward slash, no trailing separator (the root ["\"]
    alone has no component).  The first component does not begin with a
    colon, which [ntpath] would read as the end of a drive. *)
Definition normalized_absolute (p : string) : bool :=
  match p with
  | String c rest =>
      Ascii.eqb c Str.sep
      && all_chars not_altsep rest
      && match rest with
         | EmptyString => true
         | String c' _ =>
             not_colon c' && forallb plain_comp (Str.split_sep rest)
         end
  | EmptyString => false
  end.

(** The path has no drive or UNC prefix for [ntpath]. *)
Definition driveless (p : string) : Prop :=
  fst (ntpath.splitdrive p) = EmptyString.

(** A path that begins with exactly one separator (of either kind),
    not followed by a colon. *)
Definition single_root (p : string) : bool :=
  match p with
  | String a rest =>
      Str.is_sep a
      && match rest with
         | String b _ => negb (Str.is_sep b) && not_colon b
         | EmptyString => true
         end
  | EmptyString => false
  end.

(** Such a path, without any colon. *)
Definition rooted (p : string) : bool :=
  single_root p && all_chars not_colon p.

(** An argument of [cd] without a colon that does not begin with two
    separators: [ntpath] sees no drive in it. *)
Definition plain_arg (a : string) : bool :=
  all_chars not_colon a
  && match a with
     | String x (String y _) => negb (Str.is_sep x && Str.is_sep y)
     | _ => true
     end.

(** A cursor as the specification wants it: a normalized absolute remote
    path, without a colon. *)
Definition cursor_ok (p : string) : bool :=
  normalized_absolute p && all_chars not_colon p.

(** A shell of which only the attributes matter: connection [c],
    share [s], cursor [d]; nothing typed, no file, no call made yet. *)
Definition shell_at (c : option nat) (s d : option string) : state :=
  {| conn := c; service := s; cur_dir := d; typed := [];
     conns := match c with Some n => replicate n Closed ++ [Live] | None => [] end;
     files := ∅; cwd := "/"; trace := [] |}.

(** ** Vocabulary of the properties of the shell *)

(** [m] relates the state it starts in to the state it ends in by [I],
    however it ends. *)
Definition keeps (I : state -> state -> Prop) {A : Type} (m : M A) : Prop :=
  forall st r st', m st = (r, st') -> I st st'.

(** The cursor is the same. *)
Definition same_cursor (st st' : state) : Prop := cur_dir st' = cur_dir st.

(** Calls that talk to the user or to the name service. *)
Definition user_event (ev : event) : bool :=
  match ev with
  | EvPrint _ | EvInput _ | EvGetpass | EvQueryName _ _ | EvNetBIOSClose => true
  | _ => false
  end.

(** Only such calls were made, some of the lines typed were read, and
    the attributes of the shell, the connections and the files are the
    same. *)
Definition user_only (st st' : state) : Prop :=
  conn st' = conn st /\ service st' = service st /\ cur_dir st' = cur_dir st
  /\ conns st' = conns st /\ files st' = files st /\ cwd st' = cwd st
  /\ (exists pre, typed st = pre ++ typed st')
  /\ exists evs, trace st' = trace st ++ evs
                 /\ Forall (fun ev => user_event ev = true) evs.

Definition is_close (ev : event) : bool :=
  match ev with EvClose _ => true | _ => false end.

Definition is_connect (ev : event) : bool :=
  match ev with EvConnect _ _ _ _ => true | _ => false end.

Definition is_retrieve (ev : event) : bool :=
  match ev with EvRetrieveFile _ _ _ _ => true | _ => false end.

(** At most one session is live and none is leaked: a connection with
    an open transport is the one the shell holds; and the shell holds a
    connection that exists. *)
Definition session_inv (st : state) : Prop :=
  (forall i : nat, conns st !! i = Some Live -> conn st = Some i)
  /\ (forall c : nat, conn st = Some c -> (c < List.length (conns st))%nat).

(** The name service gave no address, or more than one. *)
Definition unresolved (query : option (list string)) : Prop :=
  match query with
  | Some [_] => False
  | _ => True
  end.

(** The arguments of every [cd] are plain. *)
Definition plain_cd (cmd : command) : Prop :=
  match cmd with
  | Cd _ args => Forall (fun a => plain_arg a = true) args
  | _ => True
  end.

(** A [cd] whose validating [listPath] succeeded. *)
Definition successful_cd (cmd : command) : Prop :=
  match cmd with
  | Cd (Ok _) _ => True
  | _ => False
  end.

(** [m] can only raise [EOFError], and then every typed line has been
    read. *)
Definition eof_only {A : Type} (m : M A) : Prop :=
  forall st e st', m st = (Raise e, st') -> e = EOFError /\ typed st' = [].

Definition resolution_failed : string :=
  "[Error] Name resolution failed. Please enter the 3DS IP manually.".

(** A configuration as [__main__] builds it from
    [3dssmb.py MY3DS user secret]: no address, port or share given. *)
Definition config_by_name : Config.t :=
  {| Config.servername := Some "MY3DS"; Config.username := Some "user";
     Config.password := Some "secret"; Config.serverip := None;
     Config.serverport := None; Config.service := None |}.

(** And with [--ip 192.168.1.5]. *)
Definition config_by_ip : Config.t :=
  {| Config.servername := Some "MY3DS"; Config.username := Some "user";
     Config.password := Some "secret"; Config.serverip := Some "192.168.1.5";
     Config.serverport := None; Config.service := None |}.

(** The shell holds the same connection and no connection has changed. *)
Definition same_session (st st' : state) : Prop :=
  conn st' = conn st /\ conns st' = conns st.

(** The shell after [3dssmb.py MY3DS user secret --ip 192.168.1.5] has
    connected. *)
Definition started : state :=
  snd (__init__ None (Connected true) config_by_ip (initial_state [] ∅ "/")).

(** And after [cd C:foo] there, the server accepting the path. *)
Definition after_cd_drive : state :=
  snd (onecmd (posix.host "/home/user") (Cd (Ok []) ["C:foo"]) started).

(** A download that stops after three bytes. *)
Definition three_bytes_then_timeout : retrieve_answer :=
  {| written := [Byte.x01; Byte.x02; Byte.x03];
     outcome := Raise (LibraryError "SMBTimeout") |}.

(** The destination of [get] for its arguments, the remote path being
    [src]. *)
Definition get_dest (host : localhost) (cwd src : string)
    (args : list string) : string :=
  match args with
  | [_; b] => os_path_join host cwd (os_path_expanduser host b)
  | _ => os_path_join host cwd (os_path_expanduser host (ntpath.basename src))
  end.

(** ** Vocabulary of the further properties *)

(** [row] shows the entry [f] in a size column of width [w]: blanks,
    then the size, which ends the column, one blank, the name. *)
Definition aligned_row (w : nat) (row : string) (f : fentry) : Prop :=
  exists size pad : string,
    fsize f = Some size
    /\ row = pad +:+ size +:+ " " +:+ fname f
    /\ all_chars (Ascii.eqb " ") pad = true
    /\ (String.length pad + String.length size = w)%nat.

(** Questions put to the user. *)
Definition prompt_event (ev : event) : bool :=
  match ev with
  | EvInput _ | EvGetpass => true
  | _ => false
  end.

(** Only calls that pass [P] were made, some of the lines typed were
    read, and nothing else has changed. *)
Definition events_only (P : event -> bool) (st st' : state) : Prop :=
  conn st' = conn st /\ service st' = service st /\ cur_dir st' = cur_dir st
  /\ conns st' = conns st /\ files st' = files st /\ cwd st' = cwd st
  /\ (exists pre, typed st = pre ++ typed st')
  /\ exists evs, trace st' = trace st ++ evs
                 /\ Forall (fun ev => P ev = true) evs.

(** Every key of the configuration has a value. *)
Definition complete (config : Config.t) : Prop :=
  is_Some (Config.servername config) /\ is_Some (Config.username config)
  /\ is_Some (Config.password config) /\ is_Some (Config.serverip config)
  /\ is_Some (Config.serverport config) /\ is_Some (Config.service config).

(** A value that was given is still there. *)
Definition kept {A : Type} (given result : option A) : Prop :=
  forall x, given = Some x -> result = Some x.

(** The line read for a value that was not given. *)
Definition asked (given result : option string) : list string :=
  match given, result with
  | None, Some s => [s]
  | _, _ => []
  end.

(** The line read for the address: none when the address was given or
    the name service gave exactly one. *)
Definition asked_ip (query : option (list string))
    (given result : option string) : list string :=
  match given, query with
  | Some _, _ => []
  | None, Some [_] => []
  | None, _ => asked given result
  end.

(** A name of one directory or file: a plain component without
    separator, of either kind, and without colon. *)
Definition plain_name (c : string) : bool :=
  plain_comp c && all_chars not_sep c && all_chars not_altsep c
  && all_chars not_colon c.

(** The components of a normalized absolute path: none for the root. *)
Definition components (d : string) : list string :=
  match d with
  | String _ (String _ _ as rest) => Str.split_sep rest
  | _ => []
  end.

(** The path of [c] in the directory [d]: one backslash between them. *)
Definition child (d c : string) : string :=
  (if ntpath.ends_without_sep d then d +:+ String Str.sep EmptyString else d)
  +:+ c.

(** The same shell after the calls [evs] were made. *)
Definition add_events (evs : list event) (st : state) : state :=
  {| conn := conn st; service := service st; cur_dir := cur_dir st;
     typed := typed st; conns := conns st; files := files st;
     cwd := cwd st; trace := trace st ++ evs |}.

(** The shell holds connection [c] on share [s], the cursor being [d]. *)
Definition connected_at (c : nat) (s : option string) (d : string)
    (st : state) : Prop :=
  conn st = Some c /\ service st = s /\ cur_dir st = Some d.

(** What a command may change besides the trace: the local files ([fs]),
    the local working directory ([cw]), the cursor ([cd]).  The
    connection, the connections made, the share and the lines still to be
    read are the same, and the calls made so far stay. *)
Definition footprint (fs cw cd : bool) (st st' : state) : Prop :=
  conn st' = conn st /\ conns st' = conns st /\ service st' = service st
  /\ typed st' = typed st
  /\ (fs = false -> files st' = files st)
  /\ (cw = false -> cwd st' = cwd st)
  /\ (cd = false -> cur_dir st' = cur_dir st)
  /\ exists evs, trace st' = trace st ++ evs.

Definition is_download (cmd : command) : bool :=
  match cmd with Get _ _ _ | Mget _ _ => true | _ => false end.

Definition is_lcd (cmd : command) : bool :=
  match cmd with Lcd _ _ => true | _ => false end.

Definition is_cd (cmd : command) : bool :=
  match cmd with Cd _ _ => true | _ => false end.

(** * Properties *)

(** ** Rounding and [float(n)] *)

Lemma round_half_even_lower (a b : Z) :
  0 <= a -> 0 < b -> a / b <= round_half_even a b.
Proof.
  intros Ha Hb. unfold round_half_even.
  repeat match goal with |- context [if ?c then _ else _] => destruct c end; lia.
Qed.

Lemma round_half_even_1 (a : Z) : round_half_even a 1 = a.
Proof.
  unfold round_half_even. rewrite Z.mod_1_r, Z.div_1_r. reflexivity.
Qed.

Lemma float_of_int_exact (n : Z) :
  Z.abs n < 2 ^ 53 -> float_of_int n = Some n.
Proof.
  intros Hn. unfold float_of_int.
  assert (He : Z.max 0 (Z.log2 (Z.abs n) - 52) = 0).
  { destruct (Z.eq_dec n 0) as [->|Hne]; [reflexivity|].
    assert (Z.log2 (Z.abs n) < 53) by (apply Z.log2_lt_pow2; lia). lia. }
  rewrite He. change (2 ^ 0) with 1. rewrite round_half_even_1, Z.mul_1_r.
  assert (Hlt : Z.abs n < 2 ^ 1024).
  { eapply Z.lt_trans; [exact Hn|]. apply Z.pow_lt_mono_r; lia. }
  apply Z.ltb_lt in Hlt. rewrite Hlt. f_equal.
  rewrite Z.mul_comm. apply Z.abs_sgn.
Qed.

(** [float(n)] is not below the power of two under [n]. *)
Lemma float_of_int_lower (n m : Z) (p : Z) :
  0 <= p -> 2 ^ p <= n -> float_of_int n = Some m -> 2 ^ p <= m.
Proof.
  intros Hp Hn. unfold float_of_int.
  assert (H2p : 0 < 2 ^ p) by (apply Z.pow_pos_nonneg; lia).
  assert (Hpos : 0 < n) by lia.
  rewrite (Z.abs_eq n) by lia. rewrite (Z.sgn_pos n) by lia.
  set (L := Z.log2 n). set (e := Z.max 0 (L - 52)).
  assert (HL : 0 <= L) by apply Z.log2_nonneg.
  assert (HeL : 0 <= e <= L) by lia.
  assert (HpL : p <= L) by (apply Z.log2_le_pow2; lia).
  destruct (Z.log2_spec n Hpos) as [Hlo _]. fold L in Hlo.
  assert (H2e : 0 < 2 ^ e) by (apply Z.pow_pos_nonneg; lia).
  destruct (_ <? _); [|discriminate]. intros [= <-].
  assert (Hq : 2 ^ (L - e) <= n / 2 ^ e).
  { apply Z.div_le_lower_bound; [lia|].
    rewrite <- Z.pow_add_r by lia. replace (e + (L - e)) with L by lia. exact Hlo. }
  pose proof (round_half_even_lower n (2 ^ e) ltac:(lia) H2e) as Hr.
  assert (H2L : 2 ^ L <= round_half_even n (2 ^ e) * 2 ^ e).
  { replace L with ((L - e) + e) at 1 by lia. rewrite Z.pow_add_r by lia.
    apply Z.mul_le_mono_nonneg_r; lia. }
  assert (2 ^ p <= 2 ^ L) by (apply Z.pow_le_mono_r; lia).
  lia.
Qed.

Lemma float_of_int_nonneg (n m : Z) :
  0 <= n -> float_of_int n = Some m -> 0 <= m.
Proof.
  intros Hn. unfold float_of_int.
  destruct (_ <? _); [|discriminate]. intros [= <-].
  assert (0 <= round_half_even (Z.abs n) (2 ^ Z.max 0 (Z.log2 (Z.abs n) - 52))).
  { etransitivity; [|apply round_half_even_lower].
    - apply Z.div_pos; [lia|]. apply Z.pow_pos_nonneg; lia.
    - lia.
    - apply Z.pow_pos_nonneg; lia. }
  assert (0 <= 2 ^ Z.max 0 (Z.log2 (Z.abs n) - 52)) by (apply Z.pow_nonneg; lia).
  destruct (Z.eq_dec n 0) as [->|]; [reflexivity|].
  rewrite Z.sgn_pos by lia. nia.
Qed.

Lemma float_of_int_opp (n : Z) :
  float_of_int (- n) = option_map Z.opp (float_of_int n).
Proof.
  unfold float_of_int. rewrite Z.abs_opp, Z.sgn_opp.
  destruct (_ <? _); [|reflexivity]. cbn. f_equal. lia.
Qed.

(** ** [format_size] *)

Lemma decimal_nonempty (n : Z) : (1 <= String.length (decimal n))%nat.
Proof.
  unfold decimal, NilZero.string_of_uint.
  destruct (N.to_uint (Z.to_N n)); cbn; lia.
Qed.

Lemma append_cons (c : ascii) (s t : string) :
  String c s +:+ t = String c (s +:+ t).
Proof. reflexivity. Qed.

Lemma append_nil_l (t : string) : EmptyString +:+ t = t.
Proof. reflexivity. Qed.

Lemma length_append (s t : string) :
  String.length (s +:+ t) = (String.length s + String.length t)%nat.
Proof.
  induction s as [|c s IH]; [reflexivity|].
  rewrite append_cons. cbn [String.length]. rewrite IH. reflexivity.
Qed.

Lemma one_decimal_length (m d : Z) : (3 <= String.length (one_decimal m d))%nat.
Proof.
  unfold one_decimal. cbv zeta. rewrite !length_append.
  pose proof (decimal_nonempty (round_half_even (10 * Z.abs m) d / 10)).
  pose proof (decimal_nonempty (round_half_even (10 * Z.abs m) d mod 10)).
  cbn [String.length]. lia.
Qed.

Lemma rjust_long (w : nat) (s : string) :
  (w <= String.length s)%nat -> Str.rjust w s = s.
Proof.
  intros H. unfold Str.rjust.
  replace (w - String.length s)%nat with O by lia. reflexivity.
Qed.

Lemma format_size_loop_cons (u : string) (us : list string) (num : pynum)
    (suffix : string) :
  format_size_loop (u :: us) num suffix =
  if abs_lt_1024 num then
    match fmt_3_1f num with
    | Ok s => Ok (Some (s +:+ u +:+ suffix))
    | Raise e => Raise e
    end
  else
    match div_1024 num with
    | Ok num' => format_size_loop us num' suffix
    | Raise e => Raise e
    end.
Proof. reflexivity. Qed.

(** The loop on a double [m / 1024 ^ k] that is too large for every
    unit left. *)
Lemma format_size_loop_large (us : list string) (m : Z) (k : nat) (suffix : string) :
  1024 * 1024 ^ Z.of_nat (k + List.length us) <= 1024 * Z.abs m ->
  format_size_loop us (PyFloat m k) suffix = Ok None.
Proof.
  revert k. induction us as [|u us IH]; intros k H; [reflexivity|].
  rewrite format_size_loop_cons. cbn [abs_lt_1024 div_1024].
  assert (Hk : 1024 * 1024 ^ Z.of_nat k <= Z.abs m).
  { cbn [List.length] in H.
    replace (Z.of_nat (k + S (List.length us)))
      with (Z.of_nat k + 1 + Z.of_nat (List.length us)) in H by lia.
    rewrite !Z.pow_add_r in H by lia.
    assert (0 < 1024 ^ Z.of_nat k) by (apply Z.pow_pos_nonneg; lia).
    assert (1 <= 1024 ^ Z.of_nat (List.length us)) by
      (change 1 with (1024 ^ 0); apply Z.pow_le_mono_r; lia).
    change (1024 ^ 1) with 1024 in H. nia. }
  apply Z.ltb_ge in Hk. rewrite Hk.
  apply IH. cbn [List.length] in H.
  replace (S k + List.length us)%nat with (k + S (List.length us))%nat by lia.
  exact H.
Qed.

(** The loop on a double [m / 1024 ^ j], [m] between [1024 ^ k] and
    [1024 ^ (k + 1)]: the unit at distance [k - j] is the one chosen. *)
Lemma format_size_loop_unit (us : list string) (m : Z) (j k : nat) (unit suffix : string) :
  (j <= k)%nat ->
  us !! (k - j)%nat = Some unit ->
  1024 ^ Z.of_nat k <= m < 1024 * 1024 ^ Z.of_nat k ->
  format_size_loop us (PyFloat m j) suffix
  = Ok (Some (one_decimal m (1024 ^ Z.of_nat k) +:+ unit +:+ suffix)).
Proof.
  revert j. induction us as [|u us IH]; intros j Hjk Hu Hm; [discriminate|].
  assert (Hpos : 0 < 1024 ^ Z.of_nat k) by (apply Z.pow_pos_nonneg; lia).
  rewrite format_size_loop_cons. cbn [abs_lt_1024 div_1024 fmt_3_1f].
  rewrite (Z.abs_eq m) by lia.
  destruct (decide (j = k)) as [->|Hne].
  - replace (k - k)%nat with O in Hu by lia. cbn in Hu. injection Hu as ->.
    destruct Hm as [_ Hm]. apply Z.ltb_lt in Hm. rewrite Hm.
    rewrite rjust_long by apply one_decimal_length. reflexivity.
  - assert (Hlt : (j < k)%nat) by lia.
    assert (Hge : 1024 * 1024 ^ Z.of_nat j <= m).
    { destruct Hm as [Hm _]. etransitivity; [|exact Hm].
      replace (Z.of_nat k) with (1 + Z.of_nat j + Z.of_nat (k - S j)) by lia.
      rewrite !Z.pow_add_r by lia. change (1024 ^ 1) with 1024.
      assert (0 < 1024 ^ Z.of_nat j) by (apply Z.pow_pos_nonneg; lia).
      assert (1 <= 1024 ^ Z.of_nat (k - S j)) by
        (change 1 with (1024 ^ 0); apply Z.pow_le_mono_r; lia).
      nia. }
    apply Z.ltb_ge in Hge. rewrite Hge.
    apply IH; [lia| |exact Hm].
    replace (k - j)%nat with (S (k - S j)) in Hu by lia. exact Hu.
Qed.

Lemma format_size_small (n : Z) :
  Z.abs n < 1024 ->
  format_size n = Ok (Some (one_decimal n 1 +:+ "B")).
Proof.
  intros Hn. unfold format_size, units.
  rewrite format_size_loop_cons. cbn [abs_lt_1024 fmt_3_1f].
  apply Z.ltb_lt in Hn as Hn'. rewrite Hn'.
  rewrite float_of_int_exact by lia.
  rewrite rjust_long by apply one_decimal_length. reflexivity.
Qed.

(** C5, as the code has it: a size that is not negative and whose
    double [m = float(size)] is below [1024 ^ 8] is rendered with one
    decimal place in the first unit of the list in which the double is
    below 1024, that is the unit [k] with
    [1024 ^ k <= m < 1024 ^ (k + 1)] ([k = 0] below 1024).  It is the
    double that is bracketed, not the size: a size below [2 ^ 53] is its
    own double, but [2 ^ 60 - 1], which is below [1024 ^ 6], has the
    double [2 ^ 60] and is rendered "1.0EiB".  And 0, 1024, 1536 and
    1048576 give "0.0B", "1.0KiB", "1.5KiB" and "1.0MiB". *)
Theorem format_size_first_unit_below_1024 :
  (forall n m : Z,
      0 <= n -> float_of_int n = Some m -> m < 1024 ^ 8 ->
      exists (k : nat) (unit : string),
        units !! k = Some unit
        /\ (k = O \/ 1024 ^ Z.of_nat k <= m)
        /\ m < 1024 * 1024 ^ Z.of_nat k
        /\ format_size n
           = Ok (Some (one_decimal m (1024 ^ Z.of_nat k) +:+ unit +:+ "B")))
  /\ (forall n : Z, 0 <= n < 2 ^ 53 -> float_of_int n = Some n)
  /\ format_size 0 = Ok (Some "0.0B")
  /\ format_size 1024 = Ok (Some "1.0KiB")
  /\ format_size 1536 = Ok (Some "1.5KiB")
  /\ format_size 1048576 = Ok (Some "1.0MiB")
  /\ (2 ^ 60 - 1 < 1024 ^ 6 /\ float_of_int (2 ^ 60 - 1) = Some (2 ^ 60)
      /\ format_size (2 ^ 60 - 1) = Ok (Some "1.0EiB")).
Proof.
  split; [|split; [|repeat split; vm_compute; reflexivity]].
  2:{ intros n Hn. apply float_of_int_exact. lia. }
  intros n m Hn Hm Hlt.
  destruct (Z.lt_ge_cases n 1024) as [Hsmall|Hbig].
  - rewrite float_of_int_exact in Hm by lia. injection Hm as <-.
    exists O, EmptyString.
    split; [reflexivity|split; [left; reflexivity|split; [cbn; lia|]]].
    rewrite format_size_small by lia. reflexivity.
  - pose proof (float_of_int_lower n m 10 ltac:(lia) Hbig Hm) as Hm10.
    change (2 ^ 10) with 1024 in Hm10.
    set (k := Z.to_nat (Z.log2 m / 10)).
    assert (Hmpos : 0 < m) by lia.
    destruct (Z.log2_spec m Hmpos) as [Hlo Hhi].
    assert (HL : 10 <= Z.log2 m < 80).
    { split; [apply Z.log2_le_pow2; lia|].
      apply Z.log2_lt_pow2; [lia|]. change (2 ^ 80) with (1024 ^ 8). exact Hlt. }
    assert (Hk : 1 <= Z.of_nat k < 8).
    { unfold k. rewrite Z2Nat.id by (apply Z.div_pos; lia).
      split; [apply Z.div_le_lower_bound; lia|apply Z.div_lt_upper_bound; lia]. }
    assert (Hkq : Z.of_nat k = Z.log2 m / 10).
    { unfold k. rewrite Z2Nat.id by (apply Z.div_pos; lia). reflexivity. }
    assert (Hpow : forall j, 0 <= j -> 1024 ^ j = 2 ^ (10 * j)).
    { intros j Hj. rewrite Z.pow_mul_r by lia. reflexivity. }
    assert (Hbounds : 1024 ^ Z.of_nat k <= m < 1024 * 1024 ^ Z.of_nat k).
    { pose proof (Z.div_mod (Z.log2 m) 10 ltac:(lia)) as Hdm.
      pose proof (Z.mod_pos_bound (Z.log2 m) 10 ltac:(lia)) as Hmod.
      split.
      - etransitivity; [|exact Hlo]. rewrite Hpow by lia.
        apply Z.pow_le_mono_r; lia.
      - eapply Z.lt_le_trans; [exact Hhi|].
        change 1024 with (1024 ^ 1) at 1. rewrite <- Z.pow_add_r by lia.
        rewrite Hpow by lia. apply Z.pow_le_mono_r; lia. }
    destruct (units !! k) as [unit|] eqn:Hu.
    2:{ apply lookup_ge_None in Hu. cbn in Hu. lia. }
    exists k, unit. split; [exact Hu|split; [right; lia|split; [lia|]]].
    unfold format_size, units. rewrite format_size_loop_cons.
    cbn [abs_lt_1024 div_1024].
    assert (Hn' : (Z.abs n <? 1024) = false) by (apply Z.ltb_ge; lia).
    rewrite Hn', Hm.
    apply format_size_loop_unit; [lia| |exact Hbounds].
    destruct k as [|k']; [lia|].
    replace (S k' - 1)%nat with k' by lia. exact Hu.
Qed.

(** The claim C5 read for every size: at [1024 ^ 8] there is no
    rendering at all, in any unit. *)
Lemma format_size_not_total : 0 <= 1024 ^ 8 /\ format_size (1024 ^ 8) = Ok None.
Proof. split; [lia|vm_compute; reflexivity]. Qed.

Lemma format_size_first_unit_witness :
  exists (k : nat) (unit : string),
    units !! k = Some unit
    /\ (k = O \/ 1024 ^ Z.of_nat k <= 1536)
    /\ 1536 < 1024 * 1024 ^ Z.of_nat k
    /\ format_size 1536
       = Ok (Some (one_decimal 1536 (1024 ^ Z.of_nat k) +:+ unit +:+ "B")).
Proof.
  apply (proj1 format_size_first_unit_below_1024 1536 1536);
    [lia|vm_compute; reflexivity|lia].
Defined.

(** C10, as the code has it: a size of magnitude at least [1024 ^ 8]
    gives no formatted string: [format_size] returns [None] when the size
    converts to a double, and the division raises [OverflowError] when it
    does not. *)
Theorem format_size_beyond_Zi (n : Z) :
  1024 ^ 8 <= Z.abs n ->
  match float_of_int n with
  | Some _ => format_size n = Ok None
  | None => format_size n = Raise OverflowError
  end.
Proof.
  intros Hn. unfold format_size, units.
  rewrite format_size_loop_cons. cbn [abs_lt_1024 div_1024].
  assert (Hn' : (Z.abs n <? 1024) = false) by (apply Z.ltb_ge; lia).
  rewrite Hn'. destruct (float_of_int n) as [m|] eqn:Hm; [|reflexivity].
  apply format_size_loop_large. cbn [List.length Nat.add].
  assert (Habs : 2 ^ 80 <= Z.abs m).
  { destruct (Z.le_ge_cases 0 n) as [Hpos|Hneg].
    - pose proof (float_of_int_lower n m 80 ltac:(lia) ltac:(lia) Hm). lia.
    - pose proof (float_of_int_opp n) as Ho. rewrite Hm in Ho. cbn in Ho.
      pose proof (float_of_int_lower (- n) (- m) 80 ltac:(lia) ltac:(lia) Ho). lia. }
  change (Z.of_nat 8) with 8. lia.
Qed.

Lemma format_size_beyond_Zi_witness :
  match float_of_int (1024 ^ 8) with
  | Some _ => format_size (1024 ^ 8) = Ok None
  | None => format_size (1024 ^ 8) = Raise OverflowError
  end.
Proof. apply (format_size_beyond_Zi (1024 ^ 8)). lia. Defined.

(** The claim C10 read for every size: [2 ^ 1024] is beyond the Zi unit
    and [format_size] does not return [None] there, it raises. *)
Lemma format_size_overflow :
  1024 ^ 8 <= Z.abs (2 ^ 1024)
  /\ float_of_int (2 ^ 1024) = None
  /\ format_size (2 ^ 1024) = Raise OverflowError.
Proof.
  split; [|split]; [|vm_compute; reflexivity..].
  apply Z.leb_le. vm_compute. reflexivity.
Qed.

(** ** Examples of the [ntpath] functions and of [format_size] *)

Example format_size_0 : format_size 0 = Ok (Some "0.0B").
Proof. reflexivity. Qed.
Example format_size_1023 : format_size 1023 = Ok (Some "1023.0B").
Proof. reflexivity. Qed.
Example format_size_2000 : format_size 2000 = Ok (Some "2.0KiB").
Proof. vm_compute. reflexivity. Qed.
Example format_size_1048575 : format_size 1048575 = Ok (Some "1024.0KiB").
Proof. vm_compute. reflexivity. Qed.
Example format_size_neg : format_size (-1536) = Ok (Some "-1.5KiB").
Proof. vm_compute. reflexivity. Qed.

Example normpath_ex1 : ntpath.normpath "\a/b\..\.\c\\d" = "\a\c\d".
Proof. vm_compute. reflexivity. Qed.
Example normpath_ex2 : ntpath.normpath EmptyString = ".".
Proof. vm_compute. reflexivity. Qed.
Example normpath_ex3 : ntpath.normpath "\.." = "\".
Proof. vm_compute. reflexivity. Qed.
Example normpath_ex4 : ntpath.normpath "..\..\a\.." = "..\..".
Proof. vm_compute. reflexivity. Qed.
Example normpath_ex5 : ntpath.normpath "//host/share/x/../y" = "\\host\share\y".
Proof. vm_compute. reflexivity. Qed.
Example normpath_ex6 : ntpath.normpath "C:." = "C:".
Proof. vm_compute. reflexivity. Qed.
Example join_ex1 : ntpath.join "\" "C:foo" = "C:foo".
Proof. vm_compute. reflexivity. Qed.
Example join_ex2 : ntpath.join "C:\x" "\a" = "C:\a".
Proof. vm_compute. reflexivity. Qed.
Example join_ex3 : ntpath.join "\a" "b/c" = "\a\b/c".
Proof. vm_compute. reflexivity. Qed.
Example join_ex4 : ntpath.join "\\h\s" "x" = "\\h\s\x".
Proof. vm_compute. reflexivity. Qed.
Example splitdrive_ex1 : ntpath.splitdrive "//host/computer/dir" = ("//host/computer", "/dir").
Proof. vm_compute. reflexivity. Qed.
Example splitdrive_ex2 : ntpath.splitdrive "\\?\unc\h\s\d" = ("\\?\unc\h\s", "\d").
Proof. vm_compute. reflexivity. Qed.
Example basename_ex1 : ntpath.basename "\a\b/c.txt" = "c.txt".
Proof. vm_compute. reflexivity. Qed.

(** ** [print_filelist] *)

(** The order of the keys. *)

Lemma str_ltb_irrefl (s : string) : Str.ltb s s = false.
Proof.
  induction s as [|c s IH]; [reflexivity|].
  cbn [Str.ltb]. rewrite Nat.ltb_irrefl. exact IH.
Qed.








Lemma sort_insert_Permutation (x : fentry) (l : list fentry) :
  Permutation (x :: l) (sort_insert x l).
Proof.
  induction l as [|y l IH]; cbn [sort_insert]; [reflexivity|].
  destruct (key_ltb _ _); [|reflexivity].
  rewrite perm_swap. apply perm_skip. exact IH.
Qed.

Lemma sort_filelist_Permutation (l : list fentry) :
  Permutation l (sort_filelist l).
Proof.
  induction l as [|x l IH]; [reflexivity|].
  cbn [sort_filelist foldr]. fold (sort_filelist l).
  rewrite <- sort_insert_Permutation. apply perm_skip. exact IH.
Qed.



(** [list.sort] is stable: an entry put in stays before the entries of
    the same key that were there. *)
Lemma sort_insert_stable (x y : fentry) (l : list fentry) :
  key_ltb (sort_key y) (sort_key x) = false ->
  sort_insert x (y :: l) = x :: y :: l.
Proof. intros H. cbn [sort_insert]. rewrite H. reflexivity. Qed.

Lemma print_rows_map (w : nat) (l : list fentry) (rows : list string) :
  print_rows w l = Ok rows ->
  rows = map (row_of w) (List.filter (fun f => negb (is_pseudo (fname f))) l).
Proof.
  revert rows. induction l as [|f l IH]; intros rows; cbn [print_rows List.filter].
  - intros [= <-]. reflexivity.
  - destruct (is_pseudo (fname f)); cbn [negb]; [apply IH|].
    destruct (fsize f) as [size|] eqn:Hsize; [|discriminate].
    destruct (print_rows w l) as [rows'|]; [|discriminate].
    intros [= <-]. cbn [map]. unfold row_of at 1. rewrite Hsize. cbn [default].
    f_equal. apply IH. reflexivity.
Qed.




Lemma max_from_ok (acc : nat) (l : list fentry) :
  Forall (fun f => is_Some (fsize f)) l -> exists w, max_from acc l = Ok w.
Proof.
  intros H. revert acc. induction H as [|f l [s Hs] _ IH]; intros acc; cbn [max_from].
  - eauto.
  - rewrite Hs. apply IH.
Qed.

Lemma print_rows_ok (w : nat) (l : list fentry) :
  Forall (fun f => is_Some (fsize f)) l -> exists rows, print_rows w l = Ok rows.
Proof.
  induction 1 as [|f l [s Hs] _ [rows IH]]; cbn [print_rows].
  - eauto.
  - destruct (is_pseudo (fname f)); [eauto|]. rewrite Hs, IH. eauto.
Qed.



(** C9: on the empty list [print_filelist] raises, at [max], and prints
    nothing; when it prints, the list was not empty; and it does print
    for a list that is not empty and whose sizes are all strings. *)
Theorem print_filelist_empty_raises :
  print_filelist [] = Raise ValueError
  /\ (forall (filelist : list fentry) (rows : list string),
         print_filelist filelist = Ok rows -> filelist <> [])
  /\ (forall filelist : list fentry,
         filelist <> [] ->
         Forall (fun f => is_Some (fsize f)) filelist ->
         exists rows, print_filelist filelist = Ok rows).
Proof.
  split; [reflexivity|split].
  - intros filelist rows H ->. discriminate H.
  - intros filelist Hne Hall. unfold print_filelist.
    pose proof (sort_filelist_Permutation filelist) as Hp.
    assert (Hall' : Forall (fun f => is_Some (fsize f)) (sort_filelist filelist))
      by (eapply Permutation_Forall; eassumption).
    destruct (sort_filelist filelist) as [|f l] eqn:Hs.
    + symmetry in Hp. apply Permutation_nil in Hp. contradiction.
    + cbn [max_sizelen]. inversion Hall' as [|? ? [s Hf] Hl]; subst.
      rewrite Hf. destruct (max_from_ok (String.length s) l Hl) as [w ->].
      apply print_rows_ok. exact Hall'.
Qed.

Lemma print_filelist_empty_witness :
  [ {| fname := "x"; fisdir := true; fsize := Some "-" |} ] <> []
  /\ exists rows,
       print_filelist [ {| fname := "x"; fisdir := true; fsize := Some "-" |} ]
       = Ok rows.
Proof.
  split; [discriminate|].
  apply (proj2 (proj2 print_filelist_empty_raises)); [discriminate|].
  repeat constructor; eexists; reflexivity.
Defined.

(** ** [ntpath] *)

Lemma take_drop (n : nat) (s : string) : Str.take n s +:+ Str.drop n s = s.
Proof.
  revert s. induction n as [|n IH]; intros [|c s]; try reflexivity.
  cbn [Str.take Str.drop]. rewrite append_cons, IH. reflexivity.
Qed.

Lemma append_nil_r (s : string) : s +:+ EmptyString = s.
Proof.
  induction s as [|c s IH]; [reflexivity|]. rewrite append_cons, IH. reflexivity.
Qed.

Lemma splitdrive_append (p d r : string) :
  ntpath.splitdrive p = (d, r) -> d +:+ r = p.
Proof.
  unfold ntpath.splitdrive.
  destruct (2 <=? String.length p)%nat; [|intros [= <- <-]; reflexivity].
  destruct (String.eqb (Str.take 2 (Str.replace_altsep p)) "\\").
  - destruct (Str.find_sep _ _) as [index|];
      [|intros [= <- <-]; apply append_nil_r].
    destruct (Str.find_sep _ (index + 1)) as [index2|];
      [|intros [= <- <-]; apply append_nil_r].
    intros H. injection H as <- <-. apply take_drop.
  - destruct (String.eqb _ ":"); [|intros [= <- <-]; reflexivity].
    intros H. injection H as <- <-. apply (take_drop 2).
Qed.

Lemma find_sep_starts (p : string) (start i : nat) :
  Str.find_sep (Str.replace_altsep p) start = Some i ->
  ntpath.starts_with_sep (Str.drop i p) = true.
Proof.
  revert start i. induction p as [|c p IH]; intros start i; [discriminate|].
  cbn [Str.replace_altsep Str.map_chars Str.find_sep].
  fold (Str.replace_altsep p).
  destruct start as [|start].
  - destruct (Ascii.eqb c Str.altsep) eqn:Halt.
    + rewrite Ascii.eqb_refl. intros [= <-]. cbn. unfold Str.is_sep.
      rewrite Halt. apply orb_true_r.
    + destruct (Ascii.eqb c Str.sep) eqn:Hsep.
      * intros [= <-]. cbn. unfold Str.is_sep. rewrite Hsep. reflexivity.
      * destruct (Str.find_sep (Str.replace_altsep p) 0) as [j|] eqn:Hj;
          [|discriminate].
        intros [= <-]. cbn [Str.drop]. eapply IH. exact Hj.
  - destruct (Str.find_sep (Str.replace_altsep p) start) as [j|] eqn:Hj;
      [|discriminate].
    intros [= <-]. cbn [Str.drop]. eapply IH. exact Hj.
Qed.

(** The two parts [splitdrive] gives: no drive, or nothing after it, or
    a separator after it, or a drive that ends in a colon. *)
Lemma splitdrive_shape (p d r : string) :
  ntpath.splitdrive p = (d, r) ->
  d = EmptyString \/ r = EmptyString \/ ntpath.starts_with_sep r = true
  \/ ntpath.last_not_colon d = false.
Proof.
  unfold ntpath.splitdrive.
  destruct (2 <=? String.length p)%nat; [|intros [= <- <-]; auto].
  destruct (String.eqb (Str.take 2 (Str.replace_altsep p)) "\\").
  - destruct (Str.find_sep _ _) as [index|]; [|intros [= <- <-]; auto].
    destruct (Str.find_sep _ (index + 1)) as [index2|] eqn:H2;
      [|intros [= <- <-]; auto].
    intros [= <- <-]. right. right. left. eapply find_sep_starts. exact H2.
  - destruct (String.eqb _ ":") eqn:Hc; [|intros [= <- <-]; auto].
    intros [= <- <-]. right. right. right.
    destruct p as [|a [|b p]]; try discriminate.
    cbn in Hc. unfold ntpath.last_not_colon. cbn.
    destruct (Ascii.eqb b Str.altsep); [discriminate|].
    unfold Str.colon. destruct (Ascii.eqb b ":"); [reflexivity|discriminate].
Qed.

Lemma lower_nonempty (s : string) :
  Str.nonempty s = true -> Str.lower s <> EmptyString.
Proof. destruct s; [discriminate|]. intros _. discriminate. Qed.

(** [join] of a path without a drive and of a fragment that begins with
    a separator: the fragment. *)
Lemma join_absolute (cursor frag : string) :
  driveless cursor ->
  ntpath.starts_with_sep frag = true ->
  ntpath.join cursor frag = frag.
Proof.
  unfold driveless, ntpath.join. intros Hc Hf.
  destruct (ntpath.splitdrive cursor) as [rd rp]. cbn in Hc. subst rd.
  destruct (ntpath.splitdrive frag) as [pd pp] eqn:Hs.
  pose proof (splitdrive_append _ _ _ Hs) as Happ.
  pose proof (splitdrive_shape _ _ _ Hs) as Hshape.
  destruct (ntpath.starts_with_sep pp) eqn:Hpp.
  - cbn [Str.nonempty negb]. rewrite orb_true_r, Hpp. cbn [negb].
    rewrite andb_false_r. cbn [andb]. exact Happ.
  - assert (Hpd : Str.nonempty pd = true).
    { destruct pd; [|reflexivity]. rewrite append_nil_l in Happ. congruence. }
    rewrite Hpd.
    assert (Hne : String.eqb pd EmptyString = false) by (destruct pd; [discriminate|reflexivity]).
    rewrite Hne.
    assert (Hlo : String.eqb (Str.lower pd) (Str.lower EmptyString) = false).
    { apply String.eqb_neq. apply lower_nonempty. exact Hpd. }
    rewrite Hlo. cbn [negb andb]. rewrite Hpp, Hpd. cbn [negb andb].
    destruct Hshape as [->|[->|[Hsep|Hcol]]].
    + discriminate.
    + cbn [Str.nonempty andb]. exact Happ.
    + congruence.
    + rewrite Hcol, !andb_false_r. exact Happ.
Qed.

Lemma all_chars_append (P : ascii -> bool) (s t : string) :
  all_chars P (s +:+ t) = all_chars P s && all_chars P t.
Proof.
  induction s as [|c s IH]; [reflexivity|].
  rewrite append_cons. cbn [all_chars]. rewrite IH, andb_assoc. reflexivity.
Qed.

Lemma replace_altsep_id (s : string) :
  all_chars not_altsep s = true -> Str.replace_altsep s = s.
Proof.
  induction s as [|c s IH]; [reflexivity|].
  cbn [all_chars]. intros [Hc Hs]%andb_prop.
  unfold Str.replace_altsep. cbn [Str.map_chars]. fold (Str.replace_altsep s).
  rewrite (IH Hs). unfold not_altsep in Hc.
  destruct (Ascii.eqb c Str.altsep); [discriminate|reflexivity].
Qed.

Lemma replace_altsep_no_altsep (s : string) :
  all_chars not_altsep (Str.replace_altsep s) = true.
Proof.
  induction s as [|c s IH]; [reflexivity|].
  unfold Str.replace_altsep. cbn [Str.map_chars all_chars].
  fold (Str.replace_altsep s). rewrite IH, andb_true_r. unfold not_altsep.
  destruct (Ascii.eqb c Str.altsep) eqn:E; [reflexivity|]. rewrite E. reflexivity.
Qed.

Lemma replace_altsep_no_colon (s : string) :
  all_chars not_colon s = true ->
  all_chars not_colon (Str.replace_altsep s) = true.
Proof.
  induction s as [|c s IH]; [reflexivity|].
  cbn [all_chars]. intros [Hc Hs]%andb_prop.
  unfold Str.replace_altsep. cbn [Str.map_chars all_chars].
  fold (Str.replace_altsep s). rewrite (IH Hs), andb_true_r.
  destruct (Ascii.eqb c Str.altsep); [reflexivity|exact Hc].
Qed.

Lemma lstrip_sep_all_chars (P : ascii -> bool) (s : string) :
  all_chars P s = true -> all_chars P (Str.lstrip_sep s) = true.
Proof.
  induction s as [|c s IH]; [reflexivity|].
  cbn [Str.lstrip_sep]. destruct (Ascii.eqb c Str.sep); [|tauto].
  cbn [all_chars]. intros [_ Hs]%andb_prop. apply IH, Hs.
Qed.

(** [split] and [join] *)

Lemma split_sep_not_nil (s : string) : Str.split_sep s <> [].
Proof.
  induction s as [|c s IH]; cbn [Str.split_sep]; [discriminate|].
  destruct (Ascii.eqb c Str.sep); [discriminate|].
  destruct (Str.split_sep s); discriminate.
Qed.

Lemma join_sep_cons (w : string) (ws : list string) :
  ws <> [] -> Str.join_sep (w :: ws) = w +:+ String Str.sep (Str.join_sep ws).
Proof. destruct ws; [congruence|reflexivity]. Qed.

Lemma join_split (s : string) : Str.join_sep (Str.split_sep s) = s.
Proof.
  induction s as [|c s IH]; [reflexivity|].
  cbn [Str.split_sep]. pose proof (split_sep_not_nil s) as Hne.
  destruct (Ascii.eqb c Str.sep) eqn:Hc.
  - rewrite join_sep_cons by exact Hne. rewrite IH, append_nil_l.
    apply Ascii.eqb_eq in Hc. subst c. reflexivity.
  - destruct (Str.split_sep s) as [|w ws]; [congruence|].
    destruct ws as [|w' ws].
    + cbn [Str.join_sep] in *. rewrite IH. reflexivity.
    + rewrite join_sep_cons in * by discriminate.
      rewrite append_cons, IH. reflexivity.
Qed.

Lemma split_sep_all_chars (P : ascii -> bool) (s : string) :
  all_chars P s = true ->
  Forall (fun c => all_chars P c = true) (Str.split_sep s).
Proof.
  induction s as [|c s IH]; cbn [Str.split_sep all_chars].
  - intros _. repeat constructor.
  - intros [Hc Hs]%andb_prop. specialize (IH Hs).
    destruct (Ascii.eqb c Str.sep); [constructor; [reflexivity|exact IH]|].
    destruct (Str.split_sep s) as [|w ws]; [repeat constructor; cbn; rewrite Hc; reflexivity|].
    inversion IH as [|? ? Hw Hws]; subst. constructor; [|exact Hws].
    cbn [all_chars]. rewrite Hc, Hw. reflexivity.
Qed.

Lemma split_sep_no_sep (s : string) :
  Forall (fun c => all_chars not_sep c = true) (Str.split_sep s).
Proof.
  induction s as [|c s IH]; cbn [Str.split_sep]; [repeat constructor|].
  destruct (Ascii.eqb c Str.sep) eqn:Hc; [constructor; [reflexivity|exact IH]|].
  destruct (Str.split_sep s) as [|w ws];
    [repeat constructor; cbn; unfold not_sep; rewrite Hc; reflexivity|].
  inversion IH as [|? ? Hw Hws]; subst. constructor; [|exact Hws].
  cbn [all_chars]. unfold not_sep at 1. rewrite Hc, Hw. reflexivity.
Qed.

Lemma split_sep_append (w t : string) :
  all_chars not_sep w = true ->
  Str.split_sep (w +:+ String Str.sep t) = w :: Str.split_sep t.
Proof.
  induction w as [|c w IH]; cbn [all_chars].
  - intros _. rewrite append_nil_l. cbn [Str.split_sep].
    rewrite Ascii.eqb_refl. reflexivity.
  - intros [Hc Hw]%andb_prop. rewrite append_cons. cbn [Str.split_sep].
    unfold not_sep in Hc. destruct (Ascii.eqb c Str.sep); [discriminate|].
    rewrite (IH Hw). reflexivity.
Qed.

Lemma split_sep_one (w : string) :
  all_chars not_sep w = true -> Str.split_sep w = [w].
Proof.
  induction w as [|c w IH]; cbn [all_chars]; [reflexivity|].
  intros [Hc Hw]%andb_prop. cbn [Str.split_sep].
  unfold not_sep in Hc. destruct (Ascii.eqb c Str.sep); [discriminate|].
  rewrite (IH Hw). reflexivity.
Qed.

Lemma split_join (comps : list string) :
  comps <> [] ->
  Forall (fun c => all_chars not_sep c = true) comps ->
  Str.split_sep (Str.join_sep comps) = comps.
Proof.
  induction comps as [|w ws IH]; [congruence|]. intros _ H.
  inversion H as [|? ? Hw Hws]; subst.
  destruct ws as [|w' ws]; [apply split_sep_one, Hw|].
  rewrite join_sep_cons by discriminate.
  rewrite split_sep_append by exact Hw. f_equal. apply IH; [discriminate|exact Hws].
Qed.

Lemma join_sep_all_chars (P : ascii -> bool) (comps : list string) :
  P Str.sep = true ->
  Forall (fun c => all_chars P c = true) comps ->
  all_chars P (Str.join_sep comps) = true.
Proof.
  intros Hsep. induction 1 as [|w ws Hw Hws IH]; [reflexivity|].
  destruct ws as [|w' ws]; [exact Hw|].
  rewrite join_sep_cons by discriminate.
  rewrite all_chars_append. cbn [all_chars]. rewrite Hw, Hsep, IH. reflexivity.
Qed.

(** The loop of [normpath] *)

Lemma normpath_loop_plain (root : bool) (done todo : list string) :
  Forall (fun c => plain_comp c = true) todo ->
  ntpath.normpath_loop root done todo = rev done ++ todo.
Proof.
  intros H. revert done. induction H as [|c todo Hc _ IH]; intros done.
  - cbn [ntpath.normpath_loop]. rewrite app_nil_r. reflexivity.
  - cbn [ntpath.normpath_loop]. unfold plain_comp in Hc.
    apply andb_prop in Hc as [[Hn Hdot]%andb_prop Hdd].
    rewrite Hn. apply negb_true_iff in Hdot, Hdd. rewrite Hdot, Hdd.
    cbn [negb orb]. rewrite IH. cbn [rev]. rewrite <- app_assoc. reflexivity.
Qed.

Lemma normpath_loop_Forall (P : string -> Prop) (root : bool)
    (done todo : list string) :
  Forall P done -> Forall P todo ->
  Forall P (ntpath.normpath_loop root done todo).
Proof.
  intros Hd Ht. revert done Hd.
  induction Ht as [|c todo Hc _ IH]; intros done Hd; cbn [ntpath.normpath_loop].
  - apply Forall_rev. exact Hd.
  - destruct (negb (Str.nonempty c) || String.eqb c "."); [apply IH, Hd|].
    destruct (String.eqb c "..").
    + destruct done as [|d done'].
      * destruct root; apply IH; repeat constructor; exact Hc.
      * destruct (negb (String.eqb d "..")).
        -- apply IH. inversion Hd; assumption.
        -- apply IH. constructor; assumption.
    + apply IH. constructor; assumption.
Qed.

(** Under a prefix that ends in a separator ([root]) the loop leaves
    plain components only. *)
Lemma normpath_loop_root_plain (done todo : list string) :
  Forall (fun c => plain_comp c = true) done ->
  Forall (fun c => plain_comp c = true) (ntpath.normpath_loop true done todo).
Proof.
  revert done. induction todo as [|c todo IH]; intros done Hd;
    cbn [ntpath.normpath_loop].
  - apply Forall_rev. exact Hd.
  - destruct (negb (Str.nonempty c) || String.eqb c ".") eqn:H1; [apply IH, Hd|].
    destruct (String.eqb c "..") eqn:H2.
    + destruct done as [|d done']; [apply IH; constructor|].
      inversion Hd as [|? ? Hdp Hd']; subst.
      destruct (negb (String.eqb d "..")) eqn:H3; [apply IH, Hd'|].
      unfold plain_comp in Hdp. rewrite H3, andb_false_r in Hdp. discriminate.
    + apply IH. constructor; [|exact Hd].
      apply orb_false_elim in H1 as [Hn Hdot]. unfold plain_comp.
      apply negb_false_iff in Hn. rewrite Hn, Hdot, H2. reflexivity.
Qed.

Lemma take2_is_unc (a b : ascii) (p : string) :
  String.eqb (Str.take 2 (Str.replace_altsep (String a (String b p)))) "\\"
  = Str.is_sep a && Str.is_sep b.
Proof.
  unfold Str.replace_altsep, Str.is_sep, Str.sep, Str.altsep.
  cbn [Str.map_chars Str.take String.eqb].
  destruct (Ascii.eqb a "/") eqn:Ha1, (Ascii.eqb a "\") eqn:Ha2,
           (Ascii.eqb b "/") eqn:Hb1, (Ascii.eqb b "\") eqn:Hb2;
    cbn; rewrite ?Ha2, ?Hb2; reflexivity.
Qed.

Lemma second_is_colon (a b : ascii) (p : string) :
  String.eqb (Str.take 1 (Str.drop 1 (Str.replace_altsep (String a (String b p))))) ":"
  = Ascii.eqb b Str.colon.
Proof.
  unfold Str.replace_altsep, Str.colon, Str.sep, Str.altsep.
  cbn [Str.map_chars Str.take Str.drop String.eqb].
  destruct (Ascii.eqb b "/") eqn:Hb1.
  - apply Ascii.eqb_eq in Hb1. subst b. reflexivity.
  - destruct (Ascii.eqb b ":"); reflexivity.
Qed.

(** No drive when the path does not begin with two separators and its
    second character is not a colon. *)
Lemma splitdrive_no_drive (p : string) :
  match p with
  | String a (String b _) => negb (Str.is_sep a && Str.is_sep b) && not_colon b
  | _ => true
  end = true ->
  ntpath.splitdrive p = (EmptyString, p).
Proof.
  destruct p as [|a [|b p]]; try reflexivity.
  intros [Hsep Hcol]%andb_prop. unfold ntpath.splitdrive.
  cbn [String.length Nat.leb].
  rewrite take2_is_unc, second_is_colon.
  apply negb_true_iff in Hsep. rewrite Hsep.
  unfold not_colon in Hcol. apply negb_true_iff in Hcol. rewrite Hcol.
  reflexivity.
Qed.

Lemma is_sep_replace (c : ascii) :
  Ascii.eqb (if Ascii.eqb c Str.altsep then Str.sep else c) Str.sep = Str.is_sep c.
Proof.
  unfold Str.is_sep. destruct (Ascii.eqb c Str.altsep).
  - rewrite orb_true_r. reflexivity.
  - rewrite orb_false_r. reflexivity.
Qed.

(** [normpath] of a path with a single root: a backslash and the
    components the loop keeps. *)
Lemma normpath_single_root (p : string) :
  single_root p = true ->
  ntpath.normpath p
  = String Str.sep
      (Str.join_sep
         (ntpath.normpath_loop true []
            (Str.split_sep (Str.lstrip_sep (Str.replace_altsep p))))).
Proof.
  destruct p as [|a rest]; [discriminate|].
  cbn [single_root]. intros [Ha Hb]%andb_prop.
  unfold ntpath.normpath.
  assert (Hs : ntpath.splitdrive (Str.replace_altsep (String a rest))
               = (EmptyString, Str.replace_altsep (String a rest))).
  { apply splitdrive_no_drive.
    unfold Str.replace_altsep. cbn [Str.map_chars].
    destruct rest as [|b rest]; [reflexivity|]. cbn [Str.map_chars].
    apply andb_prop in Hb as [Hb Hcb].
    apply negb_true_iff in Hb.
    assert (Hb' : Str.is_sep (if Ascii.eqb b Str.altsep then Str.sep else b) = false).
    { unfold Str.is_sep in *. apply orb_false_elim in Hb as [Hb1 Hb2].
      rewrite Hb2. cbn iota. rewrite Hb1, Hb2. reflexivity. }
    rewrite Hb', andb_false_r. cbn [negb andb].
    unfold Str.is_sep in Hb. apply orb_false_elim in Hb as [_ Hb2].
    rewrite Hb2. exact Hcb. }
  rewrite Hs.
  assert (Hst : ntpath.startswith_sep (Str.replace_altsep (String a rest)) = true).
  { unfold Str.replace_altsep. cbn [Str.map_chars ntpath.startswith_sep].
    rewrite is_sep_replace. exact Ha. }
  rewrite Hst. rewrite append_nil_l. cbn [Str.last_char].
  rewrite Ascii.eqb_refl. cbn [Str.nonempty negb andb].
  rewrite append_cons, append_nil_l. reflexivity.
Qed.

Lemma Forall_forallb {A : Type} (f : A -> bool) (l : list A) :
  Forall (fun x => f x = true) l <-> forallb f l = true.
Proof.
  rewrite List.Forall_forall, forallb_forall. reflexivity.
Qed.

Lemma normalized_absolute_single_root (p : string) :
  normalized_absolute p = true -> single_root p = true.
Proof.
  destruct p as [|a rest]; [discriminate|].
  cbn [normalized_absolute single_root].
  intros [[Ha Halt]%andb_prop Hrest]%andb_prop.
  unfold Str.is_sep. rewrite Ha. cbn [orb andb].
  destruct rest as [|b rest]; [reflexivity|].
  apply andb_prop in Hrest as [Hcol Hplain]. rewrite Hcol, andb_true_r.
  cbn [all_chars] in Halt. apply andb_prop in Halt as [Hb _].
  unfold not_altsep in Hb. apply negb_true_iff in Hb. rewrite Hb, orb_false_r.
  cbn [Str.split_sep] in Hplain.
  destruct (Ascii.eqb b Str.sep); [discriminate Hplain|reflexivity].
Qed.

Lemma normalized_absolute_driveless (p : string) :
  normalized_absolute p = true -> driveless p.
Proof.
  intros H%normalized_absolute_single_root. unfold driveless.
  rewrite splitdrive_no_drive; [reflexivity|].
  destruct p as [|a [|b rest]]; try reflexivity.
  cbn [single_root] in H. apply andb_prop in H as [_ [Hb Hc]%andb_prop].
  apply negb_true_iff in Hb. rewrite Hb, andb_false_r. exact Hc.
Qed.

(** [normpath] leaves a normalized absolute path as it is. *)
Lemma normpath_normalized_absolute (p : string) :
  normalized_absolute p = true -> ntpath.normpath p = p.
Proof.
  intros H. rewrite normpath_single_root
    by (apply normalized_absolute_single_root, H).
  destruct p as [|a rest]; [discriminate|].
  cbn [normalized_absolute] in H.
  apply andb_prop in H as [[Ha Halt]%andb_prop Hrest].
  apply Ascii.eqb_eq in Ha. subst a.
  rewrite replace_altsep_id by (cbn [all_chars]; rewrite Halt; reflexivity).
  cbn [Str.lstrip_sep]. rewrite Ascii.eqb_refl.
  destruct rest as [|b rest]; [reflexivity|].
  apply andb_prop in Hrest as [_ Hplain].
  assert (Hb : Ascii.eqb b Str.sep = false).
  { cbn [Str.split_sep] in Hplain.
    destruct (Ascii.eqb b Str.sep); [discriminate Hplain|reflexivity]. }
  cbn [Str.lstrip_sep]. rewrite Hb.
  rewrite normpath_loop_plain by (apply Forall_forallb, Hplain).
  cbn [rev app]. rewrite join_split. reflexivity.
Qed.

(** [normpath] of a rooted path is a cursor as the specification wants
    it. *)
Lemma normpath_rooted (p : string) :
  rooted p = true -> cursor_ok (ntpath.normpath p) = true.
Proof.
  unfold rooted. intros [Hroot Hcol]%andb_prop.
  rewrite (normpath_single_root p Hroot).
  set (q := Str.lstrip_sep (Str.replace_altsep p)).
  set (comps := ntpath.normpath_loop true [] (Str.split_sep q)).
  assert (Hplain : Forall (fun c => plain_comp c = true) comps)
    by (apply normpath_loop_root_plain; constructor).
  assert (Hnosep : Forall (fun c => all_chars not_sep c = true) comps)
    by (apply normpath_loop_Forall; [constructor|apply split_sep_no_sep]).
  assert (Hnoalt : Forall (fun c => all_chars not_altsep c = true) comps).
  { apply normpath_loop_Forall; [constructor|].
    apply split_sep_all_chars, lstrip_sep_all_chars, replace_altsep_no_altsep. }
  assert (Hnocol : Forall (fun c => all_chars not_colon c = true) comps).
  { apply normpath_loop_Forall; [constructor|].
    apply split_sep_all_chars, lstrip_sep_all_chars, replace_altsep_no_colon, Hcol. }
  assert (Hjalt : all_chars not_altsep (Str.join_sep comps) = true)
    by (apply join_sep_all_chars; [reflexivity|exact Hnoalt]).
  assert (Hjcol : all_chars not_colon (Str.join_sep comps) = true)
    by (apply join_sep_all_chars; [reflexivity|exact Hnocol]).
  unfold cursor_ok, normalized_absolute. cbn [all_chars].
  rewrite Ascii.eqb_refl, Hjalt, Hjcol. cbn [andb].
  rewrite andb_true_r.
  destruct (Str.join_sep comps) as [|c s] eqn:Hj; [reflexivity|].
  cbn [all_chars] in Hjcol. apply andb_prop in Hjcol as [-> _]. cbn [andb].
  rewrite <- Hj. rewrite split_join; [apply Forall_forallb, Hplain| |exact Hnosep].
  intros ->. discriminate Hj.
Qed.

(** C3, as the code has it: against a cursor in which [ntpath] sees no
    drive (every normalized absolute path is one), a fragment that is
    already a normalized absolute path resolves to itself. *)
Theorem path_for_absolute_unchanged :
  (forall (st : state) (cursor frag : string),
      cur_dir st = Some cursor ->
      driveless cursor ->
      normalized_absolute frag = true ->
      _path_for frag st = (Ok frag, st))
  /\ (forall cursor : string, normalized_absolute cursor = true -> driveless cursor).
Proof.
  split; [|apply normalized_absolute_driveless].
  intros st cursor frag Hcur Hdrive Hfrag.
  unfold _path_for, read_cur_dir, bind, gets, ret. rewrite Hcur.
  rewrite join_absolute; [|exact Hdrive|].
  - rewrite normpath_normalized_absolute by exact Hfrag. reflexivity.
  - destruct frag as [|a rest]; [discriminate|].
    cbn [normalized_absolute] in Hfrag.
    apply andb_prop in Hfrag as [[Ha _]%andb_prop _].
    cbn [ntpath.starts_with_sep]. unfold Str.is_sep. rewrite Ha. reflexivity.
Qed.

Lemma path_for_absolute_witness :
  _path_for "\DCIM\100" (shell_at (Some O) (Some "microSD") (Some "\Nintendo 3DS"))
  = (Ok "\DCIM\100", shell_at (Some O) (Some "microSD") (Some "\Nintendo 3DS")).
Proof.
  apply (proj1 path_for_absolute_unchanged _ "\Nintendo 3DS");
    [reflexivity|vm_compute; reflexivity|vm_compute; reflexivity].
Defined.

(** The claim C3 read for every cursor string: with the cursor ["C:\x"],
    which [ntpath] takes as a path on drive [C:], the normalized absolute
    fragment ["\a"] resolves to ["C:\a"]. *)
Lemma path_for_keeps_cursor_drive :
  normalized_absolute "\a" = true
  /\ _path_for "\a" (shell_at (Some O) (Some "microSD") (Some "C:\x"))
     = (Ok "C:\a", shell_at (Some O) (Some "microSD") (Some "C:\x"))
  /\ "C:\a" <> "\a".
Proof.
  split; [vm_compute; reflexivity|]. split; [vm_compute; reflexivity|discriminate].
Qed.

(** ** The monad *)

Section Frame.

Variable I : state -> state -> Prop.
Hypothesis I_refl : forall st, I st st.
Hypothesis I_trans : forall a b c, I a b -> I b c -> I a c.

Lemma keeps_ret {A : Type} (a : A) : keeps I (ret a).
Proof. intros st r st' [= <- <-]. apply I_refl. Qed.

Lemma keeps_raise {A : Type} (e : exn) : keeps I (@raise A e).
Proof. intros st r st' [= <- <-]. apply I_refl. Qed.

Lemma keeps_lift {A : Type} (x : result A) : keeps I (lift x).
Proof. intros st r st' [= <- <-]. apply I_refl. Qed.

Lemma keeps_gets {A : Type} (f : state -> A) : keeps I (gets f).
Proof. intros st r st' [= <- <-]. apply I_refl. Qed.

Lemma keeps_modify (f : state -> state) :
  (forall st, I st (f st)) -> keeps I (modify f).
Proof. intros Hf st r st' [= <- <-]. apply Hf. Qed.

Lemma keeps_bind {A B : Type} (m : M A) (k : A -> M B) :
  keeps I m -> (forall a, keeps I (k a)) -> keeps I (bind m k).
Proof.
  intros Hm Hk st r st'. unfold bind.
  destruct (m st) as [[a|e] st1] eqn:H1.
  - intros H2. eapply I_trans; [eapply Hm, H1|eapply Hk, H2].
  - intros [= <- <-]. eapply Hm, H1.
Qed.

Lemma keeps_try {A : Type} (body : M A) (handler : string -> M A) :
  keeps I body -> (forall s, keeps I (handler s)) ->
  keeps I (try_except_OperationFailure body handler).
Proof.
  intros Hb Hh st r st'. unfold try_except_OperationFailure.
  destruct (body st) as [[a|e] st1] eqn:H1.
  - intros [= <- <-]. eapply Hb, H1.
  - destruct e; try (intros [= <- <-]; eapply Hb, H1).
    intros H2. eapply I_trans; [eapply Hb, H1|eapply Hh, H2].
Qed.

Lemma keeps_for_each (body : nat -> string -> M unit) (i : nat)
    (args : list string) :
  (forall i arg, keeps I (body i arg)) -> keeps I (for_each body i args).
Proof.
  intros Hb. revert i. induction args as [|a args IH]; intros i;
    cbn [for_each].
  - apply keeps_ret.
  - apply keeps_bind; [apply Hb|]. intros _. apply IH.
Qed.

Hypothesis I_event : forall ev st, I st (add_event ev st).

Lemma keeps_emit (ev : event) : keeps I (emit ev).
Proof. apply keeps_modify. intros st. apply I_event. Qed.

Lemma keeps_print (line : string) : keeps I (print line).
Proof. apply keeps_emit. Qed.

Lemma keeps_print_lines (lines : list string) : keeps I (print_lines lines).
Proof.
  induction lines as [|l lines IH]; cbn [print_lines].
  - apply keeps_ret.
  - apply keeps_bind; [apply keeps_print|]. intros _. exact IH.
Qed.

Lemma keeps_conn_call {A : Type} (ev : nat -> option string -> event)
    (answer : result A) :
  keeps I (conn_call ev answer).
Proof.
  unfold conn_call. apply keeps_bind; [apply keeps_gets|]. intros [c|].
  - apply keeps_bind; [apply keeps_gets|]. intros s.
    apply keeps_bind; [apply keeps_emit|]. intros _. apply keeps_lift.
  - apply keeps_raise.
Qed.

Lemma keeps_read_cur_dir : keeps I read_cur_dir.
Proof.
  unfold read_cur_dir. apply keeps_bind; [apply keeps_gets|].
  intros [d|]; [apply keeps_ret|apply keeps_raise].
Qed.

Lemma keeps_path_for (path : string) : keeps I (_path_for path).
Proof.
  unfold _path_for. apply keeps_bind; [apply keeps_read_cur_dir|].
  intros d. apply keeps_ret.
Qed.

Lemma keeps_lpath_for (host : localhost) (path : string) :
  keeps I (_lpath_for host path).
Proof.
  unfold _lpath_for. apply keeps_bind; [apply keeps_gets|].
  intros d. apply keeps_ret.
Qed.

Hypothesis I_typed : forall l st, I st (set_typed l st).

Lemma keeps_input (prompt : string) : keeps I (input prompt).
Proof.
  unfold input. apply keeps_bind; [apply keeps_emit|]. intros _.
  apply keeps_bind; [apply keeps_gets|]. intros [|line rest].
  - apply keeps_raise.
  - apply keeps_bind; [apply keeps_modify, I_typed|]. intros _. apply keeps_ret.
Qed.

Lemma keeps_getpass : keeps I getpass.
Proof.
  unfold getpass. apply keeps_bind; [apply keeps_emit|]. intros _.
  apply keeps_bind; [apply keeps_gets|]. intros [|line rest].
  - apply keeps_raise.
  - apply keeps_bind; [apply keeps_modify, I_typed|]. intros _. apply keeps_ret.
Qed.

Hypothesis I_files : forall m st, I st (set_files m st).

Lemma keeps_with_open {A : Type} (answer : result unit) (path mode : string)
    (body : M A) :
  keeps I body -> keeps I (with_open answer path mode body).
Proof.
  intros Hb. unfold with_open.
  apply keeps_bind; [apply keeps_emit|]. intros _.
  apply keeps_bind; [apply keeps_lift|]. intros _.
  apply keeps_bind.
  - destruct (String.eqb mode "wb"); [|apply keeps_ret].
    apply keeps_modify. intros st. apply I_files.
  - intros _ st r st'. destruct (body st) as [r1 st1] eqn:H1.
    intros [= <- <-]. eapply I_trans; [eapply Hb, H1|apply I_event].
Qed.

Lemma keeps_retrieveFile (answer : retrieve_answer) (src dest : string) :
  keeps I (retrieveFile answer src dest).
Proof.
  unfold retrieveFile. apply keeps_bind; [apply keeps_gets|]. intros [c|].
  - apply keeps_bind; [apply keeps_gets|]. intros s.
    apply keeps_bind; [apply keeps_emit|]. intros _.
    apply keeps_bind; [|intros _; apply keeps_lift].
    apply keeps_modify. intros st. apply I_files.
  - apply keeps_raise.
Qed.

End Frame.

(** ** The cursor changes in [_connect] and [_change_dir] only *)

Lemma same_cursor_refl (st : state) : same_cursor st st.
Proof. reflexivity. Qed.

Lemma same_cursor_trans (a b c : state) :
  same_cursor a b -> same_cursor b c -> same_cursor a c.
Proof. unfold same_cursor. congruence. Qed.

Lemma same_cursor_event (ev : event) (st : state) :
  same_cursor st (add_event ev st).
Proof. reflexivity. Qed.

Lemma same_cursor_files (m : gmap string (list Byte.byte)) (st : state) :
  same_cursor st (set_files m st).
Proof. reflexivity. Qed.

Ltac cursor_step :=
  first
    [ apply (keeps_ret same_cursor same_cursor_refl)
    | apply (keeps_raise same_cursor same_cursor_refl)
    | apply (keeps_lift same_cursor same_cursor_refl)
    | apply (keeps_gets same_cursor same_cursor_refl)
    | apply (keeps_print same_cursor same_cursor_event)
    | apply (keeps_emit same_cursor same_cursor_event)
    | apply (keeps_print_lines same_cursor same_cursor_refl same_cursor_trans
               same_cursor_event)
    | apply (keeps_conn_call same_cursor same_cursor_refl same_cursor_trans
               same_cursor_event)
    | apply (keeps_path_for same_cursor same_cursor_refl same_cursor_trans)
    | apply (keeps_read_cur_dir same_cursor same_cursor_refl same_cursor_trans)
    | apply (keeps_lpath_for same_cursor same_cursor_refl same_cursor_trans)
    | apply (keeps_retrieveFile same_cursor same_cursor_refl same_cursor_trans
               same_cursor_event same_cursor_files)
    | apply (keeps_with_open same_cursor same_cursor_refl same_cursor_trans
               same_cursor_event same_cursor_files)
    | apply (keeps_for_each same_cursor same_cursor_refl same_cursor_trans);
      intros
    | apply (keeps_modify same_cursor); intros; reflexivity
    | apply (keeps_bind same_cursor same_cursor_trans); [|intros] ].

Lemma do_ls_same_cursor answer args :
  keeps same_cursor (do_ls answer args).
Proof.
  unfold do_ls. destruct args as [|a [|b args]]; repeat cursor_step.
Qed.

Lemma do_lls_same_cursor host answer args :
  keeps same_cursor (do_lls host answer args).
Proof.
  unfold do_lls. destruct args as [|a [|b args]]; repeat cursor_step.
Qed.

Lemma do_mkdir_same_cursor answers args :
  keeps same_cursor (do_mkdir answers args).
Proof.
  unfold do_mkdir. destruct args as [|a args]; repeat cursor_step.
Qed.

Lemma do_lcd_same_cursor host answer args :
  keeps same_cursor (do_lcd host answer args).
Proof.
  unfold do_lcd. destruct args as [|a [|b args]]; repeat cursor_step.
Qed.

Lemma do_get_same_cursor host open_answer answer args :
  keeps same_cursor (do_get host open_answer answer args).
Proof.
  unfold do_get, download. destruct args as [|a [|b [|c args]]];
    repeat cursor_step.
Qed.

Lemma do_mget_same_cursor host answers args :
  keeps same_cursor (do_mget host answers args).
Proof.
  unfold do_mget, download. destruct args as [|a args]; repeat cursor_step.
Qed.

Lemma do_put_same_cursor host open_answer store_answer args :
  keeps same_cursor (do_put host open_answer store_answer args).
Proof.
  unfold do_put, upload. destruct args as [|a [|b [|c args]]];
    repeat cursor_step.
Qed.

Lemma do_mput_same_cursor host answers args :
  keeps same_cursor (do_mput host answers args).
Proof.
  unfold do_mput, upload. destruct args as [|a args]; repeat cursor_step.
Qed.

Lemma do_rm_same_cursor answers args :
  keeps same_cursor (do_rm answers args).
Proof.
  unfold do_rm. destruct args as [|a args]; repeat cursor_step.
Qed.

Lemma do_mv_same_cursor answers args :
  keeps same_cursor (do_mv answers args).
Proof.
  unfold do_mv. destruct args as [|a [|b [|c args]]]; repeat cursor_step.
Qed.

Lemma do_pwd_same_cursor : keeps same_cursor do_pwd.
Proof. unfold do_pwd. repeat cursor_step. Qed.

Lemma do_info_same_cursor info : keeps same_cursor (do_info info).
Proof. unfold do_info. repeat cursor_step. Qed.

Lemma do_help_same_cursor text : keeps same_cursor (do_help text).
Proof. unfold do_help. repeat cursor_step. Qed.

(** ** [_change_dir] *)

(** [_change_dir], call by call. *)
Lemma change_dir_eq (answer : result (list SharedFile)) (path : string)
    (st : state) :
  _change_dir answer path st =
  match conn st with
  | None => (Raise AttributeError, st)
  | Some c =>
      let st1 := add_event (EvListPath c (service st) path) st in
      match answer with
      | Ok _ => (Ok tt, set_cur_dir (Some path) st1)
      | Raise (OperationFailure _) => (Raise AttributeError, st1)
      | Raise e => (Raise e, st1)
      end
  end.
Proof.
  unfold _change_dir, try_except_OperationFailure, status_name, conn_call, bind,
    gets, emit, modify, lift, print, raise.
  destruct (conn st) as [c|]; [|reflexivity].
  destruct answer as [entries|[]]; reflexivity.
Qed.

Lemma path_for_eq (path : string) (st : state) :
  _path_for path st =
  match cur_dir st with
  | Some d => (Ok (ntpath.normpath (ntpath.join d path)), st)
  | None => (Raise AttributeError, st)
  end.
Proof.
  cbv [_path_for read_cur_dir bind gets ret raise].
  destruct (cur_dir st); reflexivity.
Qed.

(** [do_cd], call by call. *)
Lemma do_cd_eq (answer : result (list SharedFile)) (args : list string)
    (st : state) :
  do_cd answer args st =
  match args with
  | [] =>
      match _change_dir answer "\" st with
      | (Ok _, st') => (Ok false, st')
      | (Raise e, st') => (Raise e, st')
      end
  | [a] =>
      match cur_dir st with
      | Some d =>
          match _change_dir answer (ntpath.normpath (ntpath.join d a)) st with
          | (Ok _, st') => (Ok false, st')
          | (Raise e, st') => (Raise e, st')
          end
      | None => (Raise AttributeError, st)
      end
  | _ => (Ok false, add_event (EvPrint "[Error] Too many arguments") st)
  end.
Proof.
  unfold do_cd. destruct args as [|a [|b args]].
  - cbv [bind ret]. destruct (_change_dir answer "\" st) as [[[]|e] st']; reflexivity.
  - cbv [bind ret]. rewrite path_for_eq. destruct (cur_dir st); [|reflexivity].
    destruct (_change_dir _ _ st) as [[[]|e] st']; reflexivity.
  - reflexivity.
Qed.




(** ** [complete_config] *)

Lemma bind_inv {A B : Type} (m : M A) (k : A -> M B) (st st' : state)
    (r : result B) :
  bind m k st = (r, st') ->
  (exists a st1, m st = (Ok a, st1) /\ k a st1 = (r, st'))
  \/ (exists e, m st = (Raise e, st') /\ r = Raise e).
Proof.
  unfold bind. destruct (m st) as [[a|e] st1].
  - intros H. left. eauto.
  - intros [= <- <-]. right. eauto.
Qed.

Lemma user_only_refl (st : state) : user_only st st.
Proof.
  unfold user_only. repeat split; try reflexivity.
  - exists []. reflexivity.
  - exists []. split; [symmetry; apply app_nil_r|constructor].
Qed.

Lemma user_only_trans (a b c : state) :
  user_only a b -> user_only b c -> user_only a c.
Proof.
  unfold user_only.
  intros (H1 & H2 & H3 & H4 & H5 & H6 & [p1 Hp1] & evs1 & Ht1 & Hu1)
         (G1 & G2 & G3 & G4 & G5 & G6 & [p2 Hp2] & evs2 & Ht2 & Hu2).
  repeat split; try congruence.
  - exists (p1 ++ p2). rewrite Hp1, Hp2, app_assoc. reflexivity.
  - exists (evs1 ++ evs2). split.
    + rewrite Ht2, Ht1, app_assoc. reflexivity.
    + apply Forall_app. split; assumption.
Qed.

Lemma user_only_event (ev : event) (st : state) :
  user_event ev = true -> user_only st (add_event ev st).
Proof.
  intros Hev. unfold user_only. cbn. repeat split.
  - exists []. reflexivity.
  - exists [ev]. split; [reflexivity|repeat constructor; exact Hev].
Qed.

Lemma user_only_read (line : string) (rest : list string) (st : state) :
  typed st = line :: rest -> user_only st (set_typed rest st).
Proof.
  intros Ht. unfold user_only. cbn. repeat split.
  - exists [line]. exact Ht.
  - exists []. split; [symmetry; apply app_nil_r|constructor].
Qed.

Lemma input_eq (prompt : string) (st : state) :
  input prompt st =
  match typed st with
  | [] => (Raise EOFError, add_event (EvInput prompt) st)
  | line :: rest => (Ok line, set_typed rest (add_event (EvInput prompt) st))
  end.
Proof.
  cbv [input bind emit modify gets raise ret].
  change (typed (add_event (EvInput prompt) st)) with (typed st).
  destruct (typed st); reflexivity.
Qed.

Lemma getpass_eq (st : state) :
  getpass st =
  match typed st with
  | [] => (Raise EOFError, add_event EvGetpass st)
  | line :: rest => (Ok line, set_typed rest (add_event EvGetpass st))
  end.
Proof.
  cbv [getpass bind emit modify gets raise ret].
  change (typed (add_event EvGetpass st)) with (typed st).
  destruct (typed st); reflexivity.
Qed.

Lemma input_user_only (prompt : string) : keeps user_only (input prompt).
Proof.
  intros st r st'. rewrite input_eq.
  pose proof (user_only_event (EvInput prompt) st eq_refl) as H1.
  destruct (typed st) as [|line rest] eqn:Ht; intros [= <- <-]; [exact H1|].
  eapply user_only_trans; [exact H1|]. eapply user_only_read. exact Ht.
Qed.

Lemma getpass_user_only : keeps user_only getpass.
Proof.
  intros st r st'. rewrite getpass_eq.
  pose proof (user_only_event EvGetpass st eq_refl) as H1.
  destruct (typed st) as [|line rest] eqn:Ht; intros [= <- <-]; [exact H1|].
  eapply user_only_trans; [exact H1|]. eapply user_only_read. exact Ht.
Qed.

Ltac user_step :=
  first
    [ apply (keeps_ret user_only user_only_refl)
    | apply (keeps_raise user_only user_only_refl)
    | apply input_user_only
    | apply getpass_user_only
    | apply (keeps_modify user_only); intros; apply user_only_event; reflexivity
    | apply (keeps_bind user_only user_only_trans); [|intros] ].

Lemma complete_config_user_only (query : option (list string))
    (config : Config.t) :
  keeps user_only (complete_config query config).
Proof.
  unfold complete_config, print, emit.
  destruct (Config.servername config), (Config.username config),
           (Config.password config), (Config.serverip config),
           query as [[|ip [|ip' l]]|];
    repeat user_step.
Qed.

(** ** [_connect] *)

(** The state once the connection held so far, if any, is closed. *)
Lemma connect_eq (query : option (list string)) (answer : connect_answer)
    (config : Config.t) (st : state) :
  _connect query answer config st =
  let st1 :=
    match conn st with
    | Some c => set_conns (<[c := Closed]> (conns st)) (add_event (EvClose c) st)
    | None => st
    end in
  match complete_config query config st1 with
  | (Raise e, st2) => (Raise e, st2)
  | (Ok config', st2) =>
      let c' := List.length (conns st2) in
      let st3 :=
        add_event (EvConnect c' (Config.serverip config')
                     (Config.serverport config') DEFAULT_TIMEOUT)
          (set_conn (Some c')
             (add_event (EvSMBConnection c' (Config.username config')
                           (Config.password config') DEFAULT_CLIENTNAME
                           (Config.servername config'))
                (set_conns (conns st2 ++ [Fresh]) st2))) in
      match answer with
      | Connected _ =>
          (Ok tt,
           add_event (EvPrint ("Connected to " +:+ str_of (Config.serverip config')))
             (set_cur_dir (Some "\")
                (set_service (Config.service config')
                   (set_conns (<[c' := Live]> (conns st3)) st3))))
      | ConnectFailed e socket_open =>
          (Raise e,
           if socket_open then set_conns (<[c' := Live]> (conns st3)) st3 else st3)
      end
  end.
Proof.
  cbv [_connect bind gets modify emit close_conn new_SMBConnection connect ret
       raise print].
  destruct (conn st) as [c|].
  - destruct (complete_config query config _) as [[config'|e] st2];
      [|reflexivity].
    destruct answer as [auth|e []]; reflexivity.
  - destruct (complete_config query config st) as [[config'|e] st2];
      [|reflexivity].
    destruct answer as [auth|e []]; reflexivity.
Qed.

Lemma Forall_user_not_close (evs : list event) :
  Forall (fun ev => user_event ev = true) evs ->
  Forall (fun ev => is_close ev = false) evs.
Proof.
  intros Hu. eapply Forall_impl; [exact Hu|].
  intros [] H; try reflexivity; discriminate H.
Qed.

Lemma Forall_user_not_connect (evs : list event) :
  Forall (fun ev => user_event ev = true) evs ->
  Forall (fun ev => is_connect ev = false) evs.
Proof.
  intros Hu. eapply Forall_impl; [exact Hu|].
  intros [] H; try reflexivity; discriminate H.
Qed.

Ltac simpl_state :=
  cbn [conn service cur_dir typed conns files cwd trace
       set_conn set_service set_cur_dir set_typed set_conns set_files set_cwd
       add_event] in *.

(** Once the held connection is closed no connection is live. *)
Lemma closed_none_live (st : state) (i : nat) :
  session_inv st ->
  match conn st with
  | Some c => <[c := Closed]> (conns st)
  | None => conns st
  end !! i <> Some Live.
Proof.
  intros [Hlive Hlt]. destruct (conn st) as [c|] eqn:Hc.
  - destruct (decide (i = c)) as [->|Hne].
    + rewrite list_lookup_insert_eq by (apply Hlt; reflexivity). discriminate.
    + rewrite list_lookup_insert_ne by congruence.
      intros H. apply Hlive in H. congruence.
  - intros H. apply Hlive in H. discriminate.
Qed.

(** [_connect] from a state in which only the held connection can be
    live. *)
Lemma connect_session_step
    (query : option (list string)) (answer : connect_answer)
    (config : Config.t) (st st' : state) (r : result unit) :
  session_inv st ->
  _connect query answer config st = (r, st') ->
  session_inv st'
  /\ (forall c, conn st = Some c ->
        conns st' !! c = Some Closed
        /\ exists evs, trace st' = trace st ++ EvClose c :: evs
                       /\ Forall (fun ev => is_close ev = false) evs)
  /\ (conn st = None ->
        exists evs, trace st' = trace st ++ evs
                    /\ Forall (fun ev => is_close ev = false) evs)
  /\ (r = Ok tt ->
        conn st' = Some (List.length (conns st))
        /\ conns st' !! List.length (conns st) = Some Live
        /\ cur_dir st' = Some "\").
Proof.
  intros Hinv. rewrite connect_eq. cbv zeta.
  set (st1 := match conn st with
              | Some c => set_conns (<[c := Closed]> (conns st))
                            (add_event (EvClose c) st)
              | None => st
              end).
  assert (Hconn1 : conn st1 = conn st)
    by (unfold st1; destruct (conn st) eqn:E; cbn; rewrite ?E; reflexivity).
  assert (Hconns1 : conns st1 = match conn st with
                                | Some c => <[c := Closed]> (conns st)
                                | None => conns st
                                end)
    by (unfold st1; destruct (conn st) eqn:E; reflexivity).
  assert (Hlen1 : List.length (conns st1) = List.length (conns st)).
  { rewrite Hconns1. destruct (conn st); [apply length_insert|reflexivity]. }
  assert (Hnolive : forall i, conns st1 !! i <> Some Live).
  { intros i. rewrite Hconns1. apply closed_none_live, Hinv. }
  assert (Htrace1 : trace st1 = trace st ++ match conn st with
                                            | Some c => [EvClose c]
                                            | None => []
                                            end).
  { unfold st1. destruct (conn st); [reflexivity|]. symmetry. apply app_nil_r. }
  assert (Hclosed1 : forall c, conn st = Some c -> conns st1 !! c = Some Closed).
  { intros c Hc. rewrite Hconns1, Hc. apply list_lookup_insert_eq.
    apply Hinv. exact Hc. }
  clearbody st1.
  destruct (complete_config query config st1) as [[config'|e] st2] eqn:Hcc;
    apply complete_config_user_only in Hcc;
    destruct Hcc as (Hconn2 & _ & _ & Hconns2 & _ & _ & _ & evs & Htrace2 & Huser).
  - (* the configuration is complete: the new connection is made *)
    set (c' := List.length (conns st2)).
    assert (Hc' : c' = List.length (conns st)) by (unfold c'; congruence).
    assert (Hold : forall i, (conns st2 ++ [Fresh]) !! i <> Some Live).
    { intros i H. apply lookup_app_Some in H as [H|[_ H]].
      - rewrite Hconns2 in H. exact (Hnolive i H).
      - destruct (i - List.length (conns st2))%nat; discriminate H. }
    assert (Hlt : (c' < List.length (conns st2 ++ [Fresh]))%nat)
      by (rewrite length_app; cbn; unfold c'; lia).
    assert (Hclosed : forall c, conn st = Some c ->
                       (conns st2 ++ [Fresh]) !! c = Some Closed).
    { intros c Hc. rewrite lookup_app_l.
      - rewrite Hconns2. apply Hclosed1, Hc.
      - rewrite Hconns2, Hlen1. apply Hinv, Hc. }
    assert (Hne : forall c, conn st = Some c -> c <> c').
    { intros c Hc. apply (proj2 Hinv) in Hc. lia. }
    destruct answer as [auth|e socket_open]; intros [= <- <-]; unfold session_inv; simpl_state.
    + split; [split|split; [|split]].
      * intros i H. destruct (decide (i = c')) as [->|Hi]; [reflexivity|].
        rewrite list_lookup_insert_ne in H by congruence. destruct (Hold i H).
      * intros c [= <-]. rewrite length_insert. exact Hlt.
      * intros c Hc. split.
        -- rewrite list_lookup_insert_ne by (apply not_eq_sym, Hne, Hc).
           apply Hclosed, Hc.
        -- rewrite Htrace2, Htrace1, Hc. eexists. split.
           ++ rewrite <- !app_assoc. reflexivity.
           ++ apply Forall_app. split; [apply Forall_user_not_close, Huser|].
              repeat constructor.
      * intros Hc. rewrite Htrace2, Htrace1, Hc, app_nil_r. eexists. split.
        -- rewrite <- !app_assoc. reflexivity.
        -- apply Forall_app. split; [apply Forall_user_not_close, Huser|].
           repeat constructor.
      * intros _. rewrite <- Hc'. split; [reflexivity|].
        split; [|reflexivity]. apply list_lookup_insert_eq. exact Hlt.
    + split; [split|split; [|split]].
      * intros i H. destruct (decide (i = c')) as [->|Hi].
        -- destruct socket_open; reflexivity.
        -- destruct socket_open; simpl_state.
           ++ rewrite list_lookup_insert_ne in H by congruence. destruct (Hold i H).
           ++ destruct (Hold i H).
      * intros c Hc. destruct socket_open; simpl_state;
          injection Hc as <-; rewrite ?length_insert; exact Hlt.
      * intros c Hc. split.
        -- destruct socket_open; simpl_state;
             rewrite ?list_lookup_insert_ne by (apply not_eq_sym, Hne, Hc);
             apply Hclosed, Hc.
        -- exists (evs ++ [EvSMBConnection c' (Config.username config')
                             (Config.password config') DEFAULT_CLIENTNAME
                             (Config.servername config');
                           EvConnect c' (Config.serverip config')
                             (Config.serverport config') DEFAULT_TIMEOUT]).
           split.
           ++ destruct socket_open; simpl_state; rewrite Htrace2, Htrace1, Hc;
                rewrite <- !app_assoc; reflexivity.
           ++ apply Forall_app. split; [apply Forall_user_not_close, Huser|].
              repeat constructor.
      * intros Hc.
        exists (evs ++ [EvSMBConnection c' (Config.username config')
                          (Config.password config') DEFAULT_CLIENTNAME
                          (Config.servername config');
                        EvConnect c' (Config.serverip config')
                          (Config.serverport config') DEFAULT_TIMEOUT]).
        split.
        -- destruct socket_open; simpl_state; rewrite Htrace2, Htrace1, Hc, app_nil_r;
             rewrite <- !app_assoc; reflexivity.
        -- apply Forall_app. split; [apply Forall_user_not_close, Huser|].
           repeat constructor.
      * discriminate.
  - (* the user's input ended: nothing is made *)
    intros [= <- <-]. unfold session_inv. split; [split|split; [|split]].
    + intros i H. rewrite Hconns2 in H. destruct (Hnolive i H).
    + intros c Hc. rewrite Hconns2, Hlen1. apply Hinv. congruence.
    + intros c Hc. split; [rewrite Hconns2; apply Hclosed1, Hc|].
      exists evs. split; [|apply Forall_user_not_close, Huser].
      rewrite Htrace2, Htrace1, Hc, <- app_assoc. reflexivity.
    + intros Hc. exists evs. split; [|apply Forall_user_not_close, Huser].
      rewrite Htrace2, Htrace1, Hc, app_nil_r. reflexivity.
    + discriminate.
Qed.

(** ** Name resolution that fails *)

Lemma eof_only_ret {A : Type} (a : A) : eof_only (ret a).
Proof. intros st e st' H. discriminate H. Qed.

Lemma eof_only_modify (f : state -> state) : eof_only (modify f).
Proof. intros st e st' H. discriminate H. Qed.

Lemma eof_only_bind {A B : Type} (m : M A) (k : A -> M B) :
  eof_only m -> (forall a, eof_only (k a)) -> eof_only (bind m k).
Proof.
  intros Hm Hk st e st' H.
  apply bind_inv in H as [(a & st1 & _ & H)|(e' & H & [= <-])].
  - eapply Hk, H.
  - eapply Hm, H.
Qed.

Lemma eof_only_input (prompt : string) : eof_only (input prompt).
Proof.
  intros st e st'. rewrite input_eq.
  destruct (typed st) eqn:Ht; [|discriminate].
  intros [= <- <-]. split; [reflexivity|exact Ht].
Qed.

Lemma eof_only_getpass : eof_only getpass.
Proof.
  intros st e st'. rewrite getpass_eq.
  destruct (typed st) eqn:Ht; [|discriminate].
  intros [= <- <-]. split; [reflexivity|exact Ht].
Qed.

Ltac eof_step :=
  first
    [ apply eof_only_ret
    | apply eof_only_input
    | apply eof_only_getpass
    | apply eof_only_modify
    | apply eof_only_bind; [|intros] ].

Lemma complete_config_eof_only (query : option (list string))
    (config : Config.t) :
  eof_only (complete_config query config).
Proof.
  unfold complete_config, print, emit.
  destruct (Config.servername config), (Config.username config),
           (Config.password config), (Config.serverip config),
           query as [[|ip [|ip' l]]|];
    repeat eof_step.
Qed.

(** One of the first three questions of [complete_config]. *)
Lemma ask_user_only (o : option string) (ask : M string) :
  keeps user_only ask ->
  keeps user_only
    (match o with
     | None => s <- ask ;; ret (Some s)
     | Some s => ret (Some s)
     end).
Proof. intros Hask. destruct o; repeat user_step. exact Hask. Qed.

(** When the address is not given and the name service does not give
    exactly one, [complete_config] that returns has asked for the address
    last, and the line typed then is the address. *)
Lemma complete_config_unresolved (query : option (list string))
    (config config' : Config.t) (st st' : state) :
  Config.serverip config = None ->
  unresolved query ->
  complete_config query config st = (Ok config', st') ->
  exists (ip : string) (pre : list string) (evs : list event),
    Config.serverip config' = Some ip
    /\ typed st = pre ++ ip :: typed st'
    /\ trace st'
       = trace st ++ evs
         ++ [EvQueryName (Config.servername config') DEFAULT_TIMEOUT;
             EvNetBIOSClose; EvPrint resolution_failed; EvInput "IP: "]
    /\ Forall (fun ev => user_event ev = true) evs.
Proof.
  intros Hip Hq H. unfold complete_config in H. rewrite Hip in H.
  apply bind_inv in H as [(sn & st1 & H1 & H)|(e & _ & [=])].
  apply bind_inv in H as [(un & st2 & H2 & H)|(e & _ & [=])].
  apply bind_inv in H as [(pw & st3 & H3 & H)|(e & _ & [=])].
  apply bind_inv in H as [(ip & st4 & H4 & H)|(e & _ & [=])].
  injection H as <- <-. cbn [Config.serverip Config.servername].
  apply (ask_user_only _ _ (input_user_only _)) in H1.
  apply (ask_user_only _ _ (input_user_only _)) in H2.
  apply (ask_user_only _ _ getpass_user_only) in H3.
  pose proof (user_only_trans _ _ _ (user_only_trans _ _ _ H1 H2) H3) as H123.
  destruct H123 as (_ & _ & _ & _ & _ & _ & [pre Hpre] & evs & Htr & Hu).
  assert (H4' : exists line rest,
             typed st3 = line :: rest /\ ip = Some line
             /\ st4 = set_typed rest
                        (add_event (EvInput "IP: ")
                           (add_event (EvPrint resolution_failed)
                              (add_event EvNetBIOSClose
                                 (add_event (EvQueryName sn DEFAULT_TIMEOUT) st3))))).
  { assert (Hfail :
      (print resolution_failed ;;; (s <- input "IP: " ;; ret (Some s)))
        (add_event EvNetBIOSClose (add_event (EvQueryName sn DEFAULT_TIMEOUT) st3))
      = (Ok ip, st4) ->
      exists line rest,
        typed st3 = line :: rest /\ ip = Some line
        /\ st4 = set_typed rest
                   (add_event (EvInput "IP: ")
                      (add_event (EvPrint resolution_failed)
                         (add_event EvNetBIOSClose
                            (add_event (EvQueryName sn DEFAULT_TIMEOUT) st3))))).
    { cbv [bind print emit modify ret]. rewrite input_eq.
      change (typed (add_event _ (add_event _ (add_event _ st3)))) with (typed st3).
      destruct (typed st3) as [|line rest]; [discriminate|].
      intros [= <- <-]. eauto. }
    destruct query as [[|a [|b l]]|]; try contradiction; apply Hfail; exact H4. }
  destruct H4' as (line & rest & Hty & -> & ->).
  exists line, pre, evs. cbn [typed trace set_typed add_event].
  split; [reflexivity|]. split; [rewrite Hpre, Hty; reflexivity|].
  split; [|exact Hu]. rewrite Htr, <- !app_assoc. reflexivity.
Qed.

(** C1, as the code has it: when the address is not given and the name
    service gives no address or more than one, [connect] does not fail:
    [complete_config] prints that name resolution failed and asks for the
    address, the line typed becomes the address, and the transport
    connection to it is attempted.  Only when the user's input ends does
    [connect] stop before that, with [EOFError]. *)
Theorem unresolved_name_asks_for_address
    (query : option (list string)) (answer : connect_answer)
    (config : Config.t) (st st' : state) (r : result unit) :
  Config.serverip config = None ->
  unresolved query ->
  _connect query answer config st = (r, st') ->
  (r = Raise EOFError /\ typed st' = []
   /\ exists evs, trace st' = trace st ++ evs
                  /\ Forall (fun ev => is_connect ev = false) evs)
  \/ (exists (ip : string) (pre : list string) (evs rest : list event)
             (c : nat) (u p n : option string) (port : option Z),
         typed st = pre ++ ip :: typed st'
         /\ trace st'
            = trace st ++ evs
              ++ [EvQueryName n DEFAULT_TIMEOUT; EvNetBIOSClose;
                  EvPrint resolution_failed; EvInput "IP: ";
                  EvSMBConnection c u p DEFAULT_CLIENTNAME n;
                  EvConnect c (Some ip) port DEFAULT_TIMEOUT]
              ++ rest
         /\ Forall (fun ev => is_connect ev = false) evs
         /\ r = match answer with
                | Connected _ => Ok tt
                | ConnectFailed e _ => Raise e
                end).
Proof.
  intros Hip Hq. rewrite connect_eq. cbv zeta.
  set (st1 := match conn st with
              | Some c => set_conns (<[c := Closed]> (conns st))
                            (add_event (EvClose c) st)
              | None => st
              end).
  assert (Htyped1 : typed st1 = typed st)
    by (unfold st1; destruct (conn st); reflexivity).
  assert (Htrace1 : exists cl, trace st1 = trace st ++ cl
                               /\ Forall (fun ev => is_connect ev = false) cl).
  { unfold st1. destruct (conn st) as [c|].
    - exists [EvClose c]. split; [reflexivity|repeat constructor].
    - exists []. split; [symmetry; apply app_nil_r|constructor]. }
  destruct Htrace1 as (cl & Htrace1 & Hcl). clearbody st1.
  destruct (complete_config query config st1) as [[config'|e] st2] eqn:Hcc.
  - intros Hrun. right.
    destruct (complete_config_unresolved _ _ _ _ _ Hip Hq Hcc)
      as (ip & pre & evs & Hip' & Hty & Htr & Hu).
    exists ip, pre, (cl ++ evs),
      (match answer with
       | Connected _ => [EvPrint ("Connected to " +:+ ip)]
       | ConnectFailed _ _ => []
       end),
      (List.length (conns st2)), (Config.username config'),
      (Config.password config'), (Config.servername config'),
      (Config.serverport config').
    rewrite Hip' in Hrun.
    destruct answer as [auth|e [|]]; injection Hrun as <- <-; simpl_state;
      (split; [congruence|]);
      (split; [rewrite Htr, Htrace1, <- !app_assoc; reflexivity|]);
      (split; [|reflexivity]);
      (apply Forall_app; split; [exact Hcl|apply Forall_user_not_connect, Hu]).
  - intros [= <- <-]. left.
    destruct (complete_config_eof_only _ _ _ _ _ Hcc) as [-> Hty].
    apply complete_config_user_only in Hcc.
    destruct Hcc as (_ & _ & _ & _ & _ & _ & _ & evs & Htr & Hu).
    split; [reflexivity|]. split; [exact Hty|].
    exists (cl ++ evs). split; [rewrite Htr, Htrace1, app_assoc; reflexivity|].
    apply Forall_app. split; [exact Hcl|apply Forall_user_not_connect, Hu].
Qed.

(** The claim C1 on a run: started as [3dssmb.py MY3DS user secret],
    the name service finding no address, the user typing one: [__init__]
    returns, no error is raised, and the transport connection to the
    typed address is made. *)
Lemma failed_resolution_still_connects :
  Config.serverip config_by_name = None
  /\ unresolved (Some [])
  /\ fst (__init__ (Some []) (Connected true) config_by_name
            (initial_state ["192.168.1.5"] ∅ "/"))
     = Ok tt
  /\ trace (snd (__init__ (Some []) (Connected true) config_by_name
                   (initial_state ["192.168.1.5"] ∅ "/")))
     = [EvQueryName (Some "MY3DS") 5; EvNetBIOSClose;
        EvPrint resolution_failed; EvInput "IP: ";
        EvSMBConnection 0 (Some "user") (Some "secret") "3DSCLIENT" (Some "MY3DS");
        EvConnect 0 (Some "192.168.1.5") (Some 139) 5;
        EvPrint "Connected to 192.168.1.5"].
Proof.
  split; [reflexivity|]. split; [exact Logic.I|].
  split; vm_compute; reflexivity.
Qed.

Lemma unresolved_name_witness :
  (fst (_connect (Some []) (Connected true) config_by_name
          (initial_state ["192.168.1.5"] ∅ "/")) = Raise EOFError
   /\ typed (snd (_connect (Some []) (Connected true) config_by_name
                    (initial_state ["192.168.1.5"] ∅ "/"))) = []
   /\ exists evs,
        trace (snd (_connect (Some []) (Connected true) config_by_name
                      (initial_state ["192.168.1.5"] ∅ "/")))
        = trace (initial_state ["192.168.1.5"] ∅ "/") ++ evs
        /\ Forall (fun ev => is_connect ev = false) evs)
  \/ (exists (ip : string) (pre : list string) (evs rest : list event)
             (c : nat) (u p n : option string) (port : option Z),
         typed (initial_state ["192.168.1.5"] ∅ "/")
         = pre ++ ip :: typed (snd (_connect (Some []) (Connected true)
                                      config_by_name
                                      (initial_state ["192.168.1.5"] ∅ "/")))
         /\ trace (snd (_connect (Some []) (Connected true) config_by_name
                          (initial_state ["192.168.1.5"] ∅ "/")))
            = trace (initial_state ["192.168.1.5"] ∅ "/") ++ evs
              ++ [EvQueryName n DEFAULT_TIMEOUT; EvNetBIOSClose;
                  EvPrint resolution_failed; EvInput "IP: ";
                  EvSMBConnection c u p DEFAULT_CLIENTNAME n;
                  EvConnect c (Some ip) port DEFAULT_TIMEOUT]
              ++ rest
         /\ Forall (fun ev => is_connect ev = false) evs
         /\ fst (_connect (Some []) (Connected true) config_by_name
                   (initial_state ["192.168.1.5"] ∅ "/"))
            = match Connected true with
              | Connected _ => Ok tt
              | ConnectFailed e _ => Raise e
              end).
Proof.
  apply (unresolved_name_asks_for_address (Some []) (Connected true)
           config_by_name (initial_state ["192.168.1.5"] ∅ "/"));
    [reflexivity|exact Logic.I|apply surjective_pairing].
Defined.

(** ** The session of a running shell *)

Lemma same_session_refl (st : state) : same_session st st.
Proof. split; reflexivity. Qed.

Lemma same_session_trans (a b c : state) :
  same_session a b -> same_session b c -> same_session a c.
Proof. unfold same_session. intros [] []. split; congruence. Qed.

Lemma same_session_event (ev : event) (st : state) :
  same_session st (add_event ev st).
Proof. split; reflexivity. Qed.

Lemma same_session_files (m : gmap string (list Byte.byte)) (st : state) :
  same_session st (set_files m st).
Proof. split; reflexivity. Qed.

Ltac session_step :=
  first
    [ apply (keeps_ret same_session same_session_refl)
    | apply (keeps_raise same_session same_session_refl)
    | apply (keeps_lift same_session same_session_refl)
    | apply (keeps_gets same_session same_session_refl)
    | apply (keeps_print same_session same_session_event)
    | apply (keeps_emit same_session same_session_event)
    | apply (keeps_print_lines same_session same_session_refl
               same_session_trans same_session_event)
    | apply (keeps_conn_call same_session same_session_refl
               same_session_trans same_session_event)
    | apply (keeps_path_for same_session same_session_refl same_session_trans)
    | apply (keeps_read_cur_dir same_session same_session_refl
               same_session_trans)
    | apply (keeps_lpath_for same_session same_session_refl same_session_trans)
    | apply (keeps_retrieveFile same_session same_session_refl
               same_session_trans same_session_event same_session_files)
    | apply (keeps_with_open same_session same_session_refl
               same_session_trans same_session_event same_session_files)
    | apply (keeps_for_each same_session same_session_refl same_session_trans);
      intros
    | apply (keeps_try same_session same_session_trans);
      [|intros]
    | apply (keeps_modify same_session); intros; split; reflexivity
    | apply (keeps_bind same_session same_session_trans); [|intros] ].

(** No handler closes, replaces or makes a connection. *)
Lemma onecmd_same_session (host : localhost) (cmd : command) :
  keeps same_session (onecmd host cmd).
Proof.
  destruct cmd as [answer args|answer args|answers args|answer args
                  |answer args|open_answer answer args|answers args
                  |open_answer store_answer args|answers args|answers args
                  | |answers args| |info| |text];
    cbn [onecmd];
    unfold do_ls, do_lls, do_mkdir, do_cd, _change_dir, status_name, do_lcd,
      do_get,
      do_mget, download, do_put, do_mput, upload, do_rm, do_rmdir, do_mv,
      do_pwd, do_info, do_quit, do_help;
    try (destruct args as [|? [|? [|? ?]]]);
    repeat session_step.
Qed.

Lemma init_eq (query : option (list string)) (answer : connect_answer)
    (config : Config.t) (st : state) :
  __init__ query answer config st
  = _connect query answer config (set_conn None st).
Proof. reflexivity. Qed.

(** In a running shell a session is open, the one the shell holds. *)
Lemma reachable_session (host : localhost) (allowed : command -> Prop)
    (st : state) :
  reachable_by host allowed st ->
  session_inv st
  /\ exists c, conn st = Some c /\ conns st !! c = Some Live.
Proof.
  induction 1 as [typed files cwd query answer config st Hinit
                 |st cmd stop st' _ IH _ Hcmd].
  - rewrite init_eq in Hinit.
    assert (H0 : session_inv (set_conn None (initial_state typed files cwd))).
    { split; [intros i Hi; discriminate Hi|intros c Hc; discriminate Hc]. }
    destruct (connect_session_step _ _ _ _ _ _ H0 Hinit) as (Hinv & _ & _ & Hok).
    split; [exact Hinv|]. destruct (Hok eq_refl) as (Hc & Hl & _). eauto.
  - apply onecmd_same_session in Hcmd as [Hc Hcs].
    destruct IH as [[Hlive Hlt] (c & Hconn & Hl)].
    split; [split|].
    + intros i Hi. rewrite Hc. apply Hlive. rewrite <- Hcs. exact Hi.
    + intros c' Hc'. rewrite Hcs. apply Hlt. rewrite <- Hc. exact Hc'.
    + exists c. rewrite Hc, Hcs. auto.
Qed.

(** C6, as the code has it: [_connect] on a shell that holds a
    connection object closes it first and once, before the new
    connection is made and connected, whether the session of that object
    is open or not (the test is [self.conn is not None]: an object whose
    [connect] failed, or that was closed before, is closed as well); it
    closes nothing exactly when the shell holds no object.  However
    [_connect] ends, the only connection that can be live afterwards is
    the one the shell holds (at most one session, none leaked), and when
    it returns the shell holds a new, live connection.  A running shell
    always holds a connection, and its session is open. *)
Theorem connect_closes_held_session :
  (forall (query : option (list string)) (answer : connect_answer)
          (config : Config.t) (st st' : state) (r : result unit),
      session_inv st ->
      _connect query answer config st = (r, st') ->
      session_inv st'
      /\ (forall c, conn st = Some c ->
            conns st' !! c = Some Closed
            /\ exists evs, trace st' = trace st ++ EvClose c :: evs
                           /\ Forall (fun ev => is_close ev = false) evs)
      /\ (conn st = None ->
            exists evs, trace st' = trace st ++ evs
                        /\ Forall (fun ev => is_close ev = false) evs)
      /\ (r = Ok tt ->
            conn st' = Some (List.length (conns st))
            /\ conns st' !! List.length (conns st) = Some Live))
  /\ (forall (host : localhost) (st : state),
         reachable host st ->
         session_inv st
         /\ exists c, conn st = Some c /\ conns st !! c = Some Live).
Proof.
  split.
  - intros query answer config st st' r Hinv Hrun.
    destruct (connect_session_step _ _ _ _ _ _ Hinv Hrun) as (H1 & H2 & H3 & H4).
    split; [exact H1|]. split; [exact H2|]. split; [exact H3|].
    intros Hr. destruct (H4 Hr) as (Ha & Hb & _). auto.
  - intros host st. apply reachable_session.
Qed.

Lemma connect_closes_held_witness :
  session_inv started
  /\ conns (snd (_connect None (Connected true) config_by_ip started)) !! O
     = Some Closed.
Proof.
  assert (H : session_inv started).
  { split.
    - intros [|i] Hi; [reflexivity|destruct i; discriminate Hi].
    - intros c [= <-]. vm_compute. lia. }
  split; [exact H|].
  destruct (proj1 connect_closes_held_session None (Connected true)
              config_by_ip started _ _ H (surjective_pairing _)) as [_ [Hc _]].
  exact (proj1 (Hc O eq_refl)).
Defined.

(** The claim C6 read for every shell: after an [__init__] whose
    [connect] was refused the shell holds a connection object that never
    had a session; no session is open, and [_connect] calls [close] all
    the same. *)
Lemma connect_closes_without_open_session :
  let st := snd (__init__ None (ConnectFailed OSError false) config_by_ip
                   (initial_state [] ∅ "/")) in
  conn st = Some O /\ conns st = [Fresh]
  /\ (forall i, conns st !! i <> Some Live)
  /\ exists evs,
       trace (snd (_connect None (Connected true) config_by_ip st))
       = trace st ++ EvClose 0 :: evs.
Proof.
  cbv zeta. split; [vm_compute; reflexivity|].
  split; [vm_compute; reflexivity|]. split.
  - intros [|[|i]]; vm_compute; discriminate.
  - eexists. vm_compute. reflexivity.
Qed.

(** ** The cursor of a running shell *)

Lemma driveless_splitdrive (p : string) :
  driveless p -> ntpath.splitdrive p = (EmptyString, p).
Proof.
  unfold driveless. destruct (ntpath.splitdrive p) as [d r] eqn:Hs.
  cbn [fst]. intros ->. apply splitdrive_append in Hs.
  rewrite append_nil_l in Hs. subst r. reflexivity.
Qed.

Lemma plain_arg_driveless (a : string) : plain_arg a = true -> driveless a.
Proof.
  unfold plain_arg, driveless. intros [Hcol Hsep]%andb_prop.
  rewrite splitdrive_no_drive; [reflexivity|].
  destruct a as [|x [|y a]]; try reflexivity.
  rewrite Hsep. cbn [all_chars] in Hcol.
  apply andb_prop in Hcol as [_ [Hy _]%andb_prop]. rewrite Hy. reflexivity.
Qed.

(** [join] of two paths without a drive. *)
Lemma join_no_drives (d a : string) :
  driveless d -> driveless a ->
  ntpath.join d a
  = if ntpath.starts_with_sep a then a
    else (if ntpath.ends_without_sep d then d +:+ String Str.sep EmptyString
          else d) +:+ a.
Proof.
  intros Hd%driveless_splitdrive Ha%driveless_splitdrive.
  unfold ntpath.join. rewrite Hd, Ha.
  destruct (ntpath.starts_with_sep a) eqn:Hs.
  - cbn [Str.nonempty negb orb]. rewrite Hs. cbn [negb].
    rewrite andb_false_r. cbn [andb]. apply append_nil_l.
  - cbn [Str.nonempty negb andb]. rewrite andb_false_r. cbn [andb].
    apply append_nil_l.
Qed.

Lemma join_rooted (d a : string) :
  cursor_ok d = true -> plain_arg a = true ->
  rooted (ntpath.join d a) = true.
Proof.
  unfold cursor_ok. intros [Hd Hdcol]%andb_prop Ha.
  rewrite join_no_drives
    by (first [apply normalized_absolute_driveless, Hd
              |apply plain_arg_driveless, Ha]).
  pose proof (normalized_absolute_single_root d Hd) as Hroot.
  unfold plain_arg in Ha. apply andb_prop in Ha as [Hacol Hasep].
  unfold rooted.
  destruct (ntpath.starts_with_sep a) eqn:Hs.
  - rewrite Hacol, andb_true_r.
    destruct a as [|x a]; [discriminate Hs|]. cbn [ntpath.starts_with_sep] in Hs.
    cbn [single_root]. rewrite Hs. cbn [andb].
    destruct a as [|y a]; [reflexivity|].
    rewrite Hs in Hasep. cbn [andb] in Hasep. rewrite Hasep.
    cbn [all_chars] in Hacol.
    apply andb_prop in Hacol as [_ [Hy _]%andb_prop]. rewrite Hy. reflexivity.
  - destruct d as [|s rest]; [discriminate Hd|].
    cbn [normalized_absolute] in Hd.
    apply andb_prop in Hd as [[Hsep _]%andb_prop _].
    apply Ascii.eqb_eq in Hsep. subst s.
    assert (Hcolsep : not_colon Str.sep = true) by reflexivity.
    destruct rest as [|b rest].
    + (* the cursor is the root *)
      replace (ntpath.ends_without_sep (String Str.sep EmptyString)) with false
        by reflexivity.
      rewrite append_cons, append_nil_l.
      cbn [single_root all_chars]. rewrite Hacol, Hcolsep.
      replace (Str.is_sep Str.sep) with true by reflexivity. cbn [andb].
      rewrite andb_true_r.
      destruct a as [|y a]; [reflexivity|].
      cbn [ntpath.starts_with_sep] in Hs. rewrite Hs.
      cbn [all_chars] in Hacol. apply andb_prop in Hacol as [Hy _].
      rewrite Hy. reflexivity.
    + (* the cursor is a directory below it *)
      assert (Hshape : exists t,
                 (if ntpath.ends_without_sep (String Str.sep (String b rest))
                  then String Str.sep (String b rest) +:+ String Str.sep EmptyString
                  else String Str.sep (String b rest)) +:+ a
                 = String Str.sep (String b t)
                 /\ all_chars not_colon t = true).
      { cbn [all_chars] in Hdcol.
        apply andb_prop in Hdcol as [_ [_ Hrest]%andb_prop].
        destruct (ntpath.ends_without_sep _).
        - exists ((rest +:+ String Str.sep EmptyString) +:+ a).
          split; [rewrite !append_cons; reflexivity|].
          rewrite !all_chars_append. cbn [all_chars].
          rewrite Hrest, Hcolsep, Hacol. reflexivity.
        - exists (rest +:+ a). split; [rewrite !append_cons; reflexivity|].
          rewrite all_chars_append, Hrest, Hacol. reflexivity. }
      destruct Hshape as (t & -> & Ht).
      cbn [single_root] in Hroot |- *. rewrite Hroot.
      cbn [all_chars]. rewrite Hcolsep, Ht.
      cbn [single_root] in Hroot.
      apply andb_prop in Hroot as [_ [_ Hb]%andb_prop]. rewrite Hb. reflexivity.
Qed.

(** The path [do_cd] hands to [_change_dir]. *)
Lemma cd_path_ok (d a : string) :
  cursor_ok d = true -> plain_arg a = true ->
  cursor_ok (ntpath.normpath (ntpath.join d a)) = true.
Proof. intros Hd Ha. apply normpath_rooted, join_rooted; assumption. Qed.

Lemma do_cd_cursor (answer : result (list SharedFile)) (args : list string)
    (st st' : state) (r : result bool) :
  do_cd answer args st = (r, st') ->
  cur_dir st' = cur_dir st
  \/ (exists entries, answer = Ok entries) /\ r = Ok false
     /\ (args = [] /\ cur_dir st' = Some "\"
         \/ exists d a, args = [a] /\ cur_dir st = Some d
                        /\ cur_dir st'
                           = Some (ntpath.normpath (ntpath.join d a))).
Proof.
  rewrite do_cd_eq. destruct args as [|a [|b args]].
  - rewrite change_dir_eq. destruct (conn st) as [c|]; [|intros [= <- <-]; auto].
    cbv zeta. destruct answer as [entries|[]]; intros [= <- <-]; auto.
    right. eauto 10.
  - destruct (cur_dir st) as [d|] eqn:Hd; [|intros [= <- <-]; auto].
    rewrite change_dir_eq. destruct (conn st) as [c|]; [|intros [= <- <-]; auto].
    cbv zeta. destruct answer as [entries|[]]; intros [= <- <-]; auto.
    right. split; [eauto|]. split; [reflexivity|]. right. eauto 10.
  - intros [= <- <-]. auto.
Qed.

(** A handler that changes the cursor is a [cd] whose [listPath]
    succeeded. *)
Lemma onecmd_cursor (host : localhost) (cmd : command) (st st' : state)
    (r : result bool) :
  onecmd host cmd st = (r, st') ->
  cur_dir st' <> cur_dir st ->
  successful_cd cmd /\ r = Ok false.
Proof.
  intros Hrun Hne.
  destruct cmd; cbn [onecmd] in Hrun;
    try (exfalso; apply Hne; revert Hrun;
         first [ apply do_ls_same_cursor | apply do_lls_same_cursor
               | apply do_mkdir_same_cursor | apply do_lcd_same_cursor
               | apply do_get_same_cursor | apply do_mget_same_cursor
               | apply do_put_same_cursor | apply do_mput_same_cursor
               | apply do_rm_same_cursor | apply do_mv_same_cursor
               | apply do_pwd_same_cursor | apply do_info_same_cursor
               | apply do_help_same_cursor
               | (intros [= <- <-]; reflexivity) ]).
  apply do_cd_cursor in Hrun as [Hsame|((entries & ->) & -> & _)];
    [contradiction|]. split; [exact Logic.I|reflexivity].
Qed.

Lemma connect_cursor (query : option (list string)) (answer : connect_answer)
    (config : Config.t) (st st' : state) :
  _connect query answer config st = (Ok tt, st') -> cur_dir st' = Some "\".
Proof.
  rewrite connect_eq. cbv zeta.
  destruct (complete_config query config _) as [[config'|e] st2]; [|discriminate].
  destruct answer as [auth|e open]; [|discriminate].
  intros [= <-]. reflexivity.
Qed.

Lemma reachable_plain_cursor (host : localhost) (st : state) :
  reachable_by host plain_cd st ->
  exists d, cur_dir st = Some d /\ cursor_ok d = true.
Proof.
  induction 1 as [typed files cwd query answer config st Hinit
                 |st cmd stop st' _ IH Hplain Hcmd].
  - rewrite init_eq in Hinit. apply connect_cursor in Hinit.
    exists "\". split; [exact Hinit|reflexivity].
  - destruct IH as (d & Hd & Hok).
    destruct (decide (cur_dir st' = cur_dir st)) as [Heq|Hne];
      [exists d; split; [congruence|exact Hok]|].
    destruct (onecmd_cursor _ _ _ _ _ Hcmd Hne) as [Hcd _].
    destruct cmd; try contradiction. cbn [onecmd plain_cd] in Hcmd, Hplain.
    apply do_cd_cursor in Hcmd as [Hsame|(_ & _ & [[_ Hroot]|(d' & a & -> & Hd' & Hnew)])];
      [contradiction| |].
    + exists "\". split; [exact Hroot|reflexivity].
    + exists (ntpath.normpath (ntpath.join d' a)). split; [exact Hnew|].
      apply cd_path_ok; [congruence|]. inversion Hplain; assumption.
Qed.

(** C7, as the code has it: the cursor is set to the root ["\"] by every
    [_connect] that returns; a handler that changes it is a [cd] whose
    [listPath] succeeded; and in a running shell whose [cd] arguments are
    plain (no colon, not two separators in front) the cursor is a
    normalized absolute backslash-separated path. *)
Theorem cursor_root_then_cd_only :
  (forall (query : option (list string)) (answer : connect_answer)
          (config : Config.t) (st st' : state),
      _connect query answer config st = (Ok tt, st') ->
      cur_dir st' = Some "\")
  /\ (forall (host : localhost) (cmd : command) (st st' : state)
             (r : result bool),
         onecmd host cmd st = (r, st') ->
         cur_dir st' <> cur_dir st ->
         successful_cd cmd /\ r = Ok false)
  /\ (forall (host : localhost) (st : state),
         reachable_by host plain_cd st ->
         exists d, cur_dir st = Some d
                   /\ normalized_absolute d = true
                   /\ all_chars not_colon d = true).
Proof.
  split; [exact connect_cursor|]. split; [exact onecmd_cursor|].
  intros host st H. destruct (reachable_plain_cursor host st H) as (d & Hd & Hok).
  exists d. split; [exact Hd|]. apply andb_prop in Hok. exact Hok.
Qed.

Lemma started_reachable (host : localhost) (allowed : command -> Prop) :
  reachable_by host allowed started.
Proof.
  eapply (reach_init host allowed [] ∅ "/" None (Connected true) config_by_ip).
  vm_compute. reflexivity.
Qed.

Lemma cursor_root_then_cd_only_witness :
  exists d,
    cur_dir (snd (onecmd (posix.host "/home/user") (Cd (Ok []) ["DCIM/../Nintendo 3DS/"])
                    started))
    = Some d
    /\ normalized_absolute d = true
    /\ all_chars not_colon d = true.
Proof.
  apply (proj2 (proj2 cursor_root_then_cd_only) (posix.host "/home/user")).
  eapply (reach_cmd _ _ started (Cd (Ok []) ["DCIM/../Nintendo 3DS/"]) false).
  - apply started_reachable.
  - repeat constructor.
  - vm_compute. reflexivity.
Defined.

(** The claim C7 read for every run: after [cd C:foo], the server
    accepting the path, the cursor is ["C:foo"], which is not an absolute
    path. *)
Lemma cursor_not_absolute_after_cd_drive :
  reachable (posix.host "/home/user") after_cd_drive
  /\ cur_dir after_cd_drive = Some "C:foo"
  /\ normalized_absolute "C:foo" = false.
Proof.
  split; [|split; vm_compute; reflexivity].
  eapply (reach_cmd _ _ started (Cd (Ok []) ["C:foo"]) false).
  - apply started_reachable.
  - exact Logic.I.
  - vm_compute. reflexivity.
Qed.

(** ** [do_get] *)

(** The download, call by call, when the file opens. *)
Lemma download_eq (answer : retrieve_answer) (src dest : string)
    (st : state) :
  download (Ok tt) answer src dest st =
  let st1 := set_files (<[dest := []]> (files st))
               (add_event (EvOpen dest "wb") st) in
  match conn st with
  | None => (Raise AttributeError, add_event (EvCloseFile dest) st1)
  | Some c =>
      (outcome answer,
       add_event (EvCloseFile dest)
         (set_files (alter (fun old => old ++ written answer) dest (files st1))
            (add_event (EvRetrieveFile c (service st) src dest) st1)))
  end.
Proof.
  cbv [download with_open retrieveFile bind emit modify lift gets raise ret].
  replace (String.eqb "wb" "wb") with true by reflexivity. cbv beta iota.
  simpl_state. destruct (conn st); reflexivity.
Qed.

(** C8: a [get] whose [retrieveFile] fails after writing [N] bytes to the
    file leaves the local file, holding these [N] bytes and nothing else:
    the file is created or emptied before the transfer, [retrieveFile] is
    called once, the file is closed, not removed, and the exception goes
    on; no other file is touched. *)
Theorem get_failure_leaves_partial_file
    (host : localhost) (answer : retrieve_answer) (args : list string)
    (st : state) (e : exn) (c : nat) (d : string) :
  conn st = Some c ->
  cur_dir st = Some d ->
  List.length args = 1%nat \/ List.length args = 2%nat ->
  outcome answer = Raise e ->
  exists (src dest : string) (st' : state),
    src = ntpath.normpath (ntpath.join d (hd EmptyString args))
    /\ dest = get_dest host (cwd st) src args
    /\ do_get host (Ok tt) answer args st = (Raise e, st')
    /\ files st' !! dest = Some (written answer)
    /\ (forall p, p <> dest -> files st' !! p = files st !! p)
    /\ trace st'
       = trace st ++ [EvOpen dest "wb";
                      EvRetrieveFile c (service st) src dest;
                      EvCloseFile dest].
Proof.
  intros Hc Hd Hlen Hout.
  assert (Hrun : forall src dest,
             exists st',
               download (Ok tt) answer src dest st = (Raise e, st')
               /\ files st' !! dest = Some (written answer)
               /\ (forall p, p <> dest -> files st' !! p = files st !! p)
               /\ trace st'
                  = trace st ++ [EvOpen dest "wb";
                                 EvRetrieveFile c (service st) src dest;
                                 EvCloseFile dest]).
  { intros src dest. rewrite download_eq, Hc, Hout. cbv zeta.
    eexists. split; [reflexivity|]. simpl_state. split; [|split].
    - rewrite lookup_alter_eq, lookup_insert_eq. reflexivity.
    - intros p Hp. rewrite lookup_alter_ne, lookup_insert_ne by congruence.
      reflexivity.
    - rewrite <- !app_assoc. reflexivity. }
  destruct args as [|a [|b [|x args]]]; cbn in Hlen; try lia.
  - destruct (Hrun (ntpath.normpath (ntpath.join d a))
                (get_dest host (cwd st) (ntpath.normpath (ntpath.join d a)) [a]))
      as (st' & Hdl & Hfile & Hother & Htrace).
    eexists (ntpath.normpath (ntpath.join d a)), _, st'.
    split; [reflexivity|]. split; [reflexivity|]. split; [|auto].
    unfold do_get. cbv [bind _lpath_for gets ret]. rewrite path_for_eq, Hd.
    cbv beta iota. unfold get_dest in Hdl. rewrite Hdl. reflexivity.
  - destruct (Hrun (ntpath.normpath (ntpath.join d a))
                (get_dest host (cwd st) (ntpath.normpath (ntpath.join d a)) [a; b]))
      as (st' & Hdl & Hfile & Hother & Htrace).
    eexists (ntpath.normpath (ntpath.join d a)), _, st'.
    split; [reflexivity|]. split; [reflexivity|]. split; [|auto].
    unfold do_get. cbv [bind _lpath_for gets ret]. rewrite path_for_eq, Hd.
    cbv beta iota. unfold get_dest in Hdl. rewrite Hdl. reflexivity.
Qed.

Lemma get_failure_witness :
  exists (src dest : string) (st' : state),
    src = ntpath.normpath (ntpath.join "\" (hd EmptyString ["DCIM/a.jpg"]))
    /\ dest = get_dest (posix.host "/home/user") (cwd started) src ["DCIM/a.jpg"]
    /\ do_get (posix.host "/home/user") (Ok tt) three_bytes_then_timeout
         ["DCIM/a.jpg"] started
       = (Raise (LibraryError "SMBTimeout"), st')
    /\ files st' !! dest = Some (written three_bytes_then_timeout)
    /\ (forall p, p <> dest -> files st' !! p = files started !! p)
    /\ trace st'
       = trace started ++ [EvOpen dest "wb";
                           EvRetrieveFile 0 (service started) src dest;
                           EvCloseFile dest].
Proof.
  apply (get_failure_leaves_partial_file (posix.host "/home/user")
           three_bytes_then_timeout ["DCIM/a.jpg"] started
           (LibraryError "SMBTimeout") 0 "\");
    [reflexivity|reflexivity|left; reflexivity|reflexivity].
Defined.

Example get_failure_example :
  files (snd (do_get (posix.host "/home/user") (Ok tt) three_bytes_then_timeout
                ["DCIM/a.jpg"] started)) !! "/a.jpg"
  = Some [Byte.x01; Byte.x02; Byte.x03].
Proof. vm_compute. reflexivity. Qed.

(** * Further properties *)

(** ** [complete_config]: what is asked, what is looked up *)

Lemma events_only_refl (P : event -> bool) (st : state) : events_only P st st.
Proof.
  unfold events_only. repeat split; try reflexivity.
  - exists []. reflexivity.
  - exists []. split; [symmetry; apply app_nil_r|constructor].
Qed.

Lemma events_only_trans (P : event -> bool) (a b c : state) :
  events_only P a b -> events_only P b c -> events_only P a c.
Proof.
  unfold events_only.
  intros (H1 & H2 & H3 & H4 & H5 & H6 & [p1 Hp1] & evs1 & Ht1 & Hu1)
         (G1 & G2 & G3 & G4 & G5 & G6 & [p2 Hp2] & evs2 & Ht2 & Hu2).
  repeat split; try congruence.
  - exists (p1 ++ p2). rewrite Hp1, Hp2, app_assoc. reflexivity.
  - exists (evs1 ++ evs2). split.
    + rewrite Ht2, Ht1, app_assoc. reflexivity.
    + apply Forall_app. split; assumption.
Qed.

Lemma events_only_event (P : event -> bool) (ev : event) (st : state) :
  P ev = true -> events_only P st (add_event ev st).
Proof.
  intros Hev. unfold events_only. cbn. repeat split.
  - exists []. reflexivity.
  - exists [ev]. split; [reflexivity|repeat constructor; exact Hev].
Qed.

Lemma events_only_read (P : event -> bool) (line : string)
    (rest : list string) (st : state) :
  typed st = line :: rest -> events_only P st (set_typed rest st).
Proof.
  intros Ht. unfold events_only. cbn. repeat split.
  - exists [line]. exact Ht.
  - exists []. split; [symmetry; apply app_nil_r|constructor].
Qed.

Lemma events_only_weaken (P Q : event -> bool) (st st' : state) :
  (forall ev, P ev = true -> Q ev = true) ->
  events_only P st st' -> events_only Q st st'.
Proof.
  intros HPQ (H1 & H2 & H3 & H4 & H5 & H6 & Hp & evs & Ht & Hu).
  unfold events_only. repeat split; try assumption.
  exists evs. split; [exact Ht|]. eapply Forall_impl; [exact Hu|exact HPQ].
Qed.

(** One question of [complete_config], asked with [input]. *)
Lemma ask_input_spec (o : option string) (prompt : string) (st st1 : state)
    (r : result (option string)) :
  (match o with
   | None => s <- input prompt ;; ret (Some s)
   | Some s => ret (Some s)
   end) st = (r, st1) ->
  events_only prompt_event st st1
  /\ forall v, r = Ok v ->
       is_Some v /\ kept o v /\ typed st = asked o v ++ typed st1.
Proof.
  destruct o as [s|].
  - intros [= <- <-]. split; [apply events_only_refl|].
    intros v [= <-]. split; [eauto|]. split; [intros x Hx; exact Hx|reflexivity].
  - cbv [bind ret]. rewrite input_eq.
    pose proof (events_only_event prompt_event (EvInput prompt) st eq_refl) as H1.
    destruct (typed st) as [|line rest] eqn:Ht; intros [= <- <-].
    + split; [exact H1|]. intros v [=].
    + split.
      * eapply events_only_trans; [exact H1|]. eapply events_only_read. exact Ht.
      * intros v [= <-]. split; [eauto|]. split; [intros x [=]|reflexivity].
Qed.

(** And the one asked with [getpass]. *)
Lemma ask_getpass_spec (o : option string) (st st1 : state)
    (r : result (option string)) :
  (match o with
   | None => s <- getpass ;; ret (Some s)
   | Some s => ret (Some s)
   end) st = (r, st1) ->
  events_only prompt_event st st1
  /\ forall v, r = Ok v ->
       is_Some v /\ kept o v /\ typed st = asked o v ++ typed st1.
Proof.
  destruct o as [s|].
  - intros [= <- <-]. split; [apply events_only_refl|].
    intros v [= <-]. split; [eauto|]. split; [intros x Hx; exact Hx|reflexivity].
  - cbv [bind ret]. rewrite getpass_eq.
    pose proof (events_only_event prompt_event EvGetpass st eq_refl) as H1.
    destruct (typed st) as [|line rest] eqn:Ht; intros [= <- <-].
    + split; [exact H1|]. intros v [=].
    + split.
      * eapply events_only_trans; [exact H1|]. eapply events_only_read. exact Ht.
      * intros v [= <-]. split; [eauto|]. split; [intros x [=]|reflexivity].
Qed.

(** The step of [complete_config] that settles the address, from the
    state [st] the first three questions leave. *)
Lemma address_step_spec (query : option (list string)) (given : option string)
    (servername : option string) (st st' : state) (v : option string) :
  (match given with
   | None =>
       emit (EvQueryName servername DEFAULT_TIMEOUT) ;;;
       emit EvNetBIOSClose ;;;
       match query with
       | Some [ip] => ret (Some ip)
       | None | Some [] | Some (_ :: _ :: _) =>
           print "[Error] Name resolution failed. Please enter the 3DS IP manually." ;;;
           s <- input "IP: " ;; ret (Some s)
       end
   | Some s => ret (Some s)
   end) st = (Ok v, st') ->
  is_Some v /\ kept given v
  /\ typed st = asked_ip query given v ++ typed st'
  /\ match given, query with
     | Some _, _ => st' = st
     | None, Some [ip] =>
         v = Some ip
         /\ st' = add_event EvNetBIOSClose
                    (add_event (EvQueryName servername DEFAULT_TIMEOUT) st)
     | None, _ =>
         st' = set_typed (typed st')
                 (add_event (EvInput "IP: ")
                    (add_event (EvPrint resolution_failed)
                       (add_event EvNetBIOSClose
                          (add_event (EvQueryName servername DEFAULT_TIMEOUT) st))))
     end.
Proof.
  destruct given as [s|].
  - intros [= <- <-]. split; [eauto|]. split; [intros x Hx; exact Hx|].
    split; reflexivity.
  - assert (Hfail :
      (emit (EvQueryName servername DEFAULT_TIMEOUT) ;;;
       emit EvNetBIOSClose ;;;
       print resolution_failed ;;; (s <- input "IP: " ;; ret (Some s))) st
      = (Ok v, st') ->
      is_Some v /\ kept None v /\ typed st = asked None v ++ typed st'
      /\ st' = set_typed (typed st')
                 (add_event (EvInput "IP: ")
                    (add_event (EvPrint resolution_failed)
                       (add_event EvNetBIOSClose
                          (add_event (EvQueryName servername DEFAULT_TIMEOUT) st))))).
    { cbv [bind print emit modify ret]. rewrite input_eq.
      change (typed (add_event _ (add_event _ (add_event _ st)))) with (typed st).
      destruct (typed st) as [|line rest] eqn:Ht; [discriminate|].
      intros [= <- <-]. split; [eauto|]. split; [intros x [=]|].
      split; reflexivity. }
    destruct query as [[|a [|b l]]|]; try exact Hfail.
    intros [= <- <-]. split; [eauto|]. split; [intros x [=]|].
    split; [reflexivity|]. split; reflexivity.
Qed.

(** What [complete_config] that returns has done, step by step. *)
Lemma complete_config_steps (query : option (list string))
    (config config' : Config.t) (st st' : state) :
  complete_config query config st = (Ok config', st') ->
  exists st3,
    events_only prompt_event st st3
    /\ typed st = asked (Config.servername config) (Config.servername config')
                  ++ asked (Config.username config) (Config.username config')
                  ++ asked (Config.password config) (Config.password config')
                  ++ typed st3
    /\ is_Some (Config.servername config')
    /\ is_Some (Config.username config')
    /\ is_Some (Config.password config')
    /\ kept (Config.servername config) (Config.servername config')
    /\ kept (Config.username config) (Config.username config')
    /\ kept (Config.password config) (Config.password config')
    /\ Config.serverport config'
       = Some (default DEFAULT_PORT (Config.serverport config))
    /\ Config.service config'
       = Some (default DEFAULT_SERVICE (Config.service config))
    /\ is_Some (Config.serverip config')
    /\ kept (Config.serverip config) (Config.serverip config')
    /\ typed st3 = asked_ip query (Config.serverip config)
                     (Config.serverip config') ++ typed st'
    /\ match Config.serverip config, query with
       | Some _, _ => st' = st3
       | None, Some [ip] =>
           Config.serverip config' = Some ip
           /\ st' = add_event EvNetBIOSClose
                      (add_event (EvQueryName (Config.servername config')
                                    DEFAULT_TIMEOUT) st3)
       | None, _ =>
           st' = set_typed (typed st')
                   (add_event (EvInput "IP: ")
                      (add_event (EvPrint resolution_failed)
                         (add_event EvNetBIOSClose
                            (add_event (EvQueryName (Config.servername config')
                                          DEFAULT_TIMEOUT) st3))))
       end.
Proof.
  intros H. unfold complete_config in H.
  apply bind_inv in H as [(sn & st1 & H1 & H)|(e & _ & [=])].
  apply bind_inv in H as [(un & st2 & H2 & H)|(e & _ & [=])].
  apply bind_inv in H as [(pw & st3 & H3 & H)|(e & _ & [=])].
  apply bind_inv in H as [(ip & st4 & H4 & H)|(e & _ & [=])].
  injection H as <- <-.
  cbn [Config.servername Config.username Config.password Config.serverip
       Config.serverport Config.service].
  apply ask_input_spec in H1 as [E1 H1]. destruct (H1 _ eq_refl) as (S1 & K1 & T1).
  apply ask_input_spec in H2 as [E2 H2]. destruct (H2 _ eq_refl) as (S2 & K2 & T2).
  apply ask_getpass_spec in H3 as [E3 H3]. destruct (H3 _ eq_refl) as (S3 & K3 & T3).
  apply address_step_spec in H4 as (S4 & K4 & T4 & Hst).
  exists st3.
  split; [eapply events_only_trans; [eapply events_only_trans|]; eassumption|].
  split; [rewrite T1, T2, T3; reflexivity|].
  repeat (split; [assumption|]).
  split; [destruct (Config.serverport config); reflexivity|].
  split; [destruct (Config.service config); reflexivity|].
  repeat (split; [assumption|]). exact Hst.
Qed.

Lemma prompt_is_user (ev : event) : prompt_event ev = true -> user_event ev = true.
Proof. destruct ev; intros H; try discriminate H; reflexivity. Qed.

(** With the address given, [complete_config] only asks questions. *)
Lemma complete_config_given (query : option (list string)) (config : Config.t)
    (ip : string) :
  Config.serverip config = Some ip ->
  keeps (events_only prompt_event) (complete_config query config).
Proof.
  intros Hip st r st' H. unfold complete_config in H. rewrite Hip in H.
  apply bind_inv in H as [(sn & st1 & H1 & H)|(e & H1 & _)];
    apply ask_input_spec in H1 as [E1 _]; [|exact E1].
  apply bind_inv in H as [(un & st2 & H2 & H)|(e & H2 & _)];
    apply ask_input_spec in H2 as [E2 _];
    [|eapply events_only_trans; eassumption].
  apply bind_inv in H as [(pw & st3 & H3 & H)|(e & H3 & _)];
    apply ask_getpass_spec in H3 as [E3 _];
    [|eapply events_only_trans; [eapply events_only_trans|]; eassumption].
  injection H as _ <-.
  eapply events_only_trans; [eapply events_only_trans|]; eassumption.
Qed.

(** X1: with the address given, [complete_config] makes no call to the
    name service and prints nothing: it only asks for what is missing of
    name, user and password; the address it returns is the one given, and
    what the name service would have answered makes no difference. *)
Theorem address_given_no_lookup
    (query : option (list string)) (config : Config.t) (ip : string)
    (st st' : state) (r : result Config.t) :
  Config.serverip config = Some ip ->
  complete_config query config st = (r, st') ->
  events_only prompt_event st st'
  /\ (forall config', r = Ok config' -> Config.serverip config' = Some ip)
  /\ (forall query', complete_config query' config st = (r, st')).
Proof.
  intros Hip H. split; [eapply complete_config_given; eassumption|]. split.
  - intros config' ->. apply complete_config_steps in H.
    destruct H as (st3 & _ & _ & _ & _ & _ & _ & _ & _ & _ & _ & _ & K & _).
    apply K, Hip.
  - intros query'. rewrite <- H. unfold complete_config. rewrite Hip. reflexivity.
Qed.

Lemma address_given_witness :
  events_only prompt_event (initial_state [] ∅ "/")
    (snd (complete_config (Some []) config_by_ip (initial_state [] ∅ "/")))
  /\ (forall config',
         fst (complete_config (Some []) config_by_ip (initial_state [] ∅ "/"))
         = Ok config' ->
         Config.serverip config' = Some "192.168.1.5")
  /\ (forall query',
         complete_config query' config_by_ip (initial_state [] ∅ "/")
         = (fst (complete_config (Some []) config_by_ip (initial_state [] ∅ "/")),
            snd (complete_config (Some []) config_by_ip (initial_state [] ∅ "/")))).
Proof.
  apply (address_given_no_lookup (Some []) config_by_ip "192.168.1.5");
    [reflexivity|apply surjective_pairing].
Defined.

(** X3: a configuration [complete_config] returns has a value for every
    key; the values that were given are kept; the port and the share that
    were not given are 139 and "microSD". *)
Theorem complete_config_fills_missing
    (query : option (list string)) (config config' : Config.t)
    (st st' : state) :
  complete_config query config st = (Ok config', st') ->
  complete config'
  /\ kept (Config.servername config) (Config.servername config')
  /\ kept (Config.username config) (Config.username config')
  /\ kept (Config.password config) (Config.password config')
  /\ kept (Config.serverip config) (Config.serverip config')
  /\ Config.serverport config' = Some (default 139 (Config.serverport config))
  /\ Config.service config' = Some (default "microSD" (Config.service config)).
Proof.
  intros H. apply complete_config_steps in H.
  destruct H as (st3 & _ & _ & S1 & S2 & S3 & K1 & K2 & K3 & Hport & Hsvc
                 & S4 & K4 & _).
  unfold complete. rewrite Hport, Hsvc. repeat split; eauto.
Qed.

Lemma complete_config_fills_witness :
  complete (Config.Build_t (Some "MY3DS") (Some "user") (Some "secret")
              (Some "192.168.1.5") (Some 139) (Some "microSD"))
  /\ kept (Config.servername config_by_ip) (Some "MY3DS")
  /\ kept (Config.username config_by_ip) (Some "user")
  /\ kept (Config.password config_by_ip) (Some "secret")
  /\ kept (Config.serverip config_by_ip) (Some "192.168.1.5")
  /\ Some 139 = Some (default 139 (Config.serverport config_by_ip))
  /\ Some "microSD" = Some (default "microSD" (Config.service config_by_ip)).
Proof.
  apply (complete_config_fills_missing None config_by_ip
           (Config.Build_t (Some "MY3DS") (Some "user") (Some "secret")
              (Some "192.168.1.5") (Some 139) (Some "microSD"))
           (initial_state [] ∅ "/") (initial_state [] ∅ "/")).
  reflexivity.
Defined.

(** X4: [complete_config] is idempotent: given a configuration it has
    returned, it returns it again, asks nothing, looks nothing up and
    leaves the state as it is. *)
Theorem complete_config_idempotent
    (query query' : option (list string)) (config config' : Config.t)
    (st st' st'' : state) :
  complete_config query config st = (Ok config', st') ->
  complete_config query' config' st'' = (Ok config', st'').
Proof.
  intros H. apply complete_config_fills_missing in H as (Hc & _).
  destruct config' as [sn un pw ip port svc].
  destruct Hc as ([? Hsn] & [? Hun] & [? Hpw] & [? Hip] & [? Hport] & [? Hsvc]).
  cbn in Hsn, Hun, Hpw, Hip, Hport, Hsvc. subst. reflexivity.
Qed.

Lemma complete_config_idempotent_witness :
  complete_config (Some [])
    (Config.Build_t (Some "MY3DS") (Some "user") (Some "secret")
       (Some "192.168.1.5") (Some 139) (Some "microSD"))
    (initial_state ["x"] ∅ "/")
  = (Ok (Config.Build_t (Some "MY3DS") (Some "user") (Some "secret")
           (Some "192.168.1.5") (Some 139) (Some "microSD")),
     initial_state ["x"] ∅ "/").
Proof.
  apply (complete_config_idempotent None (Some []) config_by_ip _
           (initial_state [] ∅ "/") (initial_state [] ∅ "/")).
  reflexivity.
Defined.

(** X5: [complete_config] reads the lines typed in the order name, user,
    password, address, one line for each value it has to ask for and no
    other; and when it looks the name up, it is after these three
    questions, with the name it returns (the one given, or the one
    typed). *)
Theorem complete_config_reads_in_order
    (query : option (list string)) (config config' : Config.t)
    (st st' : state) :
  complete_config query config st = (Ok config', st') ->
  typed st
  = asked (Config.servername config) (Config.servername config')
    ++ asked (Config.username config) (Config.username config')
    ++ asked (Config.password config) (Config.password config')
    ++ asked_ip query (Config.serverip config) (Config.serverip config')
    ++ typed st'
  /\ (Config.serverip config = None ->
      exists evs rest,
        trace st'
        = trace st ++ evs
          ++ EvQueryName (Config.servername config') DEFAULT_TIMEOUT
             :: EvNetBIOSClose :: rest
        /\ Forall (fun ev => prompt_event ev = true) evs).
Proof.
  intros H. apply complete_config_steps in H.
  destruct H as (st3 & E & T & _ & _ & _ & _ & _ & _ & _ & _ & _ & _ & T4 & Hst).
  split; [rewrite T, T4; reflexivity|].
  intros Hip. rewrite Hip in Hst.
  destruct E as (_ & _ & _ & _ & _ & _ & _ & evs & Htr & Hev).
  exists evs.
  destruct query as [[|a [|b l]]|];
    try (exists [EvPrint resolution_failed; EvInput "IP: "]; split; [|exact Hev];
         rewrite Hst; simpl_state; rewrite Htr, <- !app_assoc; reflexivity).
  exists []. split; [|exact Hev]. destruct Hst as [_ ->]. simpl_state.
  rewrite Htr, <- !app_assoc. reflexivity.
Qed.

Lemma complete_config_reads_witness :
  typed (initial_state ["name"; "me"; "pw"; "10.0.0.2"; "ls"] ∅ "/")
  = asked None (Some "name") ++ asked None (Some "me") ++ asked None (Some "pw")
    ++ asked_ip None None (Some "10.0.0.2")
    ++ typed (snd (complete_config None
                     (Config.Build_t None None None None None None)
                     (initial_state ["name"; "me"; "pw"; "10.0.0.2"; "ls"] ∅ "/"))).
Proof.
  assert (H : complete_config None (Config.Build_t None None None None None None)
                (initial_state ["name"; "me"; "pw"; "10.0.0.2"; "ls"] ∅ "/")
              = (Ok (Config.Build_t (Some "name") (Some "me") (Some "pw")
                       (Some "10.0.0.2") (Some 139) (Some "microSD")),
                 snd (complete_config None
                        (Config.Build_t None None None None None None)
                        (initial_state ["name"; "me"; "pw"; "10.0.0.2"; "ls"] ∅ "/"))))
    by (vm_compute; reflexivity).
  exact (proj1 (complete_config_reads_in_order _ _ _ _ _ H)).
Defined.

(** ** [_connect]: the address found, the login, the failure *)

(** The state [_connect] hands to [complete_config]. *)
Lemma closed_first_facts (st : state) :
  let st1 := match conn st with
             | Some c => set_conns (<[c := Closed]> (conns st))
                           (add_event (EvClose c) st)
             | None => st
             end in
  typed st1 = typed st /\ cur_dir st1 = cur_dir st /\ service st1 = service st
  /\ conn st1 = conn st
  /\ List.length (conns st1) = List.length (conns st)
  /\ exists cl, trace st1 = trace st ++ cl
                /\ Forall (fun ev => is_close ev = true) cl.
Proof.
  cbv zeta. destruct (conn st) as [c|] eqn:Hc; simpl_state.
  - repeat split; try assumption. { apply length_insert. }
    exists [EvClose c]. split; [reflexivity|repeat constructor].
  - repeat split; try assumption.
    exists []. split; [symmetry; apply app_nil_r|constructor].
Qed.

(** X2: when the address is not given and the name service gives
    exactly one, [_connect] uses it: after the questions for what is
    missing it looks the name up, asks nothing more, prints no error, and
    makes the transport connection to that address.  Only the end of the
    user's input stops it before. *)
Theorem single_address_is_used
    (ip : string) (answer : connect_answer) (config : Config.t)
    (st st' : state) (r : result unit) :
  Config.serverip config = None ->
  _connect (Some [ip]) answer config st = (r, st') ->
  (r = Raise EOFError /\ typed st' = []
   /\ exists evs, trace st' = trace st ++ evs
                  /\ Forall (fun ev => is_connect ev = false) evs)
  \/ (exists (evs rest : list event) (c : nat) (u p n : option string)
             (port : option Z),
         trace st'
         = trace st ++ evs
           ++ [EvQueryName n DEFAULT_TIMEOUT; EvNetBIOSClose;
               EvSMBConnection c u p DEFAULT_CLIENTNAME n;
               EvConnect c (Some ip) port DEFAULT_TIMEOUT]
           ++ rest
         /\ Forall (fun ev => prompt_event ev || is_close ev = true) evs
         /\ r = match answer with
                | Connected _ => Ok tt
                | ConnectFailed e _ => Raise e
                end).
Proof.
  intros Hip. rewrite connect_eq. cbv zeta.
  destruct (closed_first_facts st) as (Hty1 & _ & _ & _ & _ & cl & Htr1 & Hcl).
  cbv zeta in Hty1, Htr1.
  set (st1 := match conn st with
              | Some c => set_conns (<[c := Closed]> (conns st))
                            (add_event (EvClose c) st)
              | None => st
              end) in *.
  clearbody st1.
  destruct (complete_config (Some [ip]) config st1) as [[config'|e] st2] eqn:Hcc.
  - intros Hrun. right.
    apply complete_config_steps in Hcc.
    destruct Hcc as (st3 & E & _ & _ & _ & _ & _ & _ & _ & _ & _ & _ & _ & _ & Hst).
    rewrite Hip in Hst. destruct Hst as [Hip' ->].
    destruct E as (_ & _ & _ & _ & _ & _ & _ & evs & Htr & Hev).
    exists (cl ++ evs),
      (match answer with
       | Connected _ => [EvPrint ("Connected to " +:+ ip)]
       | ConnectFailed _ _ => []
       end),
      (List.length (conns st3)), (Config.username config'),
      (Config.password config'), (Config.servername config'),
      (Config.serverport config').
    rewrite Hip' in Hrun.
    destruct answer as [auth|e [|]]; injection Hrun as <- <-; simpl_state;
      (split; [rewrite Htr, Htr1, <- !app_assoc; reflexivity|]);
      (split; [|reflexivity]);
      (apply Forall_app; split;
       [eapply Forall_impl; [exact Hcl|]; intros ev ->; apply orb_true_r
       |eapply Forall_impl; [exact Hev|]; intros ev ->; reflexivity]).
  - intros [= <- <-]. left.
    destruct (complete_config_eof_only _ _ _ _ _ Hcc) as [-> Hty].
    apply complete_config_user_only in Hcc.
    destruct Hcc as (_ & _ & _ & _ & _ & _ & _ & evs & Htr & Hu).
    split; [reflexivity|]. split; [exact Hty|].
    exists (cl ++ evs). split; [rewrite Htr, Htr1, app_assoc; reflexivity|].
    apply Forall_app. split; [|apply Forall_user_not_connect, Hu].
    eapply Forall_impl; [exact Hcl|]. intros [] H; try discriminate H; reflexivity.
Qed.

Lemma single_address_witness :
  exists last,
    trace (snd (_connect (Some ["10.0.0.7"]) (Connected true) config_by_name
                  (initial_state [] ∅ "/")))
    = [EvQueryName (Some "MY3DS") 5; EvNetBIOSClose;
       EvSMBConnection 0 (Some "user") (Some "secret") "3DSCLIENT" (Some "MY3DS");
       EvConnect 0 (Some "10.0.0.7") (Some 139) 5; last].
Proof.
  destruct (single_address_is_used "10.0.0.7" (Connected true) config_by_name
              (initial_state [] ∅ "/") _ _ eq_refl (surjective_pairing _))
    as [(H & _)|_].
  - exfalso. revert H. vm_compute. discriminate.
  - eexists. vm_compute. reflexivity.
Defined.


(** X7: when the transport connection fails, [_connect] raises what
    [SMBConnection.connect] raised; the cursor and the share are what they
    were, and the shell holds the new connection, which is not the one it
    held before.  When the user's input ends first, the shell holds what
    it held (closed by then). *)
Theorem failed_connect_keeps_cursor
    (query : option (list string)) (e : exn) (socket_open : bool)
    (config : Config.t) (st st' : state) (r : result unit) :
  _connect query (ConnectFailed e socket_open) config st = (r, st') ->
  cur_dir st' = cur_dir st /\ service st' = service st
  /\ (r = Raise EOFError /\ conn st' = conn st
      \/ r = Raise e
         /\ conn st' = Some (List.length (conns st))
         /\ conns st' !! List.length (conns st)
            = Some (if socket_open then Live else Fresh)).
Proof.
  rewrite connect_eq. cbv zeta.
  destruct (closed_first_facts st) as (_ & Hcur1 & Hsvc1 & Hconn1 & Hlen1 & _).
  cbv zeta in Hcur1, Hsvc1, Hconn1, Hlen1.
  set (st1 := match conn st with
              | Some c => set_conns (<[c := Closed]> (conns st))
                            (add_event (EvClose c) st)
              | None => st
              end) in *.
  clearbody st1.
  destruct (complete_config query config st1) as [[config'|e'] st2] eqn:Hcc.
  - apply complete_config_user_only in Hcc.
    destruct Hcc as (_ & Hsvc2 & Hcur2 & Hconns2 & _).
    assert (Hlen : List.length (conns st2) = List.length (conns st)) by congruence.
    assert (Hlt : (List.length (conns st2)
                   < List.length (conns st2 ++ [Fresh]))%nat)
      by (rewrite length_app; cbn; lia).
    destruct socket_open; intros [= <- <-]; simpl_state;
      (split; [congruence|]); (split; [congruence|]); right;
      (split; [reflexivity|]); rewrite <- Hlen; (split; [reflexivity|]).
    + apply list_lookup_insert_eq. exact Hlt.
    + rewrite lookup_app_r by lia. rewrite Nat.sub_diag. reflexivity.
  - intros [= <- <-].
    destruct (complete_config_eof_only _ _ _ _ _ Hcc) as [-> _].
    apply complete_config_user_only in Hcc.
    destruct Hcc as (Hconn2 & Hsvc2 & Hcur2 & _).
    split; [congruence|]. split; [congruence|]. left. split; [reflexivity|congruence].
Qed.

Lemma failed_connect_witness :
  cur_dir (snd (_connect None (ConnectFailed (LibraryError "timeout") false)
                  config_by_ip started))
  = cur_dir started.
Proof.
  exact (proj1 (failed_connect_keeps_cursor None (LibraryError "timeout") false
                  config_by_ip started _ _ (surjective_pairing _))).
Defined.


(** ** [format_size]: the number shown *)

Lemma round_half_even_upper (a b : Z) :
  0 <= a -> 0 < b -> round_half_even a b <= a / b + 1.
Proof.
  intros Ha Hb. unfold round_half_even.
  repeat match goal with |- context [if ?c then _ else _] => destruct c end; lia.
Qed.

Lemma one_decimal_integer (n : Z) :
  one_decimal n 1
  = (if n <? 0 then "-" else EmptyString) +:+ decimal (Z.abs n) +:+ ".0".
Proof.
  unfold one_decimal. cbv zeta. rewrite round_half_even_1.
  replace (10 * Z.abs n / 10) with (Z.abs n)
    by (rewrite Z.mul_comm, Z.div_mul; lia).
  replace ((10 * Z.abs n) mod 10) with 0
    by (rewrite Z.mul_comm, Z.mod_mul; lia).
  reflexivity.
Qed.

Lemma append_assoc (a b c : string) : (a +:+ b) +:+ c = a +:+ (b +:+ c).
Proof.
  induction a as [|x a IH]; [reflexivity|].
  rewrite !append_cons, IH. reflexivity.
Qed.

(** X8: a size of magnitude below 1024 is shown as it is, with ".0" and
    "B": no rounding takes place in the first unit. *)
Theorem format_size_bytes_exact (n : Z) :
  Z.abs n < 1024 ->
  format_size n
  = Ok (Some ((if n <? 0 then "-" else EmptyString)
              +:+ decimal (Z.abs n) +:+ ".0B")).
Proof.
  intros Hn. rewrite format_size_small by exact Hn.
  rewrite one_decimal_integer. rewrite !append_assoc. reflexivity.
Qed.

Lemma format_size_bytes_witness : format_size 1023 = Ok (Some "1023.0B").
Proof. apply (format_size_bytes_exact 1023). lia. Defined.

(** The unit of a size that is not negative: a copy of the argument of
    the loop, kept apart from the claims. *)
Lemma format_size_unit (n m : Z) :
  0 <= n -> float_of_int n = Some m -> m < 1024 ^ 8 ->
  exists (k : nat) (unit : string),
    units !! k = Some unit
    /\ (k = O /\ m = n /\ n < 1024 \/ k <> O /\ 1024 ^ Z.of_nat k <= m)
    /\ m < 1024 * 1024 ^ Z.of_nat k
    /\ format_size n
       = Ok (Some (one_decimal m (1024 ^ Z.of_nat k) +:+ unit +:+ "B")).
Proof.
  intros Hn Hm Hlt.
  destruct (Z.lt_ge_cases n 1024) as [Hsmall|Hbig].
  - rewrite float_of_int_exact in Hm by lia. injection Hm as <-.
    exists O, EmptyString.
    split; [reflexivity|split; [left; auto|split; [cbn; lia|]]].
    rewrite format_size_small by lia. reflexivity.
  - pose proof (float_of_int_lower n m 10 ltac:(lia) Hbig Hm) as Hm10.
    change (2 ^ 10) with 1024 in Hm10.
    set (k := Z.to_nat (Z.log2 m / 10)).
    assert (Hmpos : 0 < m) by lia.
    destruct (Z.log2_spec m Hmpos) as [Hlo Hhi].
    assert (HL : 10 <= Z.log2 m < 80).
    { split; [apply Z.log2_le_pow2; lia|].
      apply Z.log2_lt_pow2; [lia|]. change (2 ^ 80) with (1024 ^ 8). exact Hlt. }
    assert (Hkq : Z.of_nat k = Z.log2 m / 10).
    { unfold k. rewrite Z2Nat.id by (apply Z.div_pos; lia). reflexivity. }
    assert (Hk : 1 <= Z.of_nat k < 8).
    { rewrite Hkq.
      split; [apply Z.div_le_lower_bound; lia|apply Z.div_lt_upper_bound; lia]. }
    assert (Hpow : forall j, 0 <= j -> 1024 ^ j = 2 ^ (10 * j)).
    { intros j Hj. rewrite Z.pow_mul_r by lia. reflexivity. }
    assert (Hbounds : 1024 ^ Z.of_nat k <= m < 1024 * 1024 ^ Z.of_nat k).
    { pose proof (Z.div_mod (Z.log2 m) 10 ltac:(lia)) as Hdm.
      pose proof (Z.mod_pos_bound (Z.log2 m) 10 ltac:(lia)) as Hmod.
      split.
      - etransitivity; [|exact Hlo]. rewrite Hpow by lia.
        apply Z.pow_le_mono_r; lia.
      - eapply Z.lt_le_trans; [exact Hhi|].
        change 1024 with (1024 ^ 1) at 1. rewrite <- Z.pow_add_r by lia.
        rewrite Hpow by lia. apply Z.pow_le_mono_r; lia. }
    destruct (units !! k) as [unit|] eqn:Hu.
    2:{ apply lookup_ge_None in Hu. cbn in Hu. lia. }
    exists k, unit.
    split; [exact Hu|split; [right; split; [lia|lia]|split; [lia|]]].
    unfold format_size, units. rewrite format_size_loop_cons.
    cbn [abs_lt_1024 div_1024].
    assert (Hn' : (Z.abs n <? 1024) = false) by (apply Z.ltb_ge; lia).
    rewrite Hn', Hm.
    apply format_size_loop_unit; [lia| |exact Hbounds].
    destruct k as [|k']; [lia|].
    replace (S k' - 1)%nat with k' by lia. exact Hu.
Qed.

(** X9: the number [format_size] shows for a size that is not negative
    is [t / 10] with [t] tenths, [t] at most 10240: "1024.0" can be shown
    (a size just under the next unit is rounded up to it) but nothing
    above; and from Ki on at least "1.0" is shown. *)
Theorem format_size_number_range (n m : Z) :
  0 <= n -> float_of_int n = Some m -> m < 1024 ^ 8 ->
  exists (k : nat) (unit : string) (t : Z),
    units !! k = Some unit
    /\ format_size n
       = Ok (Some (decimal (t / 10) +:+ "." +:+ decimal (t mod 10)
                   +:+ unit +:+ "B"))
    /\ 0 <= t <= 10240
    /\ (k <> O -> 10 <= t).
Proof.
  intros Hn Hm Hlt.
  destruct (format_size_unit n m Hn Hm Hlt) as (k & unit & Hu & Hk & Hhi & Hfmt).
  assert (Hm0 : 0 <= m) by (eapply float_of_int_nonneg; eassumption).
  assert (Hd : 0 < 1024 ^ Z.of_nat k) by (apply Z.pow_pos_nonneg; lia).
  exists k, unit, (round_half_even (10 * Z.abs m) (1024 ^ Z.of_nat k)).
  split; [exact Hu|]. split.
  - rewrite Hfmt. unfold one_decimal. cbv zeta.
    assert (Hneg : (m <? 0) = false) by (apply Z.ltb_ge; lia).
    rewrite Hneg, append_nil_l, !append_assoc. reflexivity.
  - rewrite (Z.abs_eq m) by lia.
    pose proof (round_half_even_lower (10 * m) _ ltac:(lia) Hd) as Hlo.
    pose proof (round_half_even_upper (10 * m) _ ltac:(lia) Hd) as Hup.
    assert (Hq : 10 * m / 1024 ^ Z.of_nat k < 10240)
      by (apply Z.div_lt_upper_bound; lia).
    assert (Hq0 : 0 <= 10 * m / 1024 ^ Z.of_nat k) by (apply Z.div_pos; lia).
    split; [lia|]. intros Hk0.
    destruct Hk as [[Hk _]|[_ Hk]]; [contradiction|].
    assert (10 <= 10 * m / 1024 ^ Z.of_nat k)
      by (apply Z.div_le_lower_bound; lia).
    lia.
Qed.

Lemma format_size_number_witness :
  exists (k : nat) (unit : string) (t : Z),
    units !! k = Some unit
    /\ format_size 1048575
       = Ok (Some (decimal (t / 10) +:+ "." +:+ decimal (t mod 10)
                   +:+ unit +:+ "B"))
    /\ 0 <= t <= 10240
    /\ (k <> O -> 10 <= t).
Proof.
  apply (format_size_number_range 1048575 1048575);
    [lia|vm_compute; reflexivity|lia].
Defined.

Lemma one_decimal_opp (m d : Z) :
  0 < m -> one_decimal (- m) d = "-" +:+ one_decimal m d.
Proof.
  intros Hm. unfold one_decimal. cbv zeta. rewrite Z.abs_opp.
  assert (H1 : (- m <? 0) = true) by (apply Z.ltb_lt; lia).
  assert (H2 : (m <? 0) = false) by (apply Z.ltb_ge; lia).
  rewrite H1, H2, append_nil_l. reflexivity.
Qed.

Lemma format_size_loop_opp (us : list string) (m : Z) (k : nat)
    (suffix : string) :
  0 < m ->
  format_size_loop us (PyFloat (- m) k) suffix
  = match format_size_loop us (PyFloat m k) suffix with
    | Ok (Some s) => Ok (Some ("-" +:+ s))
    | other => other
    end.
Proof.
  intros Hm. revert k. induction us as [|u us IH]; intros k; [reflexivity|].
  rewrite !format_size_loop_cons. cbn [abs_lt_1024 div_1024 fmt_3_1f].
  rewrite Z.abs_opp. destruct (Z.abs m <? _); [|apply IH].
  rewrite !rjust_long by apply one_decimal_length.
  rewrite one_decimal_opp by exact Hm. rewrite !append_assoc. reflexivity.
Qed.

(** X10: [format_size] of a negative number is that of its magnitude
    with a minus sign in front (and the same [None] or [OverflowError]
    where there is no string). *)
Theorem format_size_negative (n : Z) :
  0 < n ->
  format_size (- n)
  = match format_size n with
    | Ok (Some s) => Ok (Some ("-" +:+ s))
    | other => other
    end.
Proof.
  intros Hn. destruct (Z.lt_ge_cases n 1024) as [Hsmall|Hbig].
  - rewrite !format_size_small by lia.
    rewrite one_decimal_opp by lia. rewrite !append_assoc. reflexivity.
  - unfold format_size, units. rewrite !format_size_loop_cons.
    cbn [abs_lt_1024 div_1024]. rewrite Z.abs_opp.
    assert (Hn' : (Z.abs n <? 1024) = false) by (apply Z.ltb_ge; lia).
    rewrite Hn', float_of_int_opp.
    destruct (float_of_int n) as [m|] eqn:Hm; [|reflexivity].
    cbn [option_map].
    pose proof (float_of_int_lower n m 10 ltac:(lia) Hbig Hm) as Hm10.
    apply format_size_loop_opp. change (2 ^ 10) with 1024 in Hm10. lia.
Qed.

Lemma format_size_negative_witness :
  format_size (- 1536)
  = match format_size 1536 with
    | Ok (Some s) => Ok (Some ("-" +:+ s))
    | other => other
    end.
Proof. apply (format_size_negative 1536). lia. Defined.

(** ** [print_filelist]: the columns, the order, the sizes it cannot show *)

Lemma repeat_char_length (c : ascii) (n : nat) :
  String.length (Str.repeat_char c n) = n.
Proof. induction n as [|n IH]; [reflexivity|]. cbn. rewrite IH. reflexivity. Qed.

Lemma rjust_length (w : nat) (s : string) :
  (String.length s <= w)%nat -> String.length (Str.rjust w s) = w.
Proof.
  intros H. unfold Str.rjust. rewrite length_append, repeat_char_length. lia.
Qed.

Lemma max_from_spec (acc w : nat) (l : list fentry) :
  max_from acc l = Ok w ->
  (acc <= w)%nat
  /\ Forall (fun f => exists s, fsize f = Some s /\ (String.length s <= w)%nat) l
  /\ (w = acc \/ exists f s, In f l /\ fsize f = Some s /\ String.length s = w).
Proof.
  revert acc. induction l as [|f l IH]; intros acc; cbn [max_from].
  - intros [= <-]. split; [lia|]. split; [constructor|left; reflexivity].
  - destruct (fsize f) as [s|] eqn:Hs; [|discriminate].
    intros H. apply IH in H as (Hacc & Hall & Hw).
    split; [lia|]. split.
    + constructor; [exists s; split; [exact Hs|lia]|exact Hall].
    + destruct Hw as [->|(g & t & Hg & Ht & Hlen)].
      * destruct (Nat.max_spec acc (String.length s)) as [[_ ->]|[_ ->]].
        -- right. exists f, s. split; [left; reflexivity|auto].
        -- left. reflexivity.
      * right. exists g, t. split; [right; exact Hg|auto].
Qed.

Lemma max_sizelen_spec (w : nat) (l : list fentry) :
  max_sizelen l = Ok w ->
  Forall (fun f => exists s, fsize f = Some s /\ (String.length s <= w)%nat) l
  /\ exists f s, In f l /\ fsize f = Some s /\ String.length s = w.
Proof.
  destruct l as [|f l]; [discriminate|]. cbn [max_sizelen].
  destruct (fsize f) as [s|] eqn:Hs; [|discriminate].
  intros H. apply max_from_spec in H as (Hacc & Hall & Hw). split.
  - constructor; [exists s; split; [exact Hs|exact Hacc]|exact Hall].
  - destruct Hw as [->|(g & t & Hg & Ht & Hlen)].
    + exists f, s. split; [left; reflexivity|auto].
    + exists g, t. split; [right; exact Hg|auto].
Qed.

Lemma repeat_char_all (c : ascii) (n : nat) :
  all_chars (Ascii.eqb c) (Str.repeat_char c n) = true.
Proof.
  induction n as [|n IH]; [reflexivity|]. cbn [Str.repeat_char all_chars].
  rewrite Ascii.eqb_refl, IH. reflexivity.
Qed.

(** X11: the rows [print_filelist] prints are aligned: row by row, in
    the order of the listing, a row is blanks, the size, one blank and
    the name, and the blanks fill the size up, on its left, to the width
    of the longest size of the whole list (the entries "." and "..",
    which are not printed, count for the width); so the sizes end, and
    the names begin, in the same column. *)
Theorem print_filelist_columns (filelist : list fentry) (rows : list string) :
  print_filelist filelist = Ok rows ->
  exists w : nat,
    (exists f s, In f filelist /\ fsize f = Some s /\ String.length s = w)
    /\ (forall f, In f filelist ->
          exists s, fsize f = Some s /\ (String.length s <= w)%nat)
    /\ Forall2 (aligned_row w) rows (shown filelist).
Proof.
  unfold print_filelist.
  destruct (max_sizelen (sort_filelist filelist)) as [w|] eqn:Hw; [|discriminate].
  intros Hrows. exists w.
  apply max_sizelen_spec in Hw as (Hall & f & s & Hf & Hs & Hlen).
  pose proof (sort_filelist_Permutation filelist) as Hp.
  assert (Hall' : forall g, In g filelist ->
            exists t, fsize g = Some t /\ (String.length t <= w)%nat).
  { intros g Hg. rewrite List.Forall_forall in Hall. apply Hall.
    eapply Permutation_in; eassumption. }
  split; [exists f, s; split; [|auto]; eapply Permutation_in;
          [symmetry; exact Hp|exact Hf]|].
  split; [exact Hall'|].
  rewrite (print_rows_map _ _ _ Hrows). fold (shown filelist).
  apply Forall2_fmap_l, Forall_Forall2_diag, List.Forall_forall.
  intros g Hg. unfold shown in Hg.
  apply List.filter_In in Hg as [Hg _].
  destruct (Hall' g) as (t & Ht & Hle);
    [eapply Permutation_in; [symmetry; exact Hp|exact Hg]|].
  exists t, (Str.repeat_char " " (w - String.length t)).
  split; [exact Ht|]. split.
  - cbn. unfold row_of, format_row, Str.rjust. rewrite Ht. cbn [default].
    rewrite !append_assoc. reflexivity.
  - split; [apply repeat_char_all|]. rewrite repeat_char_length. lia.
Qed.

Lemma print_filelist_columns_witness :
  exists w : nat,
    (exists f s,
        In f [ {| fname := "boot.bin"; fisdir := false; fsize := Some "1.5KiB" |};
               {| fname := ".."; fisdir := true; fsize := Some "-" |};
               {| fname := "DCIM"; fisdir := true; fsize := Some "-" |};
               {| fname := "a.txt"; fisdir := false; fsize := Some "12.0B" |} ]
        /\ fsize f = Some s /\ String.length s = w)
    /\ (forall f,
          In f [ {| fname := "boot.bin"; fisdir := false; fsize := Some "1.5KiB" |};
                 {| fname := ".."; fisdir := true; fsize := Some "-" |};
                 {| fname := "DCIM"; fisdir := true; fsize := Some "-" |};
                 {| fname := "a.txt"; fisdir := false; fsize := Some "12.0B" |} ] ->
          exists s, fsize f = Some s /\ (String.length s <= w)%nat)
    /\ Forall2 (aligned_row w)
         ["     - DCIM"; " 12.0B a.txt"; "1.5KiB boot.bin"]
         (shown
            [ {| fname := "boot.bin"; fisdir := false; fsize := Some "1.5KiB" |};
              {| fname := ".."; fisdir := true; fsize := Some "-" |};
              {| fname := "DCIM"; fisdir := true; fsize := Some "-" |};
              {| fname := "a.txt"; fisdir := false; fsize := Some "12.0B" |} ]).
Proof.
  apply (print_filelist_columns
           [ {| fname := "boot.bin"; fisdir := false; fsize := Some "1.5KiB" |};
             {| fname := ".."; fisdir := true; fsize := Some "-" |};
             {| fname := "DCIM"; fisdir := true; fsize := Some "-" |};
             {| fname := "a.txt"; fisdir := false; fsize := Some "12.0B" |} ]
           ["     - DCIM"; " 12.0B a.txt"; "1.5KiB boot.bin"]).
  vm_compute. reflexivity.
Defined.

(** [format_size] where it has no string to give. *)
Lemma format_size_None (n m : Z) :
  1024 ^ 8 <= Z.abs n -> float_of_int n = Some m -> format_size n = Ok None.
Proof.
  intros Hn Hm. unfold format_size, units.
  rewrite format_size_loop_cons. cbn [abs_lt_1024 div_1024].
  assert (Hn' : (Z.abs n <? 1024) = false) by (apply Z.ltb_ge; lia).
  rewrite Hn', Hm.
  apply format_size_loop_large. cbn [List.length Nat.add].
  assert (Habs : 2 ^ 80 <= Z.abs m).
  { destruct (Z.le_ge_cases 0 n) as [Hpos|Hneg].
    - pose proof (float_of_int_lower n m 80 ltac:(lia) ltac:(lia) Hm). lia.
    - pose proof (float_of_int_opp n) as Ho. rewrite Hm in Ho. cbn in Ho.
      pose proof (float_of_int_lower (- n) (- m) 80 ltac:(lia) ltac:(lia) Ho). lia. }
  change (Z.of_nat 8) with 8. lia.
Qed.

Lemma format_size_loop_float_ok (us : list string) (m : Z) (k : nat)
    (suffix : string) :
  exists o, format_size_loop us (PyFloat m k) suffix = Ok o.
Proof.
  revert k. induction us as [|u us IH]; intros k; [cbn; eauto|].
  rewrite format_size_loop_cons. cbn [abs_lt_1024 div_1024 fmt_3_1f].
  destruct (Z.abs m <? _); [eauto|apply IH].
Qed.

(** [format_size] raises only when the number has no double. *)
Lemma format_size_no_raise (n m : Z) :
  float_of_int n = Some m -> exists o, format_size n = Ok o.
Proof.
  intros Hm. unfold format_size, units. rewrite format_size_loop_cons.
  cbn [abs_lt_1024 div_1024 fmt_3_1f]. rewrite Hm.
  destruct (Z.abs n <? 1024); [eauto|apply format_size_loop_float_ok].
Qed.

(** And then with [OverflowError]. *)
Lemma format_size_unconvertible (n : Z) :
  float_of_int n = None -> format_size n = Raise OverflowError.
Proof.
  intros Hm. unfold format_size, units. rewrite format_size_loop_cons.
  cbn [abs_lt_1024 div_1024 fmt_3_1f]. rewrite Hm.
  destruct (Z.abs n <? 1024); reflexivity.
Qed.

(** The loop of [do_ls] reads the size of the files only. *)
Lemma build_filelist_ok (resp : list SharedFile) :
  Forall (fun sf => isDirectory sf = false ->
                    float_of_int (file_size sf) <> None) resp ->
  exists l, build_filelist resp = Ok l
            /\ forall sf, In sf resp -> isDirectory sf = false ->
                 exists f, In f l /\ format_size (file_size sf) = Ok (fsize f).
Proof.
  induction 1 as [|sf resp Hsf _ (l & Hl & Hin)]; cbn [build_filelist].
  - exists []. split; [reflexivity|]. intros sf [].
  - destruct (isDirectory sf) eqn:Hd.
    + rewrite Hl. eexists. split; [reflexivity|].
      intros sf' [<-|Hsf'] Hnd; [congruence|].
      destruct (Hin sf' Hsf' Hnd) as (f & Hf & Hfs). exists f. split; [right|]; auto.
    + destruct (float_of_int (file_size sf)) as [m|] eqn:Hm;
        [|exfalso; exact (Hsf eq_refl eq_refl)].
      destruct (format_size_no_raise _ _ Hm) as [o Ho].
      rewrite Ho, Hl. eexists. split; [reflexivity|].
      intros sf' [<-|Hsf'] Hnd.
      * eexists. split; [left; reflexivity|]. exact Ho.
      * destruct (Hin sf' Hsf' Hnd) as (f & Hf & Hfs). exists f. split; [right|]; auto.
Qed.

Lemma build_filelist_overflow (resp : list SharedFile) :
  Exists (fun sf => isDirectory sf = false
                    /\ float_of_int (file_size sf) = None) resp ->
  build_filelist resp = Raise OverflowError.
Proof.
  induction resp as [|sf resp IH]; intros H; [inversion H|].
  cbn [build_filelist]. destruct (isDirectory sf) eqn:Hd.
  - rewrite IH; [reflexivity|].
    inversion H as [? ? [Hnd _]|? ? Ht]; subst; [congruence|exact Ht].
  - destruct (float_of_int (file_size sf)) as [m|] eqn:Hm.
    + destruct (format_size_no_raise _ _ Hm) as [o ->].
      rewrite IH; [reflexivity|].
      inversion H as [? ? [_ Hn]|? ? Ht]; subst; [congruence|exact Ht].
    + rewrite (format_size_unconvertible _ Hm). reflexivity.
Qed.

Lemma unconvertible_or_not (resp : list SharedFile) :
  Exists (fun sf => isDirectory sf = false
                    /\ float_of_int (file_size sf) = None) resp
  \/ Forall (fun sf => isDirectory sf = false ->
                       float_of_int (file_size sf) <> None) resp.
Proof.
  induction resp as [|sf resp [IH|IH]]; [right; constructor|left|].
  - apply Exists_cons_tl, IH.
  - destruct (isDirectory sf) eqn:Hd;
      [right; constructor; [congruence|exact IH]|].
    destruct (float_of_int (file_size sf)) eqn:Hm.
    + right. constructor; [congruence|exact IH].
    + left. apply Exists_cons_hd. auto.
Qed.

Lemma max_from_None (acc : nat) (l : list fentry) :
  (exists f, In f l /\ fsize f = None) -> max_from acc l = Raise TypeError.
Proof.
  revert acc. induction l as [|g l IH]; intros acc (f & Hf & Hn); [destruct Hf|].
  cbn [max_from]. destruct (fsize g) as [s|] eqn:Hs; [|reflexivity].
  apply IH. destruct Hf as [<-|Hf]; [congruence|eauto].
Qed.

Lemma print_filelist_None (l : list fentry) :
  (exists f, In f l /\ fsize f = None) -> print_filelist l = Raise TypeError.
Proof.
  intros (f & Hf & Hn). unfold print_filelist.
  pose proof (sort_filelist_Permutation l) as Hp.
  assert (Hf' : In f (sort_filelist l)) by (eapply Permutation_in; eassumption).
  destruct (sort_filelist l) as [|g l']; [destruct Hf'|].
  cbn [max_sizelen]. destruct (fsize g) as [s|] eqn:Hs; [|reflexivity].
  rewrite max_from_None; [reflexivity|].
  destruct Hf' as [<-|Hf']; [congruence|eauto].
Qed.








(** Two files whose names differ in case only, here in a letter
    outside ASCII, have the same key: they are printed in the order they
    came in, whichever it is. *)
Example listing_order_kept_for_equal_names :
  map fname
    (sort_filelist
       [ {| fname := chr 196 +:+ "rger"; fisdir := false; fsize := Some "1.0B" |};
         {| fname := chr 228 +:+ "rger"; fisdir := false; fsize := Some "2.0B" |} ])
  = [chr 196 +:+ "rger"; chr 228 +:+ "rger"]
  /\ map fname
       (sort_filelist
          [ {| fname := chr 228 +:+ "rger"; fisdir := false; fsize := Some "2.0B" |};
            {| fname := chr 196 +:+ "rger"; fisdir := false; fsize := Some "1.0B" |} ])
     = [chr 228 +:+ "rger"; chr 196 +:+ "rger"].
Proof. split; vm_compute; reflexivity. Qed.

(** ** [_path_for]: children, parents, slashes *)

Lemma loop_plain_prefix (root : bool) (pre done todo : list string) :
  Forall (fun c => plain_comp c = true) pre ->
  ntpath.normpath_loop root done (pre ++ todo)
  = ntpath.normpath_loop root (rev pre ++ done) todo.
Proof.
  intros H. revert done. induction H as [|c pre Hc _ IH]; intros done;
    [reflexivity|].
  cbn [app ntpath.normpath_loop]. unfold plain_comp in Hc.
  apply andb_prop in Hc as [[Hn Hdot]%andb_prop Hdd].
  rewrite Hn. apply negb_true_iff in Hdot, Hdd. rewrite Hdot, Hdd.
  cbn [negb orb]. rewrite IH. cbn [rev]. rewrite <- app_assoc. reflexivity.
Qed.

Lemma split_sep_app_sep (s t : string) :
  Str.split_sep (s +:+ String Str.sep t) = Str.split_sep s ++ Str.split_sep t.
Proof.
  induction s as [|a s IH].
  - rewrite append_nil_l. cbn [Str.split_sep]. rewrite Ascii.eqb_refl. reflexivity.
  - rewrite append_cons. cbn [Str.split_sep]. rewrite IH.
    destruct (Ascii.eqb a Str.sep); [reflexivity|].
    pose proof (split_sep_not_nil s) as Hne.
    destruct (Str.split_sep s) as [|w ws]; [congruence|reflexivity].
Qed.

Lemma replace_altsep_append (s t : string) :
  Str.replace_altsep (s +:+ t) = Str.replace_altsep s +:+ Str.replace_altsep t.
Proof.
  induction s as [|a s IH]; [reflexivity|].
  rewrite append_cons. unfold Str.replace_altsep in *. cbn [Str.map_chars].
  rewrite IH, append_cons. reflexivity.
Qed.

Lemma replace_altsep_idem (s : string) :
  Str.replace_altsep (Str.replace_altsep s) = Str.replace_altsep s.
Proof. apply replace_altsep_id, replace_altsep_no_altsep. Qed.

Lemma normpath_replace (p : string) :
  ntpath.normpath (Str.replace_altsep p) = ntpath.normpath p.
Proof. unfold ntpath.normpath. rewrite replace_altsep_idem. reflexivity. Qed.

Lemma last_char_append (s t : string) :
  Str.nonempty t = true -> Str.last_char (s +:+ t) = Str.last_char t.
Proof.
  intros Ht. induction s as [|a s IH]; [reflexivity|].
  rewrite append_cons. cbn [Str.last_char]. rewrite IH.
  destruct (s +:+ t) eqn:E; [|reflexivity].
  destruct s; [rewrite append_nil_l in E; subst t; discriminate|discriminate].
Qed.

Lemma last_char_all (P : ascii -> bool) (s : string) :
  all_chars P s = true -> Str.nonempty s = true ->
  exists c, Str.last_char s = Some c /\ P c = true.
Proof.
  induction s as [|a s IH]; [discriminate|].
  cbn [all_chars]. intros [Ha Hs]%andb_prop _.
  destruct s as [|b s]; [exists a; auto|].
  destruct (IH Hs eq_refl) as (c & Hc & HP). exists c. split; [exact Hc|exact HP].
Qed.

Lemma last_char_join (comps : list string) :
  comps <> [] ->
  Forall (fun c => plain_comp c = true) comps ->
  Forall (fun c => all_chars not_sep c = true) comps ->
  exists c, Str.last_char (Str.join_sep comps) = Some c /\ not_sep c = true.
Proof.
  induction comps as [|w ws IH]; [congruence|]. intros _ Hp Hs.
  inversion Hp as [|? ? Hw Hp']; subst. inversion Hs as [|? ? Hws Hs']; subst.
  destruct ws as [|w' ws].
  - cbn [Str.join_sep]. apply last_char_all; [exact Hws|].
    unfold plain_comp in Hw. apply andb_prop in Hw as [[Hn _]%andb_prop _].
    exact Hn.
  - rewrite join_sep_cons by discriminate.
    rewrite last_char_append by reflexivity.
    destruct (IH ltac:(discriminate) Hp' Hs') as (c & Hc & Hcs).
    exists c. split; [|exact Hcs]. cbn [Str.last_char].
    destruct (Str.join_sep (w' :: ws)); [discriminate Hc|exact Hc].
Qed.

(** A cursor below the root does not end in a separator. *)
Lemma cursor_ends_without_sep (b : ascii) (rest : string) :
  normalized_absolute (String Str.sep (String b rest)) = true ->
  ntpath.ends_without_sep (String Str.sep (String b rest)) = true.
Proof.
  cbn [normalized_absolute]. intros [[_ Halt]%andb_prop [_ Hplain]%andb_prop]%andb_prop.
  apply Forall_forallb in Hplain.
  destruct (last_char_join (Str.split_sep (String b rest)))
    as (c & Hc & Hcs);
    [apply split_sep_not_nil|exact Hplain|apply split_sep_no_sep|].
  rewrite join_split in Hc.
  destruct (last_char_all not_altsep (String b rest) Halt eq_refl)
    as (c' & Hc' & Hca).
  assert (c' = c) by congruence. subst c'.
  unfold ntpath.ends_without_sep.
  change (Str.last_char (String Str.sep (String b rest)))
    with (Str.last_char (String b rest)).
  rewrite Hc. unfold Str.is_sep. unfold not_sep in Hcs. unfold not_altsep in Hca.
  apply negb_true_iff in Hcs, Hca. rewrite Hcs, Hca. reflexivity.
Qed.

(** The cursor, from its components. *)
Lemma root_join_components (d : string) :
  normalized_absolute d = true ->
  String Str.sep (Str.join_sep (components d)) = d.
Proof.
  destruct d as [|a rest]; [discriminate|].
  cbn [normalized_absolute]. intros [[Ha _]%andb_prop _]%andb_prop.
  apply Ascii.eqb_eq in Ha. subst a.
  destruct rest as [|b rest]; [reflexivity|].
  cbn [components]. rewrite join_split. reflexivity.
Qed.

Lemma components_plain (d : string) :
  normalized_absolute d = true ->
  Forall (fun c => plain_comp c = true) (components d).
Proof.
  destruct d as [|a [|b rest]]; [discriminate|constructor|].
  cbn [normalized_absolute components].
  intros [_ [_ Hplain]%andb_prop]%andb_prop. apply Forall_forallb, Hplain.
Qed.

Lemma components_no_sep (d : string) :
  Forall (fun c => all_chars not_sep c = true) (components d).
Proof.
  destruct d as [|a [|b rest]]; [constructor|constructor|].
  cbn [components]. apply split_sep_no_sep.
Qed.

(** What [_path_for] computes for a fragment that does not begin with a
    separator: the loop of [normpath] run over the fragment's
    components, on top of the cursor's. *)
Lemma normpath_under (d a : string) :
  cursor_ok d = true -> plain_arg a = true ->
  ntpath.starts_with_sep a = false ->
  ntpath.normpath (ntpath.join d a)
  = String Str.sep
      (Str.join_sep
         (ntpath.normpath_loop true (rev (components d))
            (Str.split_sep (Str.replace_altsep a)))).
Proof.
  intros Hd Ha Hrel.
  pose proof (join_rooted d a Hd Ha) as Hrooted.
  unfold rooted in Hrooted. apply andb_prop in Hrooted as [Hroot _].
  rewrite (normpath_single_root _ Hroot).
  unfold cursor_ok in Hd. apply andb_prop in Hd as [Hd _].
  rewrite join_no_drives
    by (first [apply normalized_absolute_driveless, Hd
              |apply plain_arg_driveless, Ha]).
  rewrite Hrel.
  assert (Hfirst : Str.lstrip_sep (Str.replace_altsep a) = Str.replace_altsep a).
  { destruct a as [|x a]; [reflexivity|].
    cbn [ntpath.starts_with_sep] in Hrel. unfold Str.replace_altsep.
    cbn [Str.map_chars Str.lstrip_sep]. rewrite is_sep_replace, Hrel. reflexivity. }
  pose proof Hd as Hd0.
  destruct d as [|s [|b rest]]; [discriminate Hd| |].
  - cbn [normalized_absolute] in Hd.
    apply andb_prop in Hd as [[Hs _]%andb_prop _].
    apply Ascii.eqb_eq in Hs. subst s.
    replace (ntpath.ends_without_sep (String Str.sep EmptyString)) with false
      by reflexivity.
    rewrite append_cons, append_nil_l.
    unfold Str.replace_altsep at 1. cbn [Str.map_chars].
    fold (Str.replace_altsep a).
    replace (Ascii.eqb Str.sep Str.altsep) with false by reflexivity.
    cbn [Str.lstrip_sep]. rewrite Ascii.eqb_refl, Hfirst. reflexivity.
  - pose proof Hd as Hd1. cbn [normalized_absolute] in Hd.
    apply andb_prop in Hd as [[Hs Halt]%andb_prop [_ Hplain]%andb_prop].
    apply Ascii.eqb_eq in Hs. subst s.
    rewrite (cursor_ends_without_sep _ _ Hd1).
    rewrite !replace_altsep_append.
    rewrite (replace_altsep_id (String Str.sep (String b rest)))
      by (cbn [all_chars] in *; rewrite Halt; reflexivity).
    replace (Str.replace_altsep (String Str.sep EmptyString))
      with (String Str.sep EmptyString) by reflexivity.
    rewrite append_assoc. rewrite !append_cons, append_nil_l.
    assert (Hb : Ascii.eqb b Str.sep = false).
    { cbn [Str.split_sep] in Hplain.
      destruct (Ascii.eqb b Str.sep); [discriminate Hplain|reflexivity]. }
    cbn [Str.lstrip_sep]. rewrite Ascii.eqb_refl, Hb.
    rewrite <- append_cons, split_sep_app_sep.
    rewrite loop_plain_prefix by (apply Forall_forallb, Hplain).
    rewrite app_nil_r. reflexivity.
Qed.

Lemma join_sep_snoc (l : list string) (c : string) :
  l <> [] -> Str.join_sep (l ++ [c]) = Str.join_sep l +:+ String Str.sep c.
Proof.
  induction l as [|w l IH]; [congruence|]. intros _.
  destruct l as [|w' l]; [reflexivity|].
  change ((w :: w' :: l) ++ [c]) with (w :: ((w' :: l) ++ [c])).
  rewrite join_sep_cons by (destruct l; discriminate).
  rewrite IH by discriminate.
  rewrite (join_sep_cons w (w' :: l)) by discriminate.
  rewrite append_assoc, append_cons. reflexivity.
Qed.

Lemma plain_name_parts (c : string) :
  plain_name c = true ->
  plain_comp c = true /\ all_chars not_sep c = true
  /\ all_chars not_altsep c = true /\ all_chars not_colon c = true.
Proof.
  unfold plain_name. intros [[[H1 H2]%andb_prop H3]%andb_prop H4]%andb_prop. auto.
Qed.

Lemma plain_name_arg (c : string) :
  plain_name c = true ->
  plain_arg c = true /\ ntpath.starts_with_sep c = false
  /\ Str.split_sep (Str.replace_altsep c) = [c].
Proof.
  intros (Hp & Hs & Ha & Hc)%plain_name_parts.
  assert (Hrel : ntpath.starts_with_sep c = false).
  { destruct c as [|x c]; [reflexivity|]. cbn [all_chars] in Hs, Ha.
    apply andb_prop in Hs as [Hs _]. apply andb_prop in Ha as [Ha _].
    unfold not_sep in Hs. unfold not_altsep in Ha.
    apply negb_true_iff in Hs, Ha. cbn [ntpath.starts_with_sep].
    unfold Str.is_sep. rewrite Hs, Ha. reflexivity. }
  split; [|split; [exact Hrel|]].
  - unfold plain_arg. rewrite Hc. cbn [andb].
    destruct c as [|x [|y c]]; try reflexivity.
    cbn [ntpath.starts_with_sep] in Hrel. rewrite Hrel. reflexivity.
  - rewrite replace_altsep_id by exact Ha. apply split_sep_one, Hs.
Qed.

Lemma loop_push_plain (root : bool) (done : list string) (c : string) :
  plain_comp c = true ->
  ntpath.normpath_loop root done [c] = rev done ++ [c].
Proof.
  intros Hc. apply (normpath_loop_plain root done [c]).
  constructor; [exact Hc|constructor].
Qed.

(** The path of a name in the cursor's directory. *)
Lemma normpath_child (d c : string) :
  cursor_ok d = true -> plain_name c = true ->
  ntpath.normpath (ntpath.join d c) = child d c
  /\ child d c = String Str.sep (Str.join_sep (components d ++ [c])).
Proof.
  intros Hd Hc. destruct (plain_name_arg c Hc) as (Harg & Hrel & Hsplit).
  destruct (plain_name_parts c Hc) as (Hp & _).
  rewrite (normpath_under d c Hd Harg Hrel), Hsplit, (loop_push_plain _ _ _ Hp).
  rewrite rev_involutive.
  assert (E : child d c = String Str.sep (Str.join_sep (components d ++ [c]))).
  { unfold cursor_ok in Hd. apply andb_prop in Hd as [Hd _].
    unfold child. pose proof Hd as Hd0.
    destruct d as [|s [|b rest]]; [discriminate Hd| |].
    - cbn [normalized_absolute] in Hd.
      apply andb_prop in Hd as [[Hs _]%andb_prop _].
      apply Ascii.eqb_eq in Hs. subst s.
      replace (ntpath.ends_without_sep (String Str.sep EmptyString)) with false
        by reflexivity.
      rewrite append_cons, append_nil_l. reflexivity.
    - cbn [normalized_absolute] in Hd.
      apply andb_prop in Hd as [[Hs _]%andb_prop _].
      apply Ascii.eqb_eq in Hs. subst s.
      rewrite (cursor_ends_without_sep _ _ Hd0).
      cbn [components]. rewrite join_sep_snoc by apply split_sep_not_nil.
      rewrite join_split, append_assoc, !append_cons, append_nil_l.
      reflexivity. }
  split; [symmetry; exact E|exact E].
Qed.

Lemma components_of_join (l : list string) (c : string) :
  Forall (fun w => all_chars not_sep w = true) l ->
  all_chars not_sep c = true -> Str.nonempty c = true ->
  components (String Str.sep (Str.join_sep (l ++ [c]))) = l ++ [c].
Proof.
  intros Hl Hc Hn.
  assert (Hne : Str.nonempty (Str.join_sep (l ++ [c])) = true).
  { destruct l as [|w l]; [exact Hn|].
    change ((w :: l) ++ [c]) with (w :: (l ++ [c])).
    rewrite join_sep_cons by (destruct l; discriminate).
    destruct w; reflexivity. }
  destruct (Str.join_sep (l ++ [c])) as [|x s] eqn:E; [discriminate Hne|].
  cbn [components]. rewrite <- E. apply split_join.
  - destruct l; discriminate.
  - apply Forall_app. split; [exact Hl|]. constructor; [exact Hc|constructor].
Qed.

(** The parent of such a path is the cursor again. *)
Lemma normpath_parent_of_child (d c : string) :
  cursor_ok d = true -> plain_name c = true ->
  ntpath.normpath (ntpath.join (child d c) "..") = d.
Proof.
  intros Hd Hc. destruct (normpath_child d c Hd Hc) as [Hn Hshape].
  destruct (plain_name_arg c Hc) as (Harg & _).
  destruct (plain_name_parts c Hc) as (Hp & Hs & _).
  pose proof (cd_path_ok d c Hd Harg) as Hok. rewrite Hn in Hok.
  rewrite (normpath_under _ ".." Hok eq_refl eq_refl).
  rewrite Hshape at 1.
  rewrite components_of_join;
    [|apply components_no_sep|exact Hs
     |unfold plain_comp in Hp; apply andb_prop in Hp as [[Hne _]%andb_prop _];
      exact Hne].
  rewrite rev_app_distr. cbn [rev app].
  replace (Str.split_sep (Str.replace_altsep "..")) with [".."] by reflexivity.
  cbn [ntpath.normpath_loop].
  replace (negb (Str.nonempty "..") || String.eqb ".." ".") with false
    by reflexivity.
  replace (String.eqb ".." "..") with true by reflexivity.
  assert (Hdd : negb (String.eqb c "..") = true).
  { unfold plain_comp in Hp. apply andb_prop in Hp as [_ Hdd]. exact Hdd. }
  rewrite Hdd, rev_involutive.
  apply root_join_components. unfold cursor_ok in Hd.
  apply andb_prop in Hd as [Hd _]. exact Hd.
Qed.

(** X14: [cd name] followed by [cd ..] is back where it was.  From a
    cursor that is a normalized absolute path, [cd] with the name of a
    directory (no separator, no colon, not ["."] or [".."]) whose
    [listPath] succeeds sets the cursor to the cursor, one backslash, the
    name (only the name after the root); a [cd ..] from there whose
    [listPath] succeeds sets it to the first cursor again. *)
Theorem cd_child_then_parent (d c : string) (e1 e2 : list SharedFile)
    (n : nat) (st : state) :
  cur_dir st = Some d -> conn st = Some n ->
  cursor_ok d = true -> plain_name c = true ->
  let st1 := snd (do_cd (Ok e1) [c] st) in
  cur_dir st1 = Some (child d c)
  /\ cursor_ok (child d c) = true
  /\ cur_dir (snd (do_cd (Ok e2) [".."] st1)) = Some d.
Proof.
  intros Hcur Hconn Hd Hc st1.
  destruct (normpath_child d c Hd Hc) as [Hn _].
  destruct (plain_name_arg c Hc) as (Harg & _).
  assert (H1 : cur_dir st1 = Some (child d c) /\ conn st1 = Some n).
  { unfold st1. rewrite do_cd_eq, Hcur, change_dir_eq, Hconn, Hn.
    cbv zeta. simpl_state. auto. }
  destruct H1 as [H1 H1c].
  split; [exact H1|]. split; [rewrite <- Hn; apply cd_path_ok; assumption|].
  rewrite do_cd_eq, H1, change_dir_eq, H1c.
  rewrite (normpath_parent_of_child d c Hd Hc). reflexivity.
Qed.

Lemma cd_child_then_parent_witness :
  cur_dir (snd (do_cd (Ok []) [".."]
                  (snd (do_cd (Ok []) ["Nintendo 3DS"]
                          (shell_at (Some O) (Some "microSD") (Some "\DCIM"))))))
  = Some "\DCIM".
Proof.
  exact (proj2 (proj2 (cd_child_then_parent "\DCIM" "Nintendo 3DS" [] [] O
                         (shell_at (Some O) (Some "microSD") (Some "\DCIM"))
                         eq_refl eq_refl eq_refl eq_refl))).
Defined.

(** X15: an empty fragment and ["."] name the cursor itself, and [".."]
    at the root names the root: [_path_for] returns the cursor when it is
    a normalized absolute path. *)
Theorem path_for_stays (d : string) (st : state) :
  cur_dir st = Some d -> cursor_ok d = true ->
  _path_for EmptyString st = (Ok d, st)
  /\ _path_for "." st = (Ok d, st)
  /\ (d = "\" -> _path_for ".." st = (Ok d, st)).
Proof.
  intros Hcur Hd. rewrite !path_for_eq, Hcur.
  assert (Hna : normalized_absolute d = true)
    by (unfold cursor_ok in Hd; apply andb_prop in Hd as [Hd _]; exact Hd).
  split; [|split].
  - rewrite (normpath_under d EmptyString Hd eq_refl eq_refl).
    replace (Str.split_sep (Str.replace_altsep EmptyString)) with [EmptyString]
      by reflexivity.
    cbn [ntpath.normpath_loop Str.nonempty negb orb].
    rewrite rev_involutive, (root_join_components d Hna). reflexivity.
  - rewrite (normpath_under d "." Hd eq_refl eq_refl).
    replace (Str.split_sep (Str.replace_altsep ".")) with ["."] by reflexivity.
    cbn [ntpath.normpath_loop].
    replace (negb (Str.nonempty ".") || String.eqb "." ".") with true
      by reflexivity.
    rewrite rev_involutive, (root_join_components d Hna). reflexivity.
  - intros ->. reflexivity.
Qed.

Lemma path_for_stays_witness :
  _path_for "." (shell_at (Some O) (Some "microSD") (Some "\DCIM\100NIN03"))
  = (Ok "\DCIM\100NIN03",
     shell_at (Some O) (Some "microSD") (Some "\DCIM\100NIN03")).
Proof.
  exact (proj1 (proj2 (path_for_stays "\DCIM\100NIN03"
                         (shell_at (Some O) (Some "microSD")
                            (Some "\DCIM\100NIN03")) eq_refl eq_refl))).
Defined.

Lemma is_sep_replaced (c : ascii) :
  Str.is_sep (if Ascii.eqb c Str.altsep then Str.sep else c) = Str.is_sep c.
Proof.
  destruct (Ascii.eqb c Str.altsep) eqn:E; [|reflexivity].
  unfold Str.is_sep. rewrite E, orb_true_r. reflexivity.
Qed.

Lemma plain_arg_replace (a : string) :
  plain_arg a = true -> plain_arg (Str.replace_altsep a) = true.
Proof.
  unfold plain_arg. intros [Hc Hs]%andb_prop.
  rewrite (replace_altsep_no_colon a Hc). cbn [andb].
  destruct a as [|x [|y a]]; try reflexivity.
  unfold Str.replace_altsep. cbn [Str.map_chars].
  rewrite !is_sep_replaced. exact Hs.
Qed.

Lemma starts_with_sep_replace (a : string) :
  ntpath.starts_with_sep (Str.replace_altsep a) = ntpath.starts_with_sep a.
Proof.
  destruct a as [|x a]; [reflexivity|].
  unfold Str.replace_altsep. cbn [Str.map_chars ntpath.starts_with_sep].
  apply is_sep_replaced.
Qed.

(** X16: forward slashes and backslashes are interchangeable in the
    argument [_path_for] is given, that is in a word [shlex.split] has
    made of the line (not in the line as typed, where a backslash outside
    quotes is the escape character of [shlex] and does not reach the
    handler): for a cursor that is a normalized absolute path and a
    fragment without colon that does not begin with two separators,
    [_path_for] gives the same path for the fragment and for the fragment
    with every ["/"] written as a backslash. *)
Theorem path_for_either_slash (d a : string) (st : state) :
  cur_dir st = Some d -> cursor_ok d = true -> plain_arg a = true ->
  _path_for a st = _path_for (Str.replace_altsep a) st.
Proof.
  intros Hcur Hd Ha. rewrite !path_for_eq, Hcur. do 2 f_equal.
  pose proof (plain_arg_replace a Ha) as Ha'.
  assert (Hna : driveless d).
  { apply normalized_absolute_driveless. unfold cursor_ok in Hd.
    apply andb_prop in Hd as [Hd _]. exact Hd. }
  destruct (ntpath.starts_with_sep a) eqn:Hs.
  - rewrite !join_absolute by (rewrite ?starts_with_sep_replace; assumption).
    symmetry. apply normpath_replace.
  - rewrite (normpath_under d a Hd Ha Hs).
    rewrite (normpath_under d _ Hd Ha')
      by (rewrite starts_with_sep_replace; exact Hs).
    rewrite replace_altsep_idem. reflexivity.
Qed.

Lemma path_for_either_slash_witness :
  _path_for "../Nintendo 3DS/Private"
    (shell_at (Some O) (Some "microSD") (Some "\DCIM"))
  = _path_for "..\Nintendo 3DS\Private"
      (shell_at (Some O) (Some "microSD") (Some "\DCIM")).
Proof.
  exact (path_for_either_slash "\DCIM" "../Nintendo 3DS/Private"
           (shell_at (Some O) (Some "microSD") (Some "\DCIM"))
           eq_refl eq_refl eq_refl).
Defined.

(** ** The local name [get] gives a file *)

Lemma has_sep_all_chars (s : string) :
  ntpath.has_sep s = false <->
  all_chars not_sep s = true /\ all_chars not_altsep s = true.
Proof.
  induction s as [|c s IH]; cbn [ntpath.has_sep all_chars]; [tauto|].
  unfold Str.is_sep, not_sep, not_altsep.
  destruct (Ascii.eqb c Str.sep), (Ascii.eqb c Str.altsep); cbn [orb negb andb];
    try tauto; split; try discriminate; intros [? ?]; discriminate.
Qed.

Lemma has_sep_replace (s : string) :
  ntpath.has_sep (Str.replace_altsep s) = ntpath.has_sep s.
Proof.
  induction s as [|c s IH]; [reflexivity|].
  unfold Str.replace_altsep in *. cbn [Str.map_chars ntpath.has_sep].
  rewrite IH, is_sep_replaced. reflexivity.
Qed.

Lemma after_last_sep_none (s : string) :
  ntpath.has_sep s = false -> ntpath.after_last_sep s = s.
Proof.
  destruct s as [|c s]; [reflexivity|]. cbn [ntpath.has_sep ntpath.after_last_sep].
  intros [Hc Hs]%orb_false_elim. rewrite Hs, Hc. reflexivity.
Qed.

Lemma after_last_sep_no_sep (s : string) :
  ntpath.has_sep (ntpath.after_last_sep s) = false.
Proof.
  induction s as [|c s IH]; [reflexivity|]. cbn [ntpath.after_last_sep].
  destruct (ntpath.has_sep s) eqn:Hs; [exact IH|].
  destruct (Str.is_sep c) eqn:Hc; [exact Hs|].
  cbn [ntpath.has_sep]. rewrite Hc, Hs. reflexivity.
Qed.

Lemma after_last_sep_app (s c : string) :
  ntpath.has_sep c = false ->
  ntpath.after_last_sep (s +:+ String Str.sep c) = c.
Proof.
  intros Hc. induction s as [|x s IH].
  - rewrite append_nil_l. cbn [ntpath.after_last_sep]. rewrite Hc. reflexivity.
  - rewrite append_cons. cbn [ntpath.after_last_sep].
    assert (H : ntpath.has_sep (s +:+ String Str.sep c) = true).
    { clear. induction s as [|y s IH]; [reflexivity|].
      rewrite append_cons. cbn [ntpath.has_sep]. rewrite IH. apply orb_true_r. }
    rewrite H. exact IH.
Qed.

(** What follows the last separator of either kind is the last of the
    components [normpath] splits the path into. *)
Lemma last_split_replace (a : string) :
  last (Str.split_sep (Str.replace_altsep a)) = Some (ntpath.after_last_sep a).
Proof.
  induction a as [|x a IH]; [reflexivity|].
  unfold Str.replace_altsep in *. cbn [Str.map_chars Str.split_sep].
  fold (Str.replace_altsep a) in *.
  rewrite is_sep_replace.
  pose proof (split_sep_not_nil (Str.replace_altsep a)) as Hne.
  cbn [ntpath.after_last_sep].
  destruct (ntpath.has_sep a) eqn:Hs.
  - (* a separator further on *)
    destruct (Str.split_sep (Str.replace_altsep a)) as [|w [|w' ws]] eqn:Hsp;
      [congruence| |].
    + exfalso. cbn [last] in IH. injection IH as IH.
      pose proof (join_split (Str.replace_altsep a)) as Hj.
      rewrite Hsp in Hj. cbn [Str.join_sep] in Hj.
      pose proof (after_last_sep_no_sep a) as Hno.
      rewrite <- IH, Hj, has_sep_replace in Hno. congruence.
    + destruct (Str.is_sep x); exact IH.
  - apply has_sep_all_chars in Hs as [Hs Ha].
    rewrite (replace_altsep_id a Ha), (split_sep_one a Hs).
    destruct (Str.is_sep x) eqn:Hx; [reflexivity|].
    unfold Str.is_sep in Hx. apply orb_false_elim in Hx as [_ Hx].
    rewrite Hx. reflexivity.
Qed.

Lemma loop_snoc_plain (root : bool) (done todo : list string) (c : string) :
  plain_comp c = true ->
  ntpath.normpath_loop root done (todo ++ [c])
  = ntpath.normpath_loop root done todo ++ [c].
Proof.
  intros Hc. revert done. induction todo as [|w todo IH]; intros done.
  - cbn [app]. rewrite loop_push_plain by exact Hc. reflexivity.
  - cbn [app ntpath.normpath_loop].
    destruct (negb (Str.nonempty w) || String.eqb w "."); [apply IH|].
    destruct (String.eqb w "..").
    + destruct done as [|d done'].
      * destruct root; apply IH.
      * destruct (negb (String.eqb d "..")); apply IH.
    + apply IH.
Qed.

Lemma loop_lstrip (root : bool) (done : list string) (s : string) :
  ntpath.normpath_loop root done (Str.split_sep (Str.lstrip_sep s))
  = ntpath.normpath_loop root done (Str.split_sep s).
Proof.
  induction s as [|c s IH]; [reflexivity|].
  cbn [Str.lstrip_sep]. destruct (Ascii.eqb c Str.sep) eqn:Hc; [|reflexivity].
  cbn [Str.split_sep]. rewrite Hc. cbn [ntpath.normpath_loop Str.nonempty negb orb].
  exact IH.
Qed.

(** What [_path_for] computes, in both cases: the loop of [normpath] run
    over the fragment's components, on top of the cursor's or of
    nothing. *)
Lemma normpath_join_loop (d a : string) :
  cursor_ok d = true -> plain_arg a = true ->
  exists done,
    ntpath.normpath (ntpath.join d a)
    = String Str.sep
        (Str.join_sep
           (ntpath.normpath_loop true done
              (Str.split_sep (Str.replace_altsep a)))).
Proof.
  intros Hd Ha. destruct (ntpath.starts_with_sep a) eqn:Hs.
  - exists []. pose proof (join_rooted d a Hd Ha) as Hrooted.
    rewrite join_absolute in *
      by (first [apply normalized_absolute_driveless;
                 unfold cursor_ok in Hd; apply andb_prop in Hd as [Hd _];
                 exact Hd
                |exact Hs]).
    unfold rooted in Hrooted. apply andb_prop in Hrooted as [Hroot _].
    rewrite (normpath_single_root a Hroot), loop_lstrip. reflexivity.
  - eexists. apply normpath_under; assumption.
Qed.

Lemma basename_driveless (p : string) :
  driveless p -> ntpath.basename p = ntpath.after_last_sep p.
Proof.
  intros H. unfold ntpath.basename. rewrite (driveless_splitdrive p H).
  reflexivity.
Qed.

(** The name the resolved path ends in is the name the argument ends
    in. *)
Lemma basename_path_for (d a : string) :
  cursor_ok d = true -> plain_arg a = true ->
  plain_comp (ntpath.basename a) = true ->
  ntpath.basename (ntpath.normpath (ntpath.join d a)) = ntpath.basename a.
Proof.
  intros Hd Ha Hc.
  pose proof (cd_path_ok d a Hd Ha) as Hok.
  rewrite (basename_driveless (ntpath.normpath _))
    by (apply normalized_absolute_driveless; unfold cursor_ok in Hok;
        apply andb_prop in Hok as [Hok _]; exact Hok).
  rewrite (basename_driveless a) in * by (apply plain_arg_driveless, Ha).
  destruct (normpath_join_loop d a Hd Ha) as (done & ->).
  pose proof (last_split_replace a) as Hlast.
  apply last_Some in Hlast as (todo & ->).
  rewrite (loop_snoc_plain _ _ _ _ Hc).
  pose proof (after_last_sep_no_sep a) as Hno.
  destruct (ntpath.normpath_loop true done todo) as [|w ws] eqn:E.
  - cbn [app Str.join_sep].
    rewrite <- (append_nil_l (String Str.sep _)).
    apply after_last_sep_app, Hno.
  - rewrite join_sep_snoc by discriminate.
    rewrite <- append_cons. apply after_last_sep_app, Hno.
Qed.

(** X17: [get] with one argument names the local file after the remote
    one.  For a cursor that is a normalized absolute path and an argument
    without colon that does not begin with two separators, when what
    follows the argument's last slash (of either kind) is a name (not
    empty, not ["."] or [".."]), the last component of the remote path
    that [get] asks for is this name, and the file it opens is this name
    in the local working directory: the name [mget] takes from the
    argument itself. *)
Theorem get_names_file_after_remote
    (host : localhost) (open_answer : result unit) (answer : retrieve_answer)
    (d a : string) (st : state) :
  cur_dir st = Some d -> cursor_ok d = true -> plain_arg a = true ->
  plain_comp (ntpath.basename a) = true ->
  let src := ntpath.normpath (ntpath.join d a) in
  let dest := os_path_join host (cwd st)
                (os_path_expanduser host (ntpath.basename a)) in
  ntpath.basename src = ntpath.basename a
  /\ do_get host open_answer answer [a] st
     = (download open_answer answer src dest ;;; ret false) st.
Proof.
  intros Hcur Hd Ha Hc src dest.
  pose proof (basename_path_for d a Hd Ha Hc) as Hb.
  split; [exact Hb|]. subst src dest.
  unfold do_get. unfold bind at 1. rewrite path_for_eq, Hcur.
  unfold bind at 1. unfold _lpath_for at 1. cbv [bind gets ret].
  rewrite Hb. reflexivity.
Qed.

Lemma get_names_file_after_remote_witness :
  ntpath.basename
    (ntpath.normpath
       (ntpath.join "\DCIM" "100NIN03/..\101NIN03/HNI_0001.JPG"))
  = "HNI_0001.JPG".
Proof.
  exact (proj1 (get_names_file_after_remote (posix.host "/home/user") (Ok tt)
                  three_bytes_then_timeout "\DCIM"
                  "100NIN03/..\101NIN03/HNI_0001.JPG"
                  (shell_at (Some O) (Some "microSD") (Some "\DCIM"))
                  eq_refl eq_refl eq_refl eq_refl)).
Defined.

(** ** Loops over the arguments *)

Lemma add_events_nil (st : state) : add_events [] st = st.
Proof. destruct st. unfold add_events. cbn. rewrite app_nil_r. reflexivity. Qed.

Lemma add_events_app (l1 l2 : list event) (st : state) :
  add_events l2 (add_events l1 st) = add_events (l1 ++ l2) st.
Proof. unfold add_events. cbn. rewrite app_assoc. reflexivity. Qed.

Lemma connected_at_events (c : nat) (s : option string) (d : string)
    (evs : list event) (st : state) :
  connected_at c s d st -> connected_at c s d (add_events evs st).
Proof. intros H. exact H. Qed.

Section ForEach.

Variables (c : nat) (s : option string) (d : string).
Variable body : nat -> string -> M unit.
Variable answers : nat -> result unit.
Variable evs : string -> list event.

(** Each pass makes its calls and ends as the world answers. *)
Hypothesis body_eq : forall i a st,
  connected_at c s d st -> body i a st = (answers i, add_events (evs a) st).

(** The loop goes through the arguments in order, up to the first call
    that fails: [k] calls succeed, the next one, if there is one, raises
    [e], which ends the loop. *)
Lemma for_each_until_failure (args : list string) (k : nat) (e : exn) :
  forall (i : nat) (st : state),
    connected_at c s d st ->
    (k <= List.length args)%nat ->
    (forall j, (j < k)%nat -> answers (i + j)%nat = Ok tt) ->
    ((k < List.length args)%nat -> answers (i + k)%nat = Raise e) ->
    for_each body i args st
    = ((if (k <? List.length args)%nat then Raise e else Ok tt),
       add_events (List.concat (map evs (take (S k) args))) st).
Proof.
  revert k. induction args as [|a args IH]; intros k i st Hst Hk Hok Hfail.
  - cbn [List.length] in Hk. assert (k = O) by lia. subst k.
    cbn. rewrite add_events_nil. reflexivity.
  - cbn [for_each]. unfold bind. rewrite (body_eq i a st Hst).
    destruct k as [|k].
    + rewrite <- (Nat.add_0_r i) at 1. rewrite Hfail by (cbn; lia).
      cbn [List.length Nat.ltb Nat.leb take map List.concat].
      rewrite take_0. cbn [map List.concat]. rewrite app_nil_r. reflexivity.
    + rewrite <- (Nat.add_0_r i) at 1. rewrite (Hok O) by lia.
      rewrite (IH k (S i)).
      * cbn [List.length]. rewrite add_events_app.
        change (S k <? S (List.length args))%nat
          with (k <? List.length args)%nat.
        reflexivity.
      * apply connected_at_events, Hst.
      * cbn [List.length] in Hk. lia.
      * intros j Hj. replace (S i + j)%nat with (i + S j)%nat by lia.
        apply Hok. lia.
      * intros Hlt. replace (S i + k)%nat with (i + S k)%nat by lia.
        apply Hfail. cbn [List.length]. lia.
Qed.

End ForEach.

Lemma concat_map_singleton {A B : Type} (f : A -> B) (l : list A) :
  List.concat (map (fun a => [f a]) l) = map f l.
Proof. induction l as [|a l IH]; [reflexivity|]. cbn. rewrite IH. reflexivity. Qed.

Lemma conn_call_at {A : Type} (ev : nat -> option string -> event)
    (answer : result A) (c : nat) (s : option string) (d : string)
    (st : state) :
  connected_at c s d st ->
  conn_call ev answer st = (answer, add_events [ev c s] st).
Proof.
  intros (Hc & Hs & _). cbv [conn_call bind gets emit modify lift].
  rewrite Hc, Hs. reflexivity.
Qed.

Lemma path_for_at (path : string) (c : nat) (s : option string) (d : string)
    (st : state) :
  connected_at c s d st ->
  _path_for path st = (Ok (ntpath.normpath (ntpath.join d path)), st).
Proof. intros (_ & _ & Hd). rewrite path_for_eq, Hd. reflexivity. Qed.

(** X18: [rm] and [mkdir] go through their arguments in order and stop at
    the first call the server refuses: when the first [k] calls succeed
    and the next one, if there is one, raises [e], exactly the first
    [k + 1] arguments are resolved against the cursor and sent, nothing is
    printed or changed besides, and the exception leaves the handler; the
    arguments after the failing one are not attempted.  When all calls
    succeed the handler returns, the command loop going on. *)
Theorem rm_mkdir_stop_at_first_failure
    (answers : nat -> result unit) (args : list string) (k : nat) (e : exn)
    (c : nat) (d : string) (st : state) :
  conn st = Some c -> cur_dir st = Some d ->
  args <> [] -> (k <= List.length args)%nat ->
  (forall j, (j < k)%nat -> answers j = Ok tt) ->
  ((k < List.length args)%nat -> answers k = Raise e) ->
  let sent := map (fun a => ntpath.normpath (ntpath.join d a))
                (take (S k) args) in
  let outcome : result bool :=
    if (k <? List.length args)%nat then Raise e else Ok false in
  do_rm answers args st
  = (outcome, add_events (map (EvDeleteFiles c (service st)) sent) st)
  /\ do_mkdir answers args st
     = (outcome, add_events (map (EvCreateDirectory c (service st)) sent) st).
Proof.
  intros Hc Hd Hne Hk Hok Hfail sent outcome.
  assert (Hst : connected_at c (service st) d st) by (split; [|split]; auto).
  subst sent outcome. rewrite !map_map.
  split.
  - unfold do_rm. destruct args as [|a args]; [congruence|].
    unfold bind at 1.
    erewrite (for_each_until_failure c (service st) d _ answers
                (fun a => [EvDeleteFiles c (service st)
                             (ntpath.normpath (ntpath.join d a))]));
      [|intros i x st0 H0; unfold bind;
        rewrite (path_for_at _ _ _ _ _ H0);
        apply (conn_call_at (fun c s => EvDeleteFiles c s _) _ _ _ _ _ H0)
       |exact Hst|exact Hk|exact Hok|exact Hfail].
    rewrite concat_map_singleton.
    destruct (k <? List.length (a :: args))%nat; reflexivity.
  - unfold do_mkdir. destruct args as [|a args]; [congruence|].
    unfold bind at 1.
    erewrite (for_each_until_failure c (service st) d _ answers
                (fun a => [EvCreateDirectory c (service st)
                             (ntpath.normpath (ntpath.join d a))]));
      [|intros i x st0 H0; unfold bind;
        rewrite (path_for_at _ _ _ _ _ H0);
        apply (conn_call_at (fun c s => EvCreateDirectory c s _) _ _ _ _ _ H0)
       |exact Hst|exact Hk|exact Hok|exact Hfail].
    rewrite concat_map_singleton.
    destruct (k <? List.length (a :: args))%nat; reflexivity.
Qed.

Lemma rm_mkdir_stop_at_first_failure_witness :
  do_rm (fun i => if (i =? 1)%nat
                  then Raise (OperationFailure "STATUS_SHARING_VIOLATION")
                  else Ok tt)
    ["a.jpg"; "b.jpg"; "c.jpg"]
    (shell_at (Some O) (Some "microSD") (Some "\DCIM"))
  = (Raise (OperationFailure "STATUS_SHARING_VIOLATION"),
     add_events [EvDeleteFiles 0 (Some "microSD") "\DCIM\a.jpg";
                 EvDeleteFiles 0 (Some "microSD") "\DCIM\b.jpg"]
       (shell_at (Some O) (Some "microSD") (Some "\DCIM"))).
Proof.
  refine (proj1 (rm_mkdir_stop_at_first_failure
                   (fun i => if (i =? 1)%nat
                             then Raise (OperationFailure "STATUS_SHARING_VIOLATION")
                             else Ok tt)
                   ["a.jpg"; "b.jpg"; "c.jpg"] 1
                   (OperationFailure "STATUS_SHARING_VIOLATION") O "\DCIM"
                   (shell_at (Some O) (Some "microSD") (Some "\DCIM"))
                   eq_refl eq_refl _ _ _ _)).
  - discriminate.
  - cbn. lia.
  - intros [|j] Hj; [reflexivity|lia].
  - reflexivity.
Defined.

(** ** [mv] of several files into a directory *)

Lemma all_chars_after_last_sep (P : ascii -> bool) (a : string) :
  all_chars P a = true -> all_chars P (ntpath.after_last_sep a) = true.
Proof.
  induction a as [|x a IH]; [reflexivity|].
  cbn [all_chars ntpath.after_last_sep]. intros [Hx Ha]%andb_prop.
  destruct (ntpath.has_sep a); [apply IH, Ha|].
  destruct (Str.is_sep x); [exact Ha|]. cbn [all_chars]. rewrite Hx, Ha.
  reflexivity.
Qed.

(** The last component of a plain argument is a plain name when it is
    not empty, ["."] or [".."]. *)
Lemma basename_plain_name (a : string) :
  plain_arg a = true -> plain_comp (ntpath.basename a) = true ->
  plain_name (ntpath.basename a) = true.
Proof.
  intros Ha Hc. pose proof Ha as Hcol. unfold plain_arg in Hcol.
  apply andb_prop in Hcol as [Hcol _].
  rewrite (basename_driveless a) in * by (apply plain_arg_driveless, Ha).
  pose proof (after_last_sep_no_sep a) as Hno.
  apply has_sep_all_chars in Hno as [H1 H2].
  unfold plain_name. rewrite Hc, H1, H2.
  rewrite (all_chars_after_last_sep not_colon a Hcol). reflexivity.
Qed.

Lemma join_child (d c : string) :
  cursor_ok d = true -> plain_name c = true -> ntpath.join d c = child d c.
Proof.
  intros Hd Hc. destruct (plain_name_arg c Hc) as (Harg & Hrel & _).
  unfold cursor_ok in Hd. apply andb_prop in Hd as [Hd _].
  rewrite join_no_drives
    by (first [apply normalized_absolute_driveless, Hd
              |apply plain_arg_driveless, Harg]).
  rewrite Hrel. reflexivity.
Qed.

Lemma child_ok (d c : string) :
  cursor_ok d = true -> plain_name c = true -> cursor_ok (child d c) = true.
Proof.
  intros Hd Hc. destruct (normpath_child d c Hd Hc) as [<- _].
  apply cd_path_ok; [exact Hd|]. apply (plain_name_arg c Hc).
Qed.

(** X19: [mv] with more than two arguments moves every source into the
    directory named last, under its own name.  For a cursor that is a
    normalized absolute path, arguments without colon that do not begin
    with two separators, and sources that end in a name (not empty, not
    ["."] or [".."]): when the server accepts every call, [mv] prints
    ["Moving <name>"] and renames, source by source in order, the resolved
    source to the resolved directory, one backslash, the name; this new
    path is a normalized absolute path although [mv] does not normalise
    it, and its name is the name the source had. *)
Theorem mv_into_directory
    (answers : nat -> result unit) (srcs : list string) (dst : string)
    (c : nat) (d : string) (st : state) :
  conn st = Some c -> cur_dir st = Some d -> cursor_ok d = true ->
  (2 <= List.length srcs)%nat ->
  plain_arg dst = true ->
  Forall (fun a => plain_arg a = true
                   /\ plain_comp (ntpath.basename a) = true) srcs ->
  (forall j, (j < List.length srcs)%nat -> answers j = Ok tt) ->
  let dir := ntpath.normpath (ntpath.join d dst) in
  let new a := child dir (ntpath.basename a) in
  do_mv answers (srcs ++ [dst]) st
  = (Ok false,
     add_events
       (List.concat
          (map (fun a => [EvPrint ("Moving " +:+ ntpath.basename a);
                          EvRename c (service st)
                            (ntpath.normpath (ntpath.join d a)) (new a)])
             srcs)) st)
  /\ Forall (fun a => cursor_ok (new a) = true
                      /\ ntpath.basename (new a)
                         = ntpath.basename (ntpath.normpath (ntpath.join d a)))
       srcs.
Proof.
  intros Hc Hd Hok Hlen Hdst Hsrcs Hans dir new.
  assert (Hst : connected_at c (service st) d st) by (split; [|split]; auto).
  assert (Hdir : cursor_ok dir = true) by (apply cd_path_ok; assumption).
  assert (Hname : Forall (fun a => plain_name (ntpath.basename a) = true) srcs).
  { eapply Forall_impl; [exact Hsrcs|]. intros a [Ha Hb].
    apply basename_plain_name; assumption. }
  split.
  - unfold do_mv.
    destruct srcs as [|a [|b srcs]]; [cbn in Hlen; lia|cbn in Hlen; lia|].
    set (l := a :: b :: srcs) in *.
    assert (Hlast : List.last (l ++ [dst]) EmptyString = dst) by apply last_last.
    assert (Hrem : List.removelast (l ++ [dst]) = l) by apply removelast_last.
    assert (Hshape : exists x y z rest, l ++ [dst] = x :: y :: z :: rest).
    { unfold l. cbn [app]. destruct srcs; cbn [app]; eauto. }
    destruct Hshape as (x & y & z & rest & Hshape).
    rewrite Hshape. cbv iota. rewrite <- Hshape. rewrite Hlast, Hrem.
    unfold bind at 1. rewrite (path_for_at _ _ _ _ _ Hst). fold dir.
    unfold bind at 1.
    erewrite (for_each_until_failure c (service st) d _ answers
                (fun a => [EvPrint ("Moving " +:+ ntpath.basename a);
                           EvRename c (service st)
                             (ntpath.normpath (ntpath.join d a))
                             (ntpath.join dir (ntpath.basename a))])
                _ l (List.length l) EOFError);
      [|exact Hst|reflexivity|intros j Hj; apply Hans, Hj|intros Hlt; lia].
    + rewrite Nat.ltb_irrefl.
      rewrite firstn_all2 by lia.
      do 3 f_equal. apply map_ext_Forall.
      eapply Forall_impl; [exact Hname|]. intros arg Harg. cbv beta.
      unfold new. rewrite (join_child dir _ Hdir Harg). reflexivity.
  - eapply Forall_impl; [exact Hsrcs|]. intros a [Ha Hb]. cbv beta.
    pose proof (basename_plain_name a Ha Hb) as Hn.
    split; [apply child_ok; assumption|].
    rewrite (basename_path_for d a Hok Ha Hb). unfold new.
    destruct (normpath_child dir _ Hdir Hn) as [<- _].
    destruct (plain_name_arg _ Hn) as (Hna & _).
    destruct (plain_name_parts _ Hn) as (Hp & Hs1 & Hs2 & _).
    assert (Hbb : ntpath.basename (ntpath.basename a) = ntpath.basename a).
    { rewrite (basename_driveless (ntpath.basename a))
        by (apply plain_arg_driveless, Hna).
      apply after_last_sep_none, has_sep_all_chars. auto. }
    rewrite (basename_path_for dir _ Hdir Hna) by (rewrite Hbb; exact Hp).
    exact Hbb.
    Unshelve.
    intros i arg st0 H0. unfold bind at 1. cbv [print emit modify].
    assert (H1 : connected_at c (service st) d
                   (add_event (EvPrint ("Moving " +:+ ntpath.basename arg)) st0))
      by exact H0.
    unfold bind at 1. rewrite (path_for_at _ _ _ _ _ H1).
    rewrite (conn_call_at (fun c s => EvRename c s _ _) _ _ _ _ _ H1).
    f_equal. unfold add_events, add_event. cbn. rewrite <- app_assoc.
    reflexivity.
Qed.

Lemma mv_into_directory_witness :
  do_mv (fun _ => Ok tt) (["a.jpg"; "sub/b.jpg"] ++ ["..\backup"])
    (shell_at (Some O) (Some "microSD") (Some "\DCIM"))
  = (Ok false,
     add_events
       [EvPrint "Moving a.jpg";
        EvRename 0 (Some "microSD") "\DCIM\a.jpg" "\backup\a.jpg";
        EvPrint "Moving b.jpg";
        EvRename 0 (Some "microSD") "\DCIM\sub\b.jpg" "\backup\b.jpg"]
       (shell_at (Some O) (Some "microSD") (Some "\DCIM"))).
Proof.
  refine (proj1 (mv_into_directory (fun _ => Ok tt) ["a.jpg"; "sub/b.jpg"]
                   "..\backup" O "\DCIM"
                   (shell_at (Some O) (Some "microSD") (Some "\DCIM"))
                   eq_refl eq_refl eq_refl _ eq_refl _ _)).
  - cbn. lia.
  - repeat constructor.
  - intros j _. reflexivity.
Defined.

(** ** What the commands leave alone *)

Section Footprint.

Variables fs cw cd : bool.

Lemma footprint_refl (st : state) : footprint fs cw cd st st.
Proof.
  do 7 (split; [intros; reflexivity|]).
  exists []. rewrite app_nil_r. reflexivity.
Qed.

Lemma footprint_trans (a b c : state) :
  footprint fs cw cd a b -> footprint fs cw cd b c -> footprint fs cw cd a c.
Proof.
  intros (A1 & A2 & A3 & A4 & A5 & A6 & A7 & e1 & A8)
         (B1 & B2 & B3 & B4 & B5 & B6 & B7 & e2 & B8).
  split; [congruence|]. split; [congruence|]. split; [congruence|].
  split; [congruence|].
  split; [intros H; rewrite (B5 H); exact (A5 H)|].
  split; [intros H; rewrite (B6 H); exact (A6 H)|].
  split; [intros H; rewrite (B7 H); exact (A7 H)|].
  exists (e1 ++ e2). rewrite B8, A8, app_assoc. reflexivity.
Qed.

Lemma footprint_event (ev : event) (st : state) :
  footprint fs cw cd st (add_event ev st).
Proof.
  split; [reflexivity|]. split; [reflexivity|]. split; [reflexivity|].
  split; [reflexivity|]. split; [reflexivity|]. split; [reflexivity|].
  split; [reflexivity|]. exists [ev]. reflexivity.
Qed.

End Footprint.

Lemma footprint_files (cw cd : bool) (m : gmap string (list Byte.byte))
    (st : state) :
  footprint true cw cd st (set_files m st).
Proof.
  split; [reflexivity|]. split; [reflexivity|]. split; [reflexivity|].
  split; [reflexivity|]. split; [discriminate|]. split; [reflexivity|].
  split; [reflexivity|]. exists []. cbn. rewrite app_nil_r. reflexivity.
Qed.

Lemma footprint_cwd (fs cd : bool) (d : string) (st : state) :
  footprint fs true cd st (set_cwd d st).
Proof.
  split; [reflexivity|]. split; [reflexivity|]. split; [reflexivity|].
  split; [reflexivity|]. split; [reflexivity|]. split; [discriminate|].
  split; [reflexivity|]. exists []. cbn. rewrite app_nil_r. reflexivity.
Qed.

Lemma footprint_cur_dir (fs cw : bool) (d : option string) (st : state) :
  footprint fs cw true st (set_cur_dir d st).
Proof.
  split; [reflexivity|]. split; [reflexivity|]. split; [reflexivity|].
  split; [reflexivity|]. split; [reflexivity|]. split; [reflexivity|].
  split; [discriminate|]. exists []. cbn. rewrite app_nil_r. reflexivity.
Qed.

(** A file opened for reading is not changed by [open]. *)
Lemma keeps_with_open_rb (I : state -> state -> Prop)
    (I_refl : forall st, I st st)
    (I_trans : forall a b c, I a b -> I b c -> I a c)
    (I_event : forall ev st, I st (add_event ev st))
    {A : Type} (answer : result unit) (path : string) (body : M A) :
  keeps I body -> keeps I (with_open answer path "rb" body).
Proof.
  intros Hb. unfold with_open.
  apply (keeps_bind I I_trans); [apply (keeps_emit I I_event)|]. intros _.
  apply (keeps_bind I I_trans); [apply (keeps_lift I I_refl)|]. intros _.
  apply (keeps_bind I I_trans).
  - replace (String.eqb "rb" "wb") with false by reflexivity.
    apply (keeps_ret I I_refl).
  - intros _ st r st'. destruct (body st) as [r1 st1] eqn:H1.
    intros [= <- <-]. eapply I_trans; [eapply Hb, H1|apply I_event].
Qed.

Ltac footprint_step :=
  match goal with
  | |- keeps (footprint ?fs ?cw ?cd) _ =>
      first
        [ apply (keeps_ret _ (footprint_refl fs cw cd))
        | apply (keeps_raise _ (footprint_refl fs cw cd))
        | apply (keeps_lift _ (footprint_refl fs cw cd))
        | apply (keeps_gets _ (footprint_refl fs cw cd))
        | apply (keeps_print _ (footprint_event fs cw cd))
        | apply (keeps_emit _ (footprint_event fs cw cd))
        | apply (keeps_print_lines _ (footprint_refl fs cw cd)
                   (footprint_trans fs cw cd) (footprint_event fs cw cd))
        | apply (keeps_conn_call _ (footprint_refl fs cw cd)
                   (footprint_trans fs cw cd) (footprint_event fs cw cd))
        | apply (keeps_path_for _ (footprint_refl fs cw cd)
                   (footprint_trans fs cw cd))
        | apply (keeps_read_cur_dir _ (footprint_refl fs cw cd)
                   (footprint_trans fs cw cd))
        | apply (keeps_lpath_for _ (footprint_refl fs cw cd)
                   (footprint_trans fs cw cd))
        | apply (keeps_retrieveFile _ (footprint_refl true cw cd)
                   (footprint_trans true cw cd) (footprint_event true cw cd)
                   (footprint_files cw cd))
        | apply (keeps_with_open _ (footprint_refl true cw cd)
                   (footprint_trans true cw cd) (footprint_event true cw cd)
                   (footprint_files cw cd))
        | apply (keeps_with_open_rb _ (footprint_refl fs cw cd)
                   (footprint_trans fs cw cd) (footprint_event fs cw cd))
        | apply (keeps_for_each _ (footprint_refl fs cw cd)
                   (footprint_trans fs cw cd)); intros
        | apply (keeps_try _ (footprint_trans fs cw cd)); [|intros]
        | apply (keeps_modify (footprint fs cw cd)); intros;
          first [apply footprint_cwd|apply footprint_cur_dir]
        | apply (keeps_bind _ (footprint_trans fs cw cd)); [|intros] ]
  end.

(** X20: what a command can change.  However a handler ends, by
    returning or with an exception: the connection the shell holds, the
    connections made and their state (none is closed or opened, by [quit]
    no more than by the others), the share, and the lines waiting on the
    input are the same; the calls made before stay in place; the local
    files are the same unless the command is [get] or [mget] ([put] and
    [mput] only read); the local working directory is the same unless the
    command is [lcd]; the cursor is the same unless the command is
    [cd]. *)
Theorem command_footprint (host : localhost) (cmd : command)
    (st st' : state) (r : result bool) :
  onecmd host cmd st = (r, st') ->
  conn st' = conn st /\ conns st' = conns st /\ service st' = service st
  /\ typed st' = typed st
  /\ (is_download cmd = false -> files st' = files st)
  /\ (is_lcd cmd = false -> cwd st' = cwd st)
  /\ (is_cd cmd = false -> cur_dir st' = cur_dir st)
  /\ exists evs, trace st' = trace st ++ evs.
Proof.
  intros H. revert st r st' H.
  change (keeps (footprint (is_download cmd) (is_lcd cmd) (is_cd cmd))
            (onecmd host cmd)).
  destruct cmd as [answer args|answer args|answers args|answer args
                  |answer args|open_answer answer args|answers args
                  |open_answer store_answer args|answers args|answers args
                  | |answers args| |info| |text];
    cbn [onecmd is_download is_lcd is_cd];
    unfold do_ls, do_lls, do_mkdir, do_cd, _change_dir, status_name, do_lcd,
      do_get,
      do_mget, download, do_put, do_mput, upload, do_rm, do_rmdir, do_mv,
      do_pwd, do_info, do_quit, do_help;
    try (destruct args as [|? [|? [|? ?]]]);
    repeat footprint_step.
Qed.

Lemma command_footprint_witness :
  files (snd (onecmd (posix.host "/home/user")
                (Put (Ok tt) (Raise (OperationFailure "STATUS_DISK_FULL"))
                   ["a.jpg"]) started))
  = files started.
Proof.
  exact (proj1 (proj2 (proj2 (proj2 (proj2
           (command_footprint (posix.host "/home/user")
              (Put (Ok tt) (Raise (OperationFailure "STATUS_DISK_FULL"))
                 ["a.jpg"]) started _ _ (surjective_pairing _))))))
           eq_refl).
Defined.

(** ** [ls] of a directory *)

Lemma float_of_int_upper (n p : Z) :
  0 <= n < 2 ^ p -> 53 <= p < 1024 ->
  exists m, float_of_int n = Some m /\ 0 <= m <= 2 ^ p.
Proof.
  intros [Hn0 Hn] Hp.
  destruct (Z.lt_ge_cases n (2 ^ 53)) as [Hsmall|Hbig].
  - exists n. rewrite float_of_int_exact by lia. split; [reflexivity|lia].
  - assert (Hpos : 0 < n) by lia.
    unfold float_of_int. rewrite (Z.abs_eq n) by lia.
    rewrite (Z.sgn_pos n) by lia.
    set (L := Z.log2 n).
    assert (HL : 53 <= L) by (apply Z.log2_le_pow2; lia).
    assert (HLp : L < p) by (apply Z.log2_lt_pow2; lia).
    replace (Z.max 0 (L - 52)) with (L - 52) by lia.
    set (e := L - 52).
    assert (H2e : 0 < 2 ^ e) by (apply Z.pow_pos_nonneg; lia).
    assert (Hsplit : 2 ^ p = 2 ^ (p - e) * 2 ^ e).
    { rewrite <- Z.pow_add_r by lia. f_equal. lia. }
    assert (Hq : n / 2 ^ e < 2 ^ (p - e)).
    { apply Z.div_lt_upper_bound; [lia|]. rewrite Z.mul_comm, <- Hsplit. lia. }
    pose proof (round_half_even_upper n (2 ^ e) ltac:(lia) H2e) as Hup.
    pose proof (round_half_even_lower n (2 ^ e) ltac:(lia) H2e) as Hlo.
    assert (Hq0 : 0 <= n / 2 ^ e) by (apply Z.div_pos; lia).
    assert (Hv : round_half_even n (2 ^ e) * 2 ^ e <= 2 ^ p).
    { rewrite Hsplit. apply Z.mul_le_mono_nonneg_r; lia. }
    assert (Hbig' : 2 ^ p < 2 ^ 1024) by (apply Z.pow_lt_mono_r; lia).
    assert (Hlt : (round_half_even n (2 ^ e) * 2 ^ e <? 2 ^ 1024) = true)
      by (apply Z.ltb_lt; lia).
    rewrite Hlt. eexists. split; [reflexivity|].
    assert (0 <= round_half_even n (2 ^ e) * 2 ^ e) by nia. lia.
Qed.

(** [format_size] has a string for every size a 64-bit field holds. *)
Lemma format_size_64 (n : Z) :
  0 <= n < 2 ^ 64 -> exists s, format_size n = Ok (Some s).
Proof.
  intros Hn. destruct (float_of_int_upper n 64 Hn ltac:(lia)) as (m & Hm & Hm0 & Hm64).
  assert (Hlt : m < 1024 ^ 8).
  { eapply Z.le_lt_trans; [exact Hm64|]. reflexivity. }
  destruct (format_size_unit n m (proj1 Hn) Hm Hlt) as (k & unit & _ & _ & _ & ->).
  eauto.
Qed.

Lemma build_filelist_sizes (resp : list SharedFile) :
  Forall (fun sf => isDirectory sf = false -> 0 <= file_size sf < 2 ^ 64) resp ->
  exists l, build_filelist resp = Ok l
            /\ Forall (fun f => is_Some (fsize f)) l
            /\ map fname l = map filename resp.
Proof.
  induction 1 as [|sf resp Hsf _ (l & Hl & Hall & Hnames)]; cbn [build_filelist].
  - exists []. split; [reflexivity|]. split; [constructor|reflexivity].
  - destruct (isDirectory sf) eqn:Hd.
    + rewrite Hl. eexists. split; [reflexivity|]. split.
      * constructor; [cbn; eauto|exact Hall].
      * cbn [map fname]. rewrite Hnames. reflexivity.
    + destruct (format_size_64 _ (Hsf eq_refl)) as [s ->]. rewrite Hl.
      eexists. split; [reflexivity|]. split.
      * constructor; [cbn; eauto|exact Hall].
      * cbn [map fname]. rewrite Hnames. reflexivity.
Qed.

Lemma filter_length_Permutation {A : Type} (P : A -> bool) (l l' : list A) :
  Permutation l l' ->
  List.length (List.filter P l) = List.length (List.filter P l').
Proof.
  induction 1 as [|x l l' _ IH|x y l|l l' l'' _ IH1 _ IH2];
    cbn [List.filter].
  - reflexivity.
  - destruct (P x); cbn [List.length]; rewrite IH; reflexivity.
  - destruct (P x), (P y); reflexivity.
  - congruence.
Qed.

Lemma filter_length_map {A B : Type} (f : A -> B) (P : B -> bool) (l : list A) :
  List.length (List.filter (fun x => P (f x)) l)
  = List.length (List.filter P (map f l)).
Proof.
  induction l as [|x l IH]; [reflexivity|]. cbn [map List.filter].
  destruct (P (f x)); cbn [List.length]; rewrite IH; reflexivity.
Qed.

(** A list that is not empty and whose sizes are all strings is
    printed, an entry a row, ["."] and [".."] apart. *)
Lemma print_filelist_ok (l : list fentry) :
  l <> [] -> Forall (fun f => is_Some (fsize f)) l ->
  exists rows,
    print_filelist l = Ok rows
    /\ List.length rows
       = List.length (List.filter (fun f => negb (is_pseudo (fname f))) l).
Proof.
  intros Hne Hall. unfold print_filelist.
  pose proof (sort_filelist_Permutation l) as Hp.
  assert (Hall' : Forall (fun f => is_Some (fsize f)) (sort_filelist l)).
  { apply List.Forall_forall. intros f Hf. rewrite List.Forall_forall in Hall.
    apply Hall. eapply Permutation_in; [symmetry; exact Hp|exact Hf]. }
  assert (Hw : exists w, max_sizelen (sort_filelist l) = Ok w).
  { destruct (sort_filelist l) as [|f l'] eqn:E.
    - symmetry in Hp. apply Permutation_nil in Hp. congruence.
    - inversion Hall' as [|? ? [s Hs] Hl']; subst. cbn [max_sizelen].
      rewrite Hs. apply max_from_ok, Hl'. }
  destruct Hw as [w ->].
  destruct (print_rows_ok w _ Hall') as [rows Hrows]. exists rows.
  split; [exact Hrows|].
  rewrite (print_rows_map _ _ _ Hrows), length_map.
  symmetry. apply filter_length_Permutation, Hp.
Qed.

Lemma print_lines_eq (rows : list string) (st : state) :
  print_lines rows st = (Ok tt, add_events (map EvPrint rows) st).
Proof.
  revert st. induction rows as [|r rows IH]; intros st; cbn [print_lines map].
  - rewrite add_events_nil. reflexivity.
  - unfold bind, print, emit, modify. rewrite IH. f_equal.
    unfold add_events, add_event. cbn. rewrite <- app_assoc. reflexivity.
Qed.

(** X21: [ls] of a directory that is not empty works whatever the
    directory holds, as long as the sizes of its files are what a 64-bit
    field holds: [listPath] is called once, on the cursor or on the
    argument resolved against it, then one row is printed for every entry
    other than ["."] and [".."], nothing else is done, and the command
    loop goes on. *)
Theorem ls_lists_every_entry
    (resp : list SharedFile) (args : list string)
    (c : nat) (d : string) (st : state) :
  conn st = Some c -> cur_dir st = Some d ->
  (List.length args <= 1)%nat -> resp <> [] ->
  Forall (fun sf => isDirectory sf = false -> 0 <= file_size sf < 2 ^ 64) resp ->
  let path := match args with
              | [] => d
              | a :: _ => ntpath.normpath (ntpath.join d a)
              end in
  exists rows : list string,
    List.length rows
    = List.length (List.filter (fun sf => negb (is_pseudo (filename sf))) resp)
    /\ do_ls (Ok resp) args st
       = (Ok false,
          add_events (EvListPath c (service st) path :: map EvPrint rows) st).
Proof.
  intros Hc Hd Hargs Hne Hsizes path.
  assert (Hst : connected_at c (service st) d st) by (split; [|split]; auto).
  destruct (build_filelist_sizes resp Hsizes) as (l & Hl & Hall & Hnames).
  assert (Hlne : l <> []).
  { intros ->. destruct resp; [congruence|discriminate Hnames]. }
  destruct (print_filelist_ok l Hlne Hall) as (rows & Hrows & Hlen).
  exists rows. split.
  - rewrite Hlen.
    rewrite (filter_length_map fname (fun n => negb (is_pseudo n)) l).
    rewrite (filter_length_map filename (fun n => negb (is_pseudo n)) resp).
    rewrite Hnames. reflexivity.
  - assert (Hpath : (match args with
                     | [] => read_cur_dir
                     | a :: _ => _path_for a
                     end) st = (Ok path, st)).
    { destruct args as [|a args].
      - cbv [read_cur_dir bind gets ret]. rewrite Hd. reflexivity.
      - apply (path_for_at _ _ _ _ _ Hst). }
    assert (Hrun : (path <- match args with
                            | [] => read_cur_dir
                            | a :: _ => _path_for a
                            end ;;
                    resp <- conn_call (fun c s => EvListPath c s path) (Ok resp) ;;
                    filelist <- lift (build_filelist resp) ;;
                    rows <- lift (print_filelist filelist) ;;
                    print_lines rows ;;; ret false) st
                   = (Ok false,
                      add_events
                        (EvListPath c (service st) path :: map EvPrint rows) st)).
    { unfold bind at 1. rewrite Hpath.
      unfold bind at 1.
      rewrite (conn_call_at (fun c s => EvListPath c s path) _ _ _ _ _ Hst).
      unfold bind at 1. unfold lift at 1. rewrite Hl.
      unfold bind at 1. unfold lift at 1. rewrite Hrows.
      unfold bind at 1. rewrite print_lines_eq, add_events_app. reflexivity. }
    unfold do_ls. destruct args as [|a [|b args]];
      [exact Hrun|exact Hrun|cbn in Hargs; lia].
Qed.

Lemma ls_lists_every_entry_witness :
  exists rows : list string,
    List.length rows = 2%nat
    /\ do_ls (Ok [ {| filename := "."; isDirectory := true; file_size := 0 |};
                   {| filename := "DCIM"; isDirectory := true; file_size := 0 |};
                   {| filename := "boot.bin"; isDirectory := false;
                      file_size := 2 ^ 64 - 1 |} ]) []
         (shell_at (Some O) (Some "microSD") (Some "\"))
       = (Ok false,
          add_events (EvListPath 0 (Some "microSD") "\" :: map EvPrint rows)
            (shell_at (Some O) (Some "microSD") (Some "\"))).
Proof.
  refine (ls_lists_every_entry
            [ {| filename := "."; isDirectory := true; file_size := 0 |};
              {| filename := "DCIM"; isDirectory := true; file_size := 0 |};
              {| filename := "boot.bin"; isDirectory := false;
                 file_size := 2 ^ 64 - 1 |} ] [] O "\"
            (shell_at (Some O) (Some "microSD") (Some "\"))
            eq_refl eq_refl _ _ _).
  - cbn. lia.
  - discriminate.
  - repeat constructor; cbn; intros; try discriminate; lia.
Defined.

(** ** Paths sent to the server *)

(** X22: in a running shell whose [cd] arguments were plain, every
    fragment without colon that does not begin with two separators
    resolves, and resolves inside the share: [_path_for] returns a
    backslash followed by components joined by single backslashes, none
    of them empty, ["."] or [".."], with no forward slash and no colon
    left; a fragment that climbs above the root with [".."] stops at the
    root. *)
Theorem running_shell_resolves_inside_share
    (host : localhost) (st : state) (a : string) :
  reachable_by host plain_cd st -> plain_arg a = true ->
  exists p,
    _path_for a st = (Ok p, st)
    /\ p = String Str.sep (Str.join_sep (components p))
    /\ Forall (fun c => plain_comp c = true) (components p)
    /\ all_chars not_altsep p = true
    /\ all_chars not_colon p = true.
Proof.
  intros Hreach Ha.
  destruct (reachable_plain_cursor host st Hreach) as (d & Hd & Hok).
  exists (ntpath.normpath (ntpath.join d a)).
  rewrite path_for_eq, Hd. split; [reflexivity|].
  pose proof (cd_path_ok d a Hok Ha) as Hp.
  set (p := ntpath.normpath (ntpath.join d a)) in *.
  unfold cursor_ok in Hp. apply andb_prop in Hp as [Hna Hcol].
  split; [symmetry; apply root_join_components, Hna|].
  split; [apply components_plain, Hna|].
  split; [|exact Hcol].
  destruct p as [|x rest]; [discriminate Hna|].
  cbn [normalized_absolute] in Hna.
  apply andb_prop in Hna as [[Hx Halt]%andb_prop _].
  apply Ascii.eqb_eq in Hx. subst x. cbn [all_chars]. rewrite Halt.
  reflexivity.
Qed.

Lemma running_shell_resolves_inside_share_witness :
  exists p,
    _path_for "DCIM/../../..\Nintendo 3DS/." started = (Ok p, started)
    /\ p = String Str.sep (Str.join_sep (components p))
    /\ Forall (fun c => plain_comp c = true) (components p)
    /\ all_chars not_altsep p = true
    /\ all_chars not_colon p = true.
Proof.
  apply (running_shell_resolves_inside_share (posix.host "/home/user")).
  - apply started_reachable.
  - reflexivity.
Defined.

(** ** [ls] of a directory with a file too large to show *)

(** X12: a listing that holds a file of [1024 ^ 8] bytes or more cannot
    be printed.  [ls] calls [listPath], once, and then raises before it
    prints anything, whatever else the listing holds: [OverflowError],
    from [format_size], when the size of some file of the listing has no
    double, and otherwise [TypeError], from [print_filelist] at
    [len(None)], [format_size] having no string for the large size. *)
Theorem listing_with_huge_file_raises
    (resp : list SharedFile) (sf : SharedFile) (args : list string)
    (c : nat) (d : string) (st : state) :
  conn st = Some c -> cur_dir st = Some d -> (List.length args <= 1)%nat ->
  In sf resp -> isDirectory sf = false -> 1024 ^ 8 <= file_size sf ->
  let path := match args with
              | [] => d
              | a :: _ => ntpath.normpath (ntpath.join d a)
              end in
  exists e,
    do_ls (Ok resp) args st
    = (Raise e, add_events [EvListPath c (service st) path] st)
    /\ (Exists (fun sf => isDirectory sf = false
                          /\ float_of_int (file_size sf) = None) resp ->
        e = OverflowError)
    /\ (Forall (fun sf => isDirectory sf = false ->
                          float_of_int (file_size sf) <> None) resp ->
        e = TypeError).
Proof.
  intros Hc Hd Hargs Hin Hnd Hbig path.
  assert (Hst : connected_at c (service st) d st) by (split; [|split]; auto).
  assert (Hpath : (match args with
                   | [] => read_cur_dir
                   | a :: _ => _path_for a
                   end) st = (Ok path, st)).
  { destruct args as [|a args].
    - cbv [read_cur_dir bind gets ret]. rewrite Hd. reflexivity.
    - apply (path_for_at _ _ _ _ _ Hst). }
  assert (Hrun : forall e,
             (exists l, build_filelist resp = Ok l
                        /\ print_filelist l = Raise e)
             \/ build_filelist resp = Raise e ->
             do_ls (Ok resp) args st
             = (Raise e, add_events [EvListPath c (service st) path] st)).
  { intros e He.
    assert (H : (path <- match args with
                         | [] => read_cur_dir
                         | a :: _ => _path_for a
                         end ;;
                 resp <- conn_call (fun c s => EvListPath c s path) (Ok resp) ;;
                 filelist <- lift (build_filelist resp) ;;
                 rows <- lift (print_filelist filelist) ;;
                 print_lines rows ;;; ret false) st
                = (Raise e, add_events [EvListPath c (service st) path] st)).
    { unfold bind at 1. rewrite Hpath.
      unfold bind at 1.
      rewrite (conn_call_at (fun c s => EvListPath c s path) _ _ _ _ _ Hst).
      unfold bind at 1. unfold lift at 1.
      destruct He as [(l & -> & Hp) | ->]; [|reflexivity].
      unfold bind at 1. unfold lift at 1. rewrite Hp. reflexivity. }
    unfold do_ls. destruct args as [|a [|b args]];
      [exact H|exact H|cbn in Hargs; lia]. }
  destruct (unconvertible_or_not resp) as [Hex|Hall].
  - exists OverflowError. split; [|split; [reflexivity|]].
    + apply Hrun. right. apply build_filelist_overflow, Hex.
    + intros Hall. exfalso. rewrite List.Forall_forall in Hall.
      apply List.Exists_exists in Hex as (x & Hx & Hxd & Hxn).
      exact (Hall x Hx Hxd Hxn).
  - exists TypeError. split; [|split; [|reflexivity]].
    + apply Hrun. left.
      destruct (build_filelist_ok resp Hall) as (l & Hl & Hf).
      exists l. split; [exact Hl|]. apply print_filelist_None.
      destruct (Hf sf Hin Hnd) as (f & Hfin & Hfs). exists f.
      split; [exact Hfin|].
      rewrite List.Forall_forall in Hall. specialize (Hall sf Hin Hnd).
      destruct (float_of_int (file_size sf)) as [m|] eqn:Hm; [|congruence].
      rewrite (format_size_None _ m) in Hfs by (try exact Hm; lia).
      congruence.
    + intros Hex. exfalso. rewrite List.Forall_forall in Hall.
      apply List.Exists_exists in Hex as (x & Hx & Hxd & Hxn).
      exact (Hall x Hx Hxd Hxn).
Qed.

Lemma listing_with_huge_file_witness :
  exists e,
    do_ls (Ok [ {| filename := "a"; isDirectory := true; file_size := 0 |};
                {| filename := "big"; isDirectory := false;
                   file_size := 1024 ^ 8 |};
                {| filename := "huge"; isDirectory := false;
                   file_size := 2 ^ 1024 |} ]) ["DCIM"]
      (shell_at (Some O) (Some "microSD") (Some "\"))
    = (Raise e,
       add_events [EvListPath 0 (Some "microSD") "\DCIM"]
         (shell_at (Some O) (Some "microSD") (Some "\")))
    /\ (Exists (fun sf => isDirectory sf = false
                          /\ float_of_int (file_size sf) = None)
          [ {| filename := "a"; isDirectory := true; file_size := 0 |};
            {| filename := "big"; isDirectory := false; file_size := 1024 ^ 8 |};
            {| filename := "huge"; isDirectory := false;
               file_size := 2 ^ 1024 |} ] ->
        e = OverflowError)
    /\ (Forall (fun sf => isDirectory sf = false ->
                          float_of_int (file_size sf) <> None)
          [ {| filename := "a"; isDirectory := true; file_size := 0 |};
            {| filename := "big"; isDirectory := false; file_size := 1024 ^ 8 |};
            {| filename := "huge"; isDirectory := false;
               file_size := 2 ^ 1024 |} ] ->
        e = TypeError).
Proof.
  refine (listing_with_huge_file_raises _
            {| filename := "big"; isDirectory := false; file_size := 1024 ^ 8 |}
            ["DCIM"] O "\" (shell_at (Some O) (Some "microSD") (Some "\"))
            eq_refl eq_refl _ _ eq_refl _).
  - cbn. lia.
  - right. left. reflexivity.
  - cbn. lia.
Defined.
